(* ===== verification/_CoqProject ===== *)
-Q . S2P
Prelude.v
JsValue.v
Regex.v
Split.v
Json.v
JsonWrite.v
Parse.v
Protocol.v
Host.v
Display.v
Supervisor.v
Extension.v
Pipeline.v
Liveness.v
Resources.v
Refinement.v
