(* ===== verification/Prelude.v ===== *)
(** * A verification development for gnome-shell-extension-i3status

    The program ([src/extension.js], one class [Extension]) is a GNOME
    Shell extension that runs [/usr/bin/i3status] as a child process,
    reads its standard output line by line with asynchronous GIO reads,
    parses each line of the i3bar protocol (a JSON array of status
    blocks, continuation lines prefixed with a comma) and shows the
    blocks named [disk_info], [memory] and [cpu_usage] as triples of
    St.Label widgets (label, value, unit) in a box in the top panel.

    ** Parts of the program and where they are modelled

    - [Prelude] (this file): JavaScript strings as lists of UTF-16 code
      units ([jsstr], a [list N]), the character classes of the regular
      expressions ([\w], [\d], [\s], the line terminators excluded by
      [.]), [takew]/[dropw] (longest prefix of a class and the rest), and
      the state-and-exception monad [JsM] in which the methods of the
      class are written: a method is a function from the state to an
      [outcome] (a value or a thrown [js_error]) and the state reached,
      so the effects that happen before a [throw] are kept, as in JS.
      [preserves R m] says that [m] relates its start and end states by
      [R] whatever happens, exceptions included; it composes along the
      monad and the loops ([solve_preserves]).
    - [JsValue]: the values [JSON.parse] produces ([jvalue]), JS
      truthiness, property access [item.full_text] / [item.name] (a
      [TypeError] on [null]), [Array.prototype.includes] on the filter
      list, and the abstract operation ToString used when a non-string
      is passed to [RegExp.prototype.exec].  The conversion of a JSON
      numeral to a double and back to a string (Number::toString) is
      left as the class [JsNumbers]; every general theorem holds for all
      of its instances, and the concrete runs use [integer_numbers].
    - [Regex]: the backtracking semantics of ECMAScript regular
      expressions restricted to what the two literals of
      [_split_status_text] use (classes, greedy [*] and [+] over a
      class, sequence, capture groups) and the non-global [exec]
      (leftmost start position); the two literals [label_regex] (line
      50) and [unit_regex] (line 59); closed forms of their [exec]
      proved equal to the backtracking semantics.
    - [Split]: [_split_status_text] (lines 39-66).
    - [Json]: [JSON.parse] as a parser over code units (ECMA-404
      grammar, with fuel), with the lemma that the fuel it is given is
      never exhausted.
    - [JsonWrite]: the other end of the pipe, which is not under
      [src/] and is modelled from the spec: i3status's JSON generator
      [json_write] (no white space, strings escaped as [JSON.stringify]
      escapes them, integer numerals).
    - [Parse]: [_parse_i3status_i3bar] (lines 68-100): length guard,
      comma strip, [JSON.parse], the filter loop, the try/catch that
      keeps the fields pushed before an exception.
    - [Protocol]: a status line of the i3bar protocol as the child
      writes it ([i3bar_line]: an optional comma, then the array of the
      blocks), composed with [_parse_i3status_i3bar].
    - [Pipeline]: the path of one line from the child to the panel
      ([read_callback] with the extension's consumer, the parser and
      [_update_status]), and a whole run of i3status (header, opening
      bracket, status lines) delivered as shell events to [sys_step].
    - [Liveness]: the read chain over the shell's events: which events
      keep a read outstanding on the current stream ([loop_live]), the
      environment's delivery of a line on that read ([deliver]) and of
      a sequence of lines ([feed]).
    - [Resources]: the count of live St.Label widgets ([live_labels])
      and the contract of [disable] on an enabled extension.
    - [Refinement]: the spec's supervisor machine (section 4 of the
      spec: Stopped, Running with a child; start, stop, line, restart
      on a zero-length read, discard after a stop) as the labelled
      relation [spec_step], and the abstraction [phase_of] of the
      fields [_running] and [_i3status].
    - [Host]: the part of GNOME Shell, GLib and GIO the extension
      touches, as a state: the actor heap (St.Label, St.BoxLayout,
      PanelMenu.Button with [set_text], [add_actor], [destroy]), the
      panel's status area ([addToStatusArea] throws when the role is
      taken), spawned processes, [spawn_close_pid] calls, closed
      descriptors, the list of outstanding [read_line_async] requests
      and the log.  The [Extension] object's fields are the record
      [ext]; object identities come from one counter [next_id].
    - [Display]: [_update_status], [_create_status_items],
      [_remove_status_items] (lines 102-118, 189-217), the invariant
      [slots_wf] of the slots and the abstract view of the panel
      ([view]: the texts of the slots, in order).
    - [Supervisor]: [_read_i3status_async] and its callback
      [read_callback], [_start_i3status], [_stop_i3status] (lines
      120-187).  The callback reaches lines 138-139 through the class
      [LineConsumer]; the supervisor's theorems that run a line assume
      only [LineConsumerOk], the consumer's promise to leave the
      supervisor's fields and the outstanding reads alone.
    - [Extension]: the constructor's state, [enable], [disable] (lines
      30-37, 219-249), the consumer [i3bar_consumer] (parse, log the
      caught error, update) with its proof of [LineConsumerOk], and the
      shell's events (enable, disable, completion of one outstanding
      read with what the environment delivers) as an executable step
      function [sys_step] with [reachable] states from [sys_init].

    ** What the theorems show

    Display: from a consistent display, [_update_status] returns, keeps
    the invariant (distinct live labels in the box, exactly the slots'),
    changes only the tail of the slot list (old slots below the new
    length keep their widgets, new ones are fresh), shows each field in
    its slot ([view] equals the fields' triples) and destroys the
    dropped slots; updating twice with the same fields changes nothing
    the second time; a non-string value throws after the label is
    written.  Regex and Split: [exec] on the two literals equals a
    closed form; the splitter on the i3status format [label: 12.5 unit]
    gives its three parts, and whatever text without a colon precedes
    the label is skipped, since neither regex is anchored
    ([split_status_text_unanchored]).  Json: [JSON.parse] never runs
    out of the fuel it is given, and it reads back every value
    the generator writes ([json_roundtrip], by induction on the value
    with the fuel bounded by the length of the text).  Protocol and
    Pipeline: every line the child writes, first or continuation, gives
    the selected blocks' fields in order and no error, and a read that
    completes with it while running leaves the panel showing exactly
    those fields, logs nothing and issues one next read
    ([i3bar_line_displayed]); over a whole run of i3status, each line
    delivered as the completion of the one outstanding read, the loop
    keeps exactly one read outstanding on the same child's stream,
    logs nothing, and the panel ends showing the last status line
    ([i3status_session_displayed]).  A line that is not JSON is logged
    and then blanks the panel: the empty array the parser returns is
    truthy, so [_update_status] removes every slot
    ([corrupt_line_clears_display]).  Liveness: in every reachable
    state a running extension has a read outstanding on its current
    stream unless an exception escaped a handler
    ([reachable_read_outstanding]); from a live state every infinite
    sequence of lines i3status writes is delivered and shown, line
    after line, for any number of lines ([lines_displayed_forever],
    stated for every prefix, since a run of the shell is unbounded).
    A read that [disable] left outstanding is delivered after the next
    [enable]: its callback shows the old child's line in the new
    session and issues a second read on the new stream
    ([stale_read_after_reenable]).
    Refinement: every run of events whose spawns succeed and whose
    handlers return is mirrored event by event by a run of the spec's
    machine ([phase_run_refines]).
    Resources: every reachable state holds exactly three live labels
    per slot and none while disabled ([reachable_live_labels]);
    [disable] stops the child before it destroys any widget, destroys
    them all, frees the status-area role and leaves the outstanding
    reads alone ([disable_spec]).  The
    splitter's value is a string unless no regex matched, when it is
    the argument itself ([split_status_text_value_type]).  Parse:
    undecodable lines and non-array values give no field; a leading comma is ignored; on an
    array, the fields are the selected blocks in their order; a [null]
    block keeps only the fields before it.  Supervisor: a completion
    after a stop only logs; a line goes to the consumer and is followed
    by exactly one read on the current stream, unless the consumer
    throws, which ends the read loop; at the end of the stream the child
    is spawned again and two reads are left outstanding on the new
    stream; an empty line counts as the end of the stream; a failing
    spawn throws before logging; [_stop_i3status] does not cancel the
    outstanding read.  Extension: every reachable state satisfies the
    display invariant and the supervisor's (running implies a handle
    and a box; no handle implies no slots; disabled implies no slots
    and no flag), proved by induction on [reachable] from preservation
    by each event, exceptions included; while disabled a completed read
    changes no actor.  When the spawn throws, [enable] throws past its
    boundary with the button already registered in the status area
    and the supervisor stopped ([enable_spawn_error]).

    ** Bounds, fuel, what is left out

    [JSON.parse] is given fuel [2 * length + 1], shown sufficient; the
    round trip needs only fuel above the length of the text, since
    every nesting level and every element consumes at least one code
    unit.  No other definition needs fuel: the loops of the code run
    over lists or counts, and the event loop is a relation over finite
    runs.  The child's numbers are integer numerals ([json_ok]), which
    is what i3status writes in a block.  Not modelled: UTF-8 decoding
    in GIO (a line arrives as code units), styling and rendering of
    widgets, the text of log messages (log entries are tags), the child
    process beyond the lines it writes (when it writes them, what it
    measures), the order in which GIO completes requests (the
    environment chooses what each read delivers, which outstanding
    read completes, and what a spawn returns), GIO's refusal of a
    second concurrent read on one stream, and the module's [init]
    (line 252, it only constructs the object).

    Two choices of the environment are wider than the real host, which
    only adds runs, so the invariants over [reachable] remain sound:
    a spawn may return [succ = false], although GJS throws instead of
    returning false, and [sys_step] keeps delivering [enable] and
    [disable] after one of them threw, although GNOME Shell then marks
    the extension as errored and stops calling it.  No theorem below
    rests on either run. *)

From stdpp Require Export base list.
From Stdlib Require String Ascii.
Export String.StringSyntax.
From Stdlib Require Export NArith.
#[global] Open Scope list_scope.

(** ** JavaScript strings *)

(** A JS string is a sequence of UTF-16 code units; [length], indexing
    and the regex engine (without the [u] flag) all work on code units. *)
Abbreviation jsstr := (list N).

(** String literals of the source, all ASCII. *)
Definition str (s : String.string) : jsstr :=
  map Ascii.N_of_ascii (String.list_ascii_of_string s).
Arguments str s%_string_scope : simpl never.

#[local] Open Scope N_scope.

(** [\w]: [A-Za-z0-9_] (no [i] or [u] flag). *)
Definition is_word (c : N) : bool :=
  ((65 <=? c) && (c <=? 90)) || ((97 <=? c) && (c <=? 122))
  || ((48 <=? c) && (c <=? 57)) || (c =? 95).

(** [\d]: [0-9]. *)
Definition is_digit (c : N) : bool := (48 <=? c) && (c <=? 57).

(** Line terminators: LF, CR, LINE SEPARATOR, PARAGRAPH SEPARATOR. *)
Definition is_lt (c : N) : bool :=
  (c =? 10) || (c =? 13) || (c =? 8232) || (c =? 8233).

(** [\s]: WhiteSpace and LineTerminator of ECMA-262 (the Zs category
    and TAB, VT, FF, ZWNBSP). *)
Definition is_space (c : N) : bool :=
  (c =? 9) || (c =? 11) || (c =? 12) || (c =? 32) || (c =? 160)
  || (c =? 5760) || ((8192 <=? c) && (c <=? 8202)) || (c =? 8239)
  || (c =? 8287) || (c =? 12288) || (c =? 65279) || is_lt c.

Ltac class_spec := unfold is_word, is_digit, is_lt, is_space;
  repeat rewrite ?orb_true_iff, ?andb_true_iff, ?N.eqb_eq, ?N.leb_le; tauto.

Lemma is_word_spec c :
  is_word c = true <-> (65 <= c <= 90) \/ (97 <= c <= 122) \/ (48 <= c <= 57) \/ c = 95.
Proof. class_spec. Qed.

Lemma is_digit_spec c : is_digit c = true <-> 48 <= c <= 57.
Proof. class_spec. Qed.

Lemma is_lt_spec c : is_lt c = true <-> c = 10 \/ c = 13 \/ c = 8232 \/ c = 8233.
Proof. class_spec. Qed.

Lemma is_space_spec c :
  is_space c = true <->
  c = 9 \/ c = 11 \/ c = 12 \/ c = 32 \/ c = 160 \/ c = 5760 \/ (8192 <= c <= 8202)
  \/ c = 8239 \/ c = 8287 \/ c = 12288 \/ c = 65279 \/ is_lt c = true.
Proof.
  unfold is_space. generalize (is_lt c). intros b.
  repeat rewrite ?orb_true_iff, ?andb_true_iff, ?N.eqb_eq, ?N.leb_le; tauto.
Qed.

#[local] Close Scope N_scope.

(** ** Longest prefix in a class *)

Fixpoint takew (p : N -> bool) (s : jsstr) : jsstr :=
  match s with
  | [] => []
  | c :: s' => if p c then c :: takew p s' else []
  end.

Fixpoint dropw (p : N -> bool) (s : jsstr) : jsstr :=
  match s with
  | [] => []
  | c :: s' => if p c then dropw p s' else s
  end.

(** ** The state-and-exception monad of JS methods *)

(** What a JS call can throw and the extension can observe. *)
Inductive js_error :=
| TypeError          (** property access on null/undefined, bad argument *)
| SyntaxError        (** [JSON.parse] on text that is not JSON *)
| GLibError          (** a [GLib.Error] raised by a GIO or GLib call *)
| ShellError.        (** an [Error] thrown by GNOME Shell itself *)

Inductive outcome (A : Type) :=
| Ok (a : A)
| Throw (e : js_error).
Arguments Ok {A} a.
Arguments Throw {A} e.

Definition JsM (State A : Type) : Type := State -> outcome A * State.

Section Monad.
Context {State : Type}.

Definition ret {A} (a : A) : JsM State A := fun s => (Ok a, s).
Definition bind {A B} (m : JsM State A) (k : A -> JsM State B) : JsM State B :=
  fun s => match m s with
           | (Ok a, s') => k a s'
           | (Throw e, s') => (Throw e, s')
           end.
Definition throw {A} (e : js_error) : JsM State A := fun s => (Throw e, s).
(** A pure computation that may throw. *)
Definition lift {A} (o : outcome A) : JsM State A := fun s => (o, s).
Definition get : JsM State State := fun s => (Ok s, s).
Definition modify (f : State -> State) : JsM State unit := fun s => (Ok tt, f s).
(** [try { m } catch (e) { h e }] *)
Definition try_catch {A} (m : JsM State A) (h : js_error -> JsM State A) : JsM State A :=
  fun s => match m s with
           | (Ok a, s') => (Ok a, s')
           | (Throw e, s') => h e s'
           end.
(** [for (let i = 0; i < n; i++) body] *)
Fixpoint repeat_m (n : nat) (body : JsM State unit) : JsM State unit :=
  match n with
  | O => ret tt
  | S n' => bind body (fun _ => repeat_m n' body)
  end.
(** [for (const x of l) body(x)] *)
Fixpoint for_each {A} (l : list A) (body : A -> JsM State unit) : JsM State unit :=
  match l with
  | [] => ret tt
  | x :: l' => bind (body x) (fun _ => for_each l' body)
  end.
End Monad.

Declare Scope js_scope.
Delimit Scope js_scope with js.
Notation "x <- m ;; k" := (bind m (fun x => k))
  (at level 100, m at next level, right associativity) : js_scope.
Notation "m ;;; k" := (bind m (fun _ => k))
  (at level 100, right associativity) : js_scope.

(** ** Shared lemmas *)

Create HintDb js.
Create Rewrite HintDb js_rw.

Section Takew.
Context (p : N -> bool).

Lemma takew_dropw (s : jsstr) : takew p s ++ dropw p s = s.
Proof. induction s as [|c s IH]; simpl; [done|]. destruct (p c); simpl; congruence. Qed.

Lemma takew_all (s : jsstr) : Forall (fun c => p c = true) (takew p s).
Proof. induction s as [|c s IH]; simpl; [done|]. destruct (p c) eqn:E; auto. Qed.

(** The rest does not start with a character of the class. *)
Lemma dropw_head (s : jsstr) c r : dropw p s = c :: r -> p c = false.
Proof.
  induction s as [|d s IH]; simpl; [done|].
  destruct (p d) eqn:E; [apply IH | intros [= -> ->]; exact E].
Qed.

Lemma takew_app_stop (w r : jsstr) :
  Forall (fun c => p c = true) w ->
  (match r with [] => True | c :: _ => p c = false end) ->
  takew p (w ++ r) = w /\ dropw p (w ++ r) = r.
Proof.
  intros Hw Hr. induction Hw as [|c w Hc Hw IH]; simpl.
  - destruct r as [|c r]; simpl; [done|]. by rewrite Hr.
  - rewrite Hc. destruct IH as [-> ->]. done.
Qed.

Lemma takew_all_true (s : jsstr) : Forall (fun c => p c = true) s -> takew p s = s.
Proof. intros Hs. rewrite <- (app_nil_r s) at 1. by destruct (takew_app_stop s [] Hs I). Qed.

Lemma dropw_none (s : jsstr) :
  (match s with [] => True | c :: _ => p c = false end) -> dropw p s = s.
Proof. destruct s as [|c s]; simpl; [done|]. by intros ->. Qed.

Lemma dropw_all_app (w r : jsstr) :
  Forall (fun c => p c = true) w -> dropw p (w ++ r) = dropw p r.
Proof. induction 1 as [|c w Hc _ IH]; simpl; [done|]. by rewrite Hc. Qed.

Lemma length_dropw (s : jsstr) : length (dropw p s) <= length s.
Proof. induction s as [|c s IH]; simpl; [done|]. destruct (p c); simpl; lia. Qed.

Lemma dropw_cons_lt c (s : jsstr) :
  p c = true -> length (dropw p (c :: s)) < length (c :: s).
Proof. intros Hc. simpl. rewrite Hc. pose proof (length_dropw s). simpl. lia. Qed.

Lemma take_length_takew (s : jsstr) : take (length (takew p s)) s = takew p s.
Proof. rewrite <- (takew_dropw s) at 2. by rewrite take_app_length. Qed.

Lemma drop_length_takew (s : jsstr) : drop (length (takew p s)) s = dropw p s.
Proof. rewrite <- (takew_dropw s) at 2. by rewrite drop_app_length. Qed.

(** Positions in a string: after the prefix of the class at [i]. *)
Lemma drop_takew (input s : jsstr) i :
  drop i input = s -> drop (i + length (takew p s)) input = dropw p s.
Proof. intros Hd. by rewrite <- drop_drop, Hd, drop_length_takew. Qed.

Lemma takew_nil_iff (s : jsstr) :
  takew p s = [] <-> match s with [] => True | c :: _ => p c = false end.
Proof. destruct s as [|c s]; simpl; [done|]. destruct (p c); split; done. Qed.
End Takew.

#[export] Hint Resolve takew_all length_dropw : js.
#[export] Hint Rewrite take_length_takew drop_length_takew : js_rw.

Lemma drop_cons_S {A} (l l' : list A) x i : drop i l = x :: l' -> drop (S i) l = l'.
Proof. intros H. by rewrite <- Nat.add_1_r, <- drop_drop, H. Qed.
#[export] Hint Rewrite takew_dropw : js_rw.

(** Removing an entry of a list that another list extends: the
    outstanding reads, when a new read joins them. *)
Lemma delete_app_lt {A} (l l' : list A) k : k < length l -> delete k (l ++ l') = delete k l ++ l'.
Proof. revert k. induction l as [|x l IH]; intros [|k] Hk; simpl in *; [lia|lia|done|]. f_equal. apply IH. lia. Qed.

Section MonadLaws.
Context {State : Type}.

Lemma bind_ret_l {A B} (a : A) (k : A -> JsM State B) s : bind (ret a) k s = k a s.
Proof. done. Qed.

Lemma bind_assoc {A B C} (m : JsM State A) (k : A -> JsM State B) (h : B -> JsM State C) s :
  bind (bind m k) h s = bind m (fun a => bind (k a) h) s.
Proof. unfold bind. destruct (m s) as [[a|e] s']; done. Qed.

Lemma bind_ok {A B} (m : JsM State A) (k : A -> JsM State B) s a s' :
  m s = (Ok a, s') -> bind m k s = k a s'.
Proof. unfold bind. by intros ->. Qed.

Lemma bind_throw {A B} (m : JsM State A) (k : A -> JsM State B) s e s' :
  m s = (Throw e, s') -> bind m k s = (Throw e, s').
Proof. unfold bind. by intros ->. Qed.

Lemma bind_ok_inv {A B} (m : JsM State A) (k : A -> JsM State B) s b s' :
  bind m k s = (Ok b, s') -> exists a s1, m s = (Ok a, s1) /\ k a s1 = (Ok b, s').
Proof. unfold bind. destruct (m s) as [[a|e] s1]; [eauto | done]. Qed.

Lemma for_each_app {A} (l1 l2 : list A) (body : A -> JsM State unit) s :
  for_each (l1 ++ l2) body s = bind (for_each l1 body) (fun _ => for_each l2 body) s.
Proof.
  revert s. induction l1 as [|x l1 IH]; intros s; simpl; [done|].
  rewrite bind_assoc. unfold bind at 1 2. destruct (body x s) as [[[]|e] s']; [|done].
  apply IH.
Qed.

(** A loop whose body keeps a predicate of the state keeps it, even
    when it stops at an exception. *)
Lemma repeat_m_preserve (P : State -> Prop) (n : nat) (body : JsM State unit) :
  (forall s, P s -> P (snd (body s))) ->
  forall s, P s -> P (snd (repeat_m n body s)).
Proof.
  intros Hb. induction n as [|n IH]; intros s Hs; simpl; [done|].
  unfold bind. specialize (Hb s Hs). destruct (body s) as [[[]|e] s'] eqn:E; simpl in *; auto.
Qed.
End MonadLaws.

#[export] Hint Rewrite @bind_ret_l @bind_assoc : js_rw.

(** ** Relations a computation keeps

    [preserves R m]: whatever [m] does, exceptions included, the state
    it leaves is related by [R] to the state it started from.  With [R]
    a preorder the property composes along [bind], loops and handlers;
    the components use it for the fields a callee promises to leave
    alone. *)
Section Preserves.
Context {State : Type} (R : State -> State -> Prop) `{!PreOrder R}.

Definition preserves {A} (m : JsM State A) : Prop := forall s, R s (snd (m s)).

Lemma preserves_ret {A} (a : A) : preserves (ret a).
Proof. intros s. simpl. reflexivity. Qed.

Lemma preserves_throw {A} e : preserves (throw (A:=A) e).
Proof. intros s. simpl. reflexivity. Qed.

Lemma preserves_lift {A} (o : outcome A) : preserves (lift o).
Proof. intros s. simpl. reflexivity. Qed.

Lemma preserves_get : preserves get.
Proof. intros s. simpl. reflexivity. Qed.

Lemma preserves_modify f : (forall s, R s (f s)) -> preserves (modify f).
Proof. intros Hf s. apply Hf. Qed.

Lemma preserves_bind {A B} (m : JsM State A) (k : A -> JsM State B) :
  preserves m -> (forall a, preserves (k a)) -> preserves (bind m k).
Proof.
  intros Hm Hk s. unfold bind. specialize (Hm s).
  destruct (m s) as [[a|e] s'] eqn:E; simpl in *; [|done].
  etrans; [exact Hm|]. apply Hk.
Qed.

Lemma preserves_try_catch {A} (m : JsM State A) h :
  preserves m -> (forall e, preserves (h e)) -> preserves (try_catch m h).
Proof.
  intros Hm Hh s. unfold try_catch. specialize (Hm s).
  destruct (m s) as [[a|e] s'] eqn:E; simpl in *; [done|].
  etrans; [exact Hm|]. apply Hh.
Qed.

Lemma preserves_repeat_m n body : preserves body -> preserves (repeat_m n body).
Proof.
  intros Hb. induction n as [|n IH]; simpl; [apply preserves_ret|].
  apply preserves_bind; [done|]. intros _. exact IH.
Qed.

Lemma preserves_for_each {A} (l : list A) body :
  (forall x, preserves (body x)) -> preserves (for_each l body).
Proof.
  intros Hb. induction l as [|x l IH]; simpl; [apply preserves_ret|].
  apply preserves_bind; [done|]. intros _. exact IH.
Qed.
End Preserves.

Create HintDb preserves.
#[export] Hint Resolve preserves_ret preserves_throw preserves_lift preserves_get : preserves.
#[export] Hint Extern 0 (PreOrder _) => typeclasses eauto : preserves.

(** Split a computation into the primitives it is made of; what is
    left are the primitives that change the state, for the hints of the
    relation at hand. *)
Ltac solve_preserves :=
  repeat (intros; first
    [ match goal with |- PreOrder _ => typeclasses eauto end
    | solve [eauto with preserves]
    | apply preserves_bind | apply preserves_try_catch
    | apply preserves_repeat_m | apply preserves_for_each
    | progress case_match ]).

(** Unfold one monadic step whose first action is known to succeed or throw. *)
Ltac js_step H := first [ rewrite (bind_ok _ _ _ _ _ H) | rewrite (bind_throw _ _ _ _ _ H) ].
