(* ===== verification/JsValue.v ===== *)
(** * JavaScript values produced by [JSON.parse]

    The value model of the status line: what [JSON.parse] returns
    ([jvalue]), and the few operations of the JS semantics that
    [_parse_i3status_i3bar] and [_split_status_text] apply to it:
    property read ([item.full_text], [item.name]), truthiness
    ([item.full_text && ...]), [Array.prototype.includes] on the
    filter list, and ToString (applied by [RegExp.prototype.exec] to
    a non-string argument). *)

From S2P Require Import Prelude.

(** A JSON number is kept as its numeral: [JSON.parse] turns it into
    the nearest double, and the extension only ever converts it to a
    boolean or back to a string. *)
Inductive jvalue :=
| JNull
| JBool (b : bool)
| JNum (numeral : jsstr)
| JStr (s : jsstr)
| JArr (vs : list jvalue)
| JObj (props : list (jsstr * jvalue)).

(** Induction with hypotheses on the elements of arrays and objects. *)
Section JvalueInd.
Context (P : jvalue -> Prop)
  (Pnull : P JNull) (Pbool : forall b, P (JBool b))
  (Pnum : forall l, P (JNum l)) (Pstr : forall s, P (JStr s))
  (Parr : forall vs, Forall P vs -> P (JArr vs))
  (Pobj : forall ps, Forall (fun kv => P (snd kv)) ps -> P (JObj ps)).

Fixpoint jvalue_ind' (v : jvalue) : P v :=
  match v with
  | JNull => Pnull
  | JBool b => Pbool b
  | JNum l => Pnum l
  | JStr s => Pstr s
  | JArr vs => Parr vs
      ((fix go (vs : list jvalue) : Forall P vs :=
          match vs with
          | [] => Forall_nil_2 _
          | v :: vs' => Forall_cons_2 _ _ _ (jvalue_ind' v) (go vs')
          end) vs)
  | JObj ps => Pobj ps
      ((fix go (ps : list (jsstr * jvalue)) : Forall (fun kv => P (snd kv)) ps :=
          match ps with
          | [] => Forall_nil_2 _
          | kv :: ps' => Forall_cons_2 _ _ _ (jvalue_ind' (snd kv)) (go ps')
          end) ps)
  end.
End JvalueInd.

(** The engine's Number semantics on a JSON numeral: Number::toString
    of the double the numeral denotes, and ToBoolean of that double
    (false for zero, also when the numeral underflows to zero). *)
Class JsNumbers := {
  number_to_string : jsstr -> jsstr;
  number_truthy : jsstr -> bool
}.

(** ** Property read *)

(** [JSON.parse] defines the properties of an object in source order;
    a repeated key overwrites the earlier one, so a read sees the last. *)
Fixpoint assoc_last (k : jsstr) (ps : list (jsstr * jvalue)) : option jvalue :=
  match ps with
  | [] => None
  | (k', v) :: ps' =>
      match assoc_last k ps' with
      | Some v' => Some v'
      | None => if bool_decide (k = k') then Some v else None
      end
  end.

(** [v.k] for a key that no prototype (Object, Array, String, Number,
    Boolean) defines, such as ["full_text"] and ["name"]: [null] throws
    a TypeError, an object gives its own property, any other value
    gives [undefined] ([None]). *)
Definition get_property (v : jvalue) (k : jsstr) : outcome (option jvalue) :=
  match v with
  | JNull => Throw TypeError
  | JObj ps => Ok (assoc_last k ps)
  | _ => Ok None
  end.

Section Conversions.
Context `{JsNumbers}.

(** ToBoolean of a value that may be [undefined]. *)
Definition truthy (v : option jvalue) : bool :=
  match v with
  | None | Some JNull => false
  | Some (JBool b) => b
  | Some (JNum l) => number_truthy l
  | Some (JStr s) => bool_decide (s <> [])
  | Some (JArr _) | Some (JObj _) => true
  end.

(** [["a", "b"]].includes(v)] compares with SameValueZero: only a
    string equal to an element is found. *)
Definition includes (names : list jsstr) (v : option jvalue) : bool :=
  match v with
  | Some (JStr s) => bool_decide (s ∈ names)
  | _ => false
  end.

Fixpoint join_sep (sep : jsstr) (ss : list jsstr) : jsstr :=
  match ss with
  | [] => []
  | [s] => s
  | s :: ss' => s ++ sep ++ join_sep sep ss'
  end.

(** ToString.  An object goes through OrdinaryToPrimitive: its
    [toString] is [Object.prototype.toString] unless the object has
    an own property of that name, which [JSON.parse] can only bind to
    a non-callable value; then [valueOf] returns the object itself and
    the conversion throws a TypeError.  An array is joined with
    commas, [null] elements giving the empty string. *)
Fixpoint to_js_string (v : jvalue) : outcome jsstr :=
  match v with
  | JNull => Ok (str "null")
  | JBool b => Ok (if b then str "true" else str "false")
  | JNum l => Ok (number_to_string l)
  | JStr s => Ok s
  | JArr vs =>
      let fix elems (vs : list jvalue) : outcome (list jsstr) :=
        match vs with
        | [] => Ok []
        | x :: vs' =>
            match (match x with JNull => Ok [] | _ => to_js_string x end) with
            | Ok s => match elems vs' with
                      | Ok ss => Ok (s :: ss)
                      | Throw e => Throw e
                      end
            | Throw e => Throw e
            end
        end in
      match elems vs with
      | Ok ss => Ok (join_sep (str ",") ss)
      | Throw e => Throw e
      end
  | JObj ps =>
      if existsb (fun kv => bool_decide (fst kv = str "toString")) ps
      then Throw TypeError else Ok (str "[object Object]")
  end.
End Conversions.

(** A number semantics for running examples: it agrees with the engine
    on integer numerals of at most fifteen digits (no fraction, no
    exponent), whose string form is the numeral itself except that
    [-0] prints as [0]. *)
Definition integer_numbers : JsNumbers := {|
  number_to_string := fun l => if bool_decide (l = str "-0") then str "0" else l;
  number_truthy := existsb (fun c => is_digit c && negb (c =? 48)%N)
|}.

(** ** Lemmas *)

Lemma to_js_string_str `{JsNumbers} s : to_js_string (JStr s) = Ok s.
Proof. done. Qed.

Lemma truthy_str `{JsNumbers} s : truthy (Some (JStr s)) = true <-> s <> [].
Proof. simpl. by rewrite bool_decide_eq_true. Qed.

Lemma includes_str `{JsNumbers} names s : includes names (Some (JStr s)) = true <-> s ∈ names.
Proof. simpl. by rewrite bool_decide_eq_true. Qed.

Lemma get_property_obj k ps : get_property (JObj ps) k = Ok (assoc_last k ps).
Proof. done. Qed.

#[export] Hint Rewrite @to_js_string_str get_property_obj : js_rw.
