(* ===== verification/Regex.v ===== *)
(** * The regular expressions of [_split_status_text]

    ECMAScript's backtracking matcher (ECMA-262, RegExp pattern
    semantics) for the constructs the two literals of the source use: a
    character class, a greedy [*] or [+] over a class, sequence and
    numbered capture groups; and [RegExp.prototype.exec] of a regex
    without the [g], [y] and [u] flags, which tries the start positions
    0, 1, ..., [length] in turn and returns the first match.  The
    literals [label_regex] and [unit_regex] are written in this syntax,
    and their [exec] is shown equal to a closed form that the splitter's
    theorems use. *)

From S2P Require Import Prelude.

(** Captures: group number and the (start, end) positions of its last
    match, most recent first. *)
Abbreviation caps := (list (nat * (nat * nat))).

Inductive regex :=
| RClass (p : N -> bool)           (** one code unit of the class *)
| RStar (p : N -> bool)            (** greedy [[p]*] *)
| RPlus (p : N -> bool)            (** greedy [[p]+] *)
| RSeq (r1 r2 : regex)             (** [r1 r2] *)
| RGroup (n : nat) (r : regex).    (** [(r)], the [n]-th group *)

(** A continuation: from the position reached, the rest of the input
    and the captures, the final result or a failure. *)
Abbreviation cont := (nat -> jsstr -> caps -> option (nat * caps)).

(** RepeatMatcher for a single-character atom, greedy: take one more
    character if possible and backtrack to the continuation here when
    the longer match fails. *)
Fixpoint star_m (p : N -> bool) (k : cont) (i : nat) (s : jsstr) (c : caps)
  : option (nat * caps) :=
  match s with
  | x :: s' =>
      if p x then
        match star_m p k (S i) s' c with
        | Some r => Some r
        | None => k i s c
        end
      else k i s c
  | [] => k i s c
  end.

Fixpoint m (r : regex) (k : cont) (i : nat) (s : jsstr) (c : caps)
  : option (nat * caps) :=
  match r with
  | RClass p =>
      match s with
      | x :: s' => if p x then k (S i) s' c else None
      | [] => None
      end
  | RStar p => star_m p k i s c
  | RPlus p =>
      match s with
      | x :: s' => if p x then star_m p k (S i) s' c else None
      | [] => None
      end
  | RSeq r1 r2 => m r1 (fun j s' c' => m r2 k j s' c') i s c
  | RGroup n r1 => m r1 (fun j s' c' => k j s' ((n, (i, j)) :: c')) i s c
  end.

(** The match result: start, end and captures. *)
Record match_result := { mr_start : nat; mr_end : nat; mr_caps : caps }.

(** RegExpBuiltinExec with [lastIndex] 0 and no [g]/[y] flag: the first
    start position where the matcher succeeds. *)
Fixpoint search (r : regex) (i : nat) (s : jsstr) : option match_result :=
  match m r (fun j _ c => Some (j, c)) i s [] with
  | Some (j, c) => Some {| mr_start := i; mr_end := j; mr_caps := c |}
  | None =>
      match s with
      | [] => None
      | _ :: s' => search r (S i) s'
      end
  end.

Definition re_exec (r : regex) (input : jsstr) : option match_result :=
  search r 0 input.

(** [match[n]] for [n >= 1]: the substring of the group's last match.
    A group that took no part would be [undefined]; no group of the two
    literals is inside an optional part, so they take part in every
    match, and the empty string stands for the case that cannot arise. *)
Fixpoint cap_lookup (n : nat) (c : caps) : option (nat * nat) :=
  match c with
  | [] => None
  | (n', be) :: c' => if Nat.eqb n n' then Some be else cap_lookup n c'
  end.

Definition group (input : jsstr) (res : match_result) (n : nat) : jsstr :=
  match cap_lookup n (mr_caps res) with
  | Some (b, e) => take (e - b) (drop b input)
  | None => []
  end.

(** ** The two literals of the source *)

Definition is_colon (c : N) : bool := (c =? 58)%N.
Definition not_lt (c : N) : bool := negb (is_lt c).
(** [[\d.]] *)
Definition is_num (c : N) : bool := is_digit c || (c =? 46)%N.

(** The literal of line 50: group 1 a greedy run of [[\w]], a colon,
    group 2 a greedy run of any code unit but a line terminator. *)
Definition label_regex : regex :=
  RSeq (RGroup 1 (RPlus is_word)) (RSeq (RClass is_colon) (RGroup 2 (RStar not_lt))).

(** The literal of line 59: group 1 a greedy run of [[\d.]], a greedy
    run of [\s], group 2 a greedy run of any code unit but a line
    terminator. *)
Definition unit_regex : regex :=
  RSeq (RGroup 1 (RPlus is_num)) (RSeq (RStar is_space) (RGroup 2 (RStar not_lt))).

(** ** Closed forms *)

(** The leftmost run of word characters followed by a colon: the run
    and the rest of the line after the colon. *)
Fixpoint label_scan (s : jsstr) : option (jsstr * jsstr) :=
  match s with
  | [] => None
  | c :: s' =>
      if is_word c then
        match dropw is_word s with
        | d :: r => if is_colon d then Some (takew is_word s, takew not_lt r) else label_scan s'
        | [] => label_scan s'
        end
      else label_scan s'
  end.

(** The leftmost run of digits and dots, and the rest of the line after
    the white space that follows it. *)
Fixpoint unit_scan (s : jsstr) : option (jsstr * jsstr) :=
  match s with
  | [] => None
  | c :: s' =>
      if is_num c then
        Some (takew is_num s, takew not_lt (dropw is_space (dropw is_num s)))
      else unit_scan s'
  end.

(** The two groups of a match, as [_split_status_text] reads them. *)
Definition groups12 (input : jsstr) (res : match_result) : jsstr * jsstr :=
  (group input res 1, group input res 2).

(** ** The matcher on the two literals *)

(** The greedy run is taken in full when the continuation succeeds
    there, or fails whenever one more character of the class follows. *)
Lemma star_m_greedy p (k : cont) i s c :
  (k (i + length (takew p s)) (dropw p s) c <> None \/
   (forall j x t, p x = true -> k j (x :: t) c = None)) ->
  star_m p k i s c = k (i + length (takew p s)) (dropw p s) c.
Proof.
  revert i. induction s as [|x s IH]; intros i H; simpl in *.
  - by rewrite Nat.add_0_r.
  - destruct (p x) eqn:Hx; simpl in *; [|by rewrite Nat.add_0_r].
    replace (i + S (length (takew p s))) with (S i + length (takew p s)) in * by lia.
    rewrite IH by done.
    destruct (k (S i + length (takew p s)) (dropw p s) c) eqn:E; [done|].
    destruct H as [H|H]; [done|]. by apply H.
Qed.

(** Before a continuation that cannot fail, a greedy run takes all it can. *)
Lemma star_m_total p (k : cont) i s c :
  (forall j t c', k j t c' <> None) ->
  star_m p k i s c = k (i + length (takew p s)) (dropw p s) c.
Proof. intros Hk. apply star_m_greedy. left. apply Hk. Qed.

(** One level of the matcher. *)
Lemma m_seq r1 r2 k i s c : m (RSeq r1 r2) k i s c = m r1 (fun j s' c' => m r2 k j s' c') i s c.
Proof. done. Qed.
Lemma m_group n r k i s c : m (RGroup n r) k i s c = m r (fun j s' c' => k j s' ((n, (i, j)) :: c')) i s c.
Proof. done. Qed.
Lemma m_plus_cons p k i x s c : m (RPlus p) k i (x :: s) c = if p x then star_m p k (S i) s c else None.
Proof. done. Qed.

Lemma word_not_colon x : is_word x = true -> is_colon x = false.
Proof. unfold is_colon. destruct (N.eqb_spec x 58); [by subst|done]. Qed.

(** The search from position [i] of the input, where the rest is [s]. *)
Lemma search_label input i s :
  drop i input = s ->
  option_map (groups12 input) (search label_regex i s) = label_scan s.
Proof.
  revert i. induction s as [|x s IH]; intros i Hd; [done|].
  cbn [search m label_regex label_scan].
  destruct (is_word x) eqn:Hx; cbn [dropw takew]; rewrite ?Hx.
  - rewrite star_m_greedy.
    2:{ right. intros j y t Hy. cbn. by rewrite word_not_colon. }
    destruct (dropw is_word s) as [|y t] eqn:Hdw; [simpl; apply IH; by eapply drop_cons_S|].
    cbn [m]. destruct (is_colon y) eqn:Hy.
    + rewrite star_m_total by done. cbn. unfold groups12, group. cbn. f_equal. f_equal.
      * rewrite Hd. replace (S (i + length (takew is_word s)) - i)
          with (S (length (takew is_word s))) by lia.
        simpl. by rewrite take_length_takew.
      * pose proof (drop_takew is_word _ _ _ (drop_cons_S _ _ _ _ Hd)) as H2.
        rewrite Hdw in H2. apply drop_cons_S in H2. simpl in H2. rewrite H2.
        rewrite Nat.add_sub_swap, Nat.sub_diag by lia. simpl. apply take_length_takew.
    + apply IH; by eapply drop_cons_S.
  - simpl. apply IH. by eapply drop_cons_S.
Qed.

(** What follows group 1 of [unit_regex] cannot fail. *)
Lemma unit_tail j t c :
  m (RSeq (RStar is_space) (RGroup 2 (RStar not_lt))) (fun j _ c => Some (j, c)) j t c =
  Some (j + length (takew is_space t) + length (takew not_lt (dropw is_space t)),
        (2, (j + length (takew is_space t),
             j + length (takew is_space t) + length (takew not_lt (dropw is_space t)))) :: c).
Proof.
  cbn [m]. rewrite star_m_total; [rewrite star_m_total; [done|]|]; intros *.
  - done.
  - by rewrite star_m_total.
Qed.

Lemma search_unit input i s :
  drop i input = s ->
  option_map (groups12 input) (search unit_regex i s) = unit_scan s.
Proof.
  revert i. induction s as [|x s IH]; intros i Hd; [done|].
  cbn [search unit_regex unit_scan]. cbn [m].
  destruct (is_num x) eqn:Hx.
  - unfold unit_regex at 1. rewrite m_seq, m_group, m_plus_cons, Hx.
    rewrite star_m_total by (intros *; by rewrite unit_tail).
    rewrite unit_tail. cbn. unfold groups12, group. cbn. rewrite Hx. f_equal. f_equal.
    + rewrite Hd. replace (S (i + length (takew is_num s)) - i)
        with (S (length (takew is_num s))) by lia.
      simpl. by rewrite take_length_takew.
    + pose proof (drop_takew is_num _ _ _ (drop_cons_S _ _ _ _ Hd)) as H1.
      pose proof (drop_takew is_space _ _ _ H1) as H2. simpl in H2. rewrite H2.
      rewrite Nat.add_sub_swap, Nat.sub_diag by lia. simpl. apply take_length_takew.
  - unfold unit_regex at 1. rewrite m_seq, m_group, m_plus_cons, Hx.
    apply IH. by eapply drop_cons_S.
Qed.

(** C7: [label_regex.exec(text)] finds the leftmost run of word
    characters followed by a colon; group 1 is the run and group 2 the
    rest of the line after the colon. *)
Theorem exec_label_regex (s : jsstr) :
  option_map (groups12 s) (re_exec label_regex s) = label_scan s.
Proof. by apply search_label. Qed.

(** C16: [unit_regex.exec(value)] finds the leftmost run of digits and
    dots; group 1 is the run and group 2 the rest of the line after the
    white space that follows it. *)
Theorem exec_unit_regex (s : jsstr) :
  option_map (groups12 s) (re_exec unit_regex s) = unit_scan s.
Proof. by apply search_unit. Qed.

(** ** Facts on the character classes *)

Lemma is_num_spec c : is_num c = true <-> c = 46%N \/ (48 <= c <= 57)%N.
Proof. unfold is_num. rewrite orb_true_iff, is_digit_spec, N.eqb_eq. tauto. Qed.

(** Turn class tests into arithmetic on the code unit. *)
Ltac classes :=
  repeat match goal with
  | H : is_num _ = true |- _ => apply is_num_spec in H
  | H : is_word _ = true |- _ => apply is_word_spec in H
  | H : is_lt _ = true |- _ => apply is_lt_spec in H
  | H : is_space _ = true |- _ => apply is_space_spec in H
  | H : context [is_lt ?c = true] |- _ => rewrite (is_lt_spec c) in H
  | |- _ = false => apply not_true_iff_false; intros ?
  end; lia.

Lemma num_not_lt c : is_num c = true -> is_lt c = false.
Proof. intros. classes. Qed.
Lemma space_not_num c : is_space c = true -> is_num c = false.
Proof. intros. classes. Qed.

(** ** Facts on the closed forms *)

Lemma label_scan_word_colon (w r : jsstr) :
  w <> [] -> Forall (fun c => is_word c = true) w ->
  label_scan (w ++ 58%N :: r) = Some (w, takew not_lt r).
Proof.
  intros Hne Hw. destruct (takew_app_stop is_word w (58%N :: r) Hw eq_refl) as [Ht Hd].
  destruct w as [|c w']; [done|]. inversion Hw as [|? ? Hc _]; subst.
  simpl in Hd, Ht |- *. rewrite Hc in Hd, Ht |- *. rewrite Hd. simpl. by rewrite Ht.
Qed.

(** A word run that stops at a character other than a colon is not a
    label: the scan goes on behind it. *)
Lemma dropw_app_stop (q : N -> bool) (p t : jsstr) c :
  c ∈ p -> q c = false -> exists d r, dropw q (p ++ t) = d :: r /\ d ∈ p.
Proof.
  induction p as [|x p IH]; [by intros ?%elem_of_nil|]. intros Hc Hq. simpl.
  destruct (q x) eqn:Hx; [|by exists x, (p ++ t); split; [|left]].
  apply elem_of_cons in Hc as [->|Hc]; [congruence|].
  destruct (IH Hc Hq) as (d & r & Hd & Hin). exists d, r. split; [done|by right].
Qed.

(** A prefix without a colon that ends in a character other than a word
    character holds no label: the scan starts again after it. *)
Lemma label_scan_skip (p t : jsstr) :
  Forall (fun c => is_colon c = false) p ->
  (match last p with Some c => is_word c = false | None => True end) ->
  label_scan (p ++ t) = label_scan t.
Proof.
  induction p as [|c p IH]; intros Hcol Hlast; [done|]. apply Forall_cons in Hcol as [Hc Hp].
  assert (IH' : label_scan (p ++ t) = label_scan t)
    by (apply IH; [done|]; destruct p; [done|exact Hlast]).
  change ((c :: p) ++ t) with (c :: (p ++ t)). cbn [label_scan].
  destruct (is_word c) eqn:Hw; [|done].
  destruct p as [|x p']; [simpl in Hlast; congruence|].
  simpl in Hlast. destruct (last (x :: p')) as [y|] eqn:Hy; [|by apply last_None in Hy].
  apply last_Some_elem_of in Hy.
  destruct (dropw_app_stop is_word (c :: x :: p') t y ltac:(by right) Hlast) as (d & r & Hd & Hin).
  change ((c :: x :: p') ++ t) with (c :: (x :: p') ++ t) in Hd. rewrite Hd.
  rewrite Forall_forall in Hp. apply elem_of_cons in Hin as [->|Hin]; [by rewrite Hc|].
  by rewrite (Hp d Hin).
Qed.

Lemma unit_scan_skip (sp t : jsstr) :
  Forall (fun c => is_num c = false) sp -> unit_scan (sp ++ t) = unit_scan t.
Proof. induction 1 as [|c sp Hc _ IH]; simpl; [done|]. by rewrite Hc. Qed.

Lemma unit_scan_num (d r : jsstr) :
  d <> [] -> Forall (fun c => is_num c = true) d ->
  (match r with [] => True | c :: _ => is_num c = false end) ->
  unit_scan (d ++ r) = Some (d, takew not_lt (dropw is_space r)).
Proof.
  intros Hne Hd Hr. destruct (takew_app_stop is_num d r Hd Hr) as [Ht Hdr].
  destruct d as [|c d']; [done|]. inversion Hd as [|? ? Hc _]; subst.
  change ((c :: d') ++ r) with (c :: (d' ++ r)) in *.
  cbn [unit_scan]. by rewrite Hc, Ht, Hdr.
Qed.
