(* ===== verification/Split.v ===== *)
(** * [_split_status_text] (src/extension.js, lines 39-66)

    The splitter of one block's [full_text] into a label, a value and
    a unit, with the two regular expressions of [Regex].  The argument
    is whatever [item.full_text] held: [exec] converts a non-string
    with ToString, and when neither regex matches, the value is the
    argument itself, not its string form. *)

From S2P Require Import Prelude JsValue Regex.

Section Split.
Context `{JsNumbers}.

Definition _split_status_text (text : jvalue) : outcome (jsstr * jvalue * jsstr) :=
  (* const label_match = label_regex.exec(text); *)
  match to_js_string text with
  | Throw e => Throw e
  | Ok t =>
      let '(label, value) :=
        match re_exec label_regex t with
        | Some lm => (group t lm 1, JStr (group t lm 2))
        | None => ([], text)
        end in
      (* const unit_match = unit_regex.exec(value); *)
      match to_js_string value with
      | Throw e => Throw e
      | Ok v =>
          match re_exec unit_regex v with
          | Some um => Ok (label, JStr (group v um 1), group v um 2)
          | None => Ok (label, value, [])
          end
      end
  end.

(** The splitter on a string, through the closed forms of the regexes. *)
Definition split_closed (t : jsstr) : jsstr * jvalue * jsstr :=
  let '(label, rest) :=
    match label_scan t with
    | Some (l, r) => (l, r)
    | None => ([], t)
    end in
  match unit_scan rest with
  | Some (v, u) => (label, JStr v, u)
  | None => (label, JStr rest, [])
  end.

Lemma exec_label_cases t :
  match re_exec label_regex t with
  | Some lm => label_scan t = Some (group t lm 1, group t lm 2)
  | None => label_scan t = None
  end.
Proof. rewrite <- (search_label t 0 t) by done. unfold re_exec. by destruct (search label_regex 0 t). Qed.

Lemma exec_unit_cases t :
  match re_exec unit_regex t with
  | Some um => unit_scan t = Some (group t um 1, group t um 2)
  | None => unit_scan t = None
  end.
Proof. rewrite <- (search_unit t 0 t) by done. unfold re_exec. by destruct (search unit_regex 0 t). Qed.

(** on a string the splitter never throws, and it computes the
    closed form: the label is the leftmost word run before a colon
    (or empty), the value the leftmost run of digits and dots after
    it and the unit the rest after white space (or the whole
    remainder as value and an empty unit). *)
Theorem split_status_text_string (t : jsstr) :
  _split_status_text (JStr t) = Ok (split_closed t).
Proof.
  unfold _split_status_text, split_closed. simpl.
  pose proof (exec_label_cases t) as HL.
  destruct (re_exec label_regex t) as [lm|]; rewrite HL; simpl;
    [pose proof (exec_unit_cases (group t lm 2)) as HU;
     destruct (re_exec unit_regex (group t lm 2))
    | pose proof (exec_unit_cases t) as HU; destruct (re_exec unit_regex t)];
    by rewrite HU.
Qed.

(** The part of the i3status format after the label: text without
    digits or dots, a number of digits and dots, white space and a
    unit split into number and unit. *)
Definition value_format (sp d ws u : jsstr) : Prop :=
  Forall (fun c => is_num c = false /\ is_lt c = false) sp /\
  d <> [] /\ Forall (fun c => is_num c = true) d /\
  Forall (fun c => is_space c = true /\ is_lt c = false) ws /\
  Forall (fun c => is_lt c = false) u /\
  (match u with [] => True | c :: _ => is_space c = false /\ is_num c = false end).

Lemma split_closed_value t w sp d ws u :
  value_format sp d ws u -> label_scan t = Some (w, takew not_lt (sp ++ d ++ ws ++ u)) ->
  split_closed t = (w, JStr d, u).
Proof.
  intros (Hsp & Hd & Hd' & Hws & Hu & Hu') Hl. unfold split_closed. rewrite Hl.
  assert (Hd_lt : Forall (fun c => is_lt c = false) d)
    by (eapply Forall_impl; [exact Hd'|]; exact num_not_lt).
  rewrite takew_all_true.
  2:{ rewrite !Forall_app. unfold not_lt. repeat split;
      (eapply Forall_impl; [eassumption|]); simpl; intros c Hc;
      by rewrite ?(proj2 Hc), ?Hc. }
  rewrite unit_scan_skip by (eapply Forall_impl; [exact Hsp|]; by intros c [? ?]).
  rewrite unit_scan_num; [| done | done |].
  - rewrite dropw_all_app by (eapply Forall_impl; [exact Hws|]; by intros c [? ?]).
    rewrite dropw_none by (destruct u as [|c u]; [done|]; apply Hu').
    rewrite takew_all_true; [done|].
    eapply Forall_impl; [exact Hu|]. unfold not_lt. by intros c ->.
  - destruct ws as [|c ws]; [destruct u as [|c u]; [done|apply Hu']|].
    inversion Hws as [|? ? [Hc _] _]; subst. by apply space_not_num.
Qed.

(** C2: the i3status format [label: 12.5 GiB].  A word label, a colon,
    text without digits or dots, a number of digits and dots, white
    space and a unit split into label, number and unit; the text
    between the colon and the number is dropped. *)
Theorem split_status_text_format (w sp d ws u : jsstr) :
  w <> [] -> Forall (fun c => is_word c = true) w ->
  Forall (fun c => is_num c = false /\ is_lt c = false) sp ->
  d <> [] -> Forall (fun c => is_num c = true) d ->
  Forall (fun c => is_space c = true /\ is_lt c = false) ws ->
  Forall (fun c => is_lt c = false) u ->
  (match u with [] => True | c :: _ => is_space c = false /\ is_num c = false end) ->
  _split_status_text (JStr (w ++ str ":" ++ sp ++ d ++ ws ++ u)) = Ok (w, JStr d, u).
Proof.
  intros Hw Hw' Hsp Hd Hd' Hws Hu Hu'.
  rewrite split_status_text_string. f_equal. apply (split_closed_value _ _ sp _ ws); [by split_and!|].
  change (str ":") with [58%N]. simpl (_ ++ _). by rewrite label_scan_word_colon.
Qed.

(** C25: neither regex is anchored.  Whatever precedes the label is
    skipped, as long as it has no colon and ends in a character that is
    not a word character: [CPU 1: 5%] has label [1], not [CPU].  With
    the text between the colon and the number, which is dropped as
    well, the splitter keeps only the word before the colon, the number
    and the unit; the spec's LineSplitter matches an identifier and a
    numeric prefix at the start of the text. *)
Theorem split_status_text_unanchored (p w sp d ws u : jsstr) :
  Forall (fun c => is_colon c = false) p ->
  (match last p with Some c => is_word c = false | None => True end) ->
  w <> [] -> Forall (fun c => is_word c = true) w -> value_format sp d ws u ->
  _split_status_text (JStr (p ++ w ++ str ":" ++ sp ++ d ++ ws ++ u)) = Ok (w, JStr d, u).
Proof.
  intros Hp Hlast Hw Hw' Hv.
  rewrite split_status_text_string. f_equal. apply (split_closed_value _ _ sp _ ws); [done|].
  rewrite label_scan_skip by done.
  change (str ":") with [58%N]. simpl (_ ++ _). by rewrite label_scan_word_colon.
Qed.

(** C21: the dynamic type of the result.  Whatever [full_text] holds,
    when the splitter returns, the value is a string, except when
    neither regex matches the text's string form: then the value is
    the argument itself, of whatever type it had, with an empty label
    and unit.  Only a non-string argument can give a non-string
    value. *)
Theorem split_status_text_value_type v l val u :
  _split_status_text v = Ok (l, val, u) ->
  (exists t, val = JStr t) \/ (val = v /\ l = [] /\ u = []).
Proof.
  unfold _split_status_text. destruct (to_js_string v) as [t|e] eqn:Ht; [|done].
  destruct (re_exec label_regex t) as [lm|]; simpl.
  - destruct (re_exec unit_regex (group t lm 2)); intros [= <- <- <-]; eauto.
  - rewrite Ht. destruct (re_exec unit_regex t); intros [= <- <- <-]; eauto.
Qed.
End Split.

#[local] Existing Instance integer_numbers.

(** The format theorem on [memory: 512 MiB]. *)
Lemma split_status_text_format_witness :
  _split_status_text (JStr (str "memory" ++ str ":" ++ str " " ++ str "512" ++ str " " ++ str "MiB"))
  = Ok (str "memory", JStr (str "512"), str "MiB").
Proof.
  apply split_status_text_format; try discriminate; repeat constructor.
Defined.

(** [CPU 1: 5%]: the label is the word before the colon, [1]. *)
Lemma split_status_text_unanchored_witness :
  _split_status_text (JStr (str "CPU " ++ str "1" ++ str ":" ++ str " " ++ str "5" ++ [] ++ str "%"))
  = Ok (str "1", JStr (str "5"), str "%").
Proof.
  apply split_status_text_unanchored;
    [repeat constructor | reflexivity | discriminate | repeat constructor
    | split_and!; try discriminate; repeat constructor].
Defined.

(** [true] has no number: the value is the boolean itself. *)
Lemma split_status_text_value_type_witness :
  _split_status_text (JBool true) = Ok ([], JBool true, []) /\
  ((exists t, JBool true = JStr t) \/ (JBool true = JBool true /\ @nil N = [] /\ @nil N = [])).
Proof. split; [reflexivity | by apply (split_status_text_value_type (JBool true) [] (JBool true) [])]. Defined.
