(* ===== verification/Json.v ===== *)
(** * [JSON.parse]

    The ECMAScript built-in [JSON.parse] (without reviver), which
    [_parse_i3status_i3bar] calls on each line, as a recursive-descent
    parser over code units following the ECMA-404 grammar: white space
    (space, tab, LF, CR), [null], [true], [false], numbers (kept as
    their numeral), strings with the escapes of quote, backslash, slash,
    b, f, n, r, t and u followed by four hex digits (raw code units
    below U+0020 are refused), arrays and
    objects.  Anything else, and text left after the value, is a
    [SyntaxError].  The mutual recursion on nested arrays and objects
    carries fuel; [json_parse_total] shows the fuel given by
    [JSON_parse] never runs out. *)

From S2P Require Import Prelude JsValue.

#[local] Open Scope N_scope.

Definition is_json_ws (c : N) : bool := (c =? 32) || (c =? 9) || (c =? 10) || (c =? 13).

Definition skip_ws (s : jsstr) : jsstr := dropw is_json_ws s.

Inductive presult (A : Type) :=
| POk (a : A) (rest : jsstr)
| PErr
| PFuel.
Arguments POk {A} a rest.
Arguments PErr {A}.
Arguments PFuel {A}.

(** The rest of [s] after the literal [p], if [s] starts with it. *)
Fixpoint strip_prefix (p s : jsstr) : option jsstr :=
  match p, s with
  | [], _ => Some s
  | x :: p', y :: s' => if x =? y then strip_prefix p' s' else None
  | _ :: _, [] => None
  end.

(** The code unit a backslash escape stands for, [u] aside. *)
Definition escape_char (e : N) : option N :=
  if e =? 34 then Some 34 else if e =? 92 then Some 92
  else if e =? 47 then Some 47 else if e =? 98 then Some 8
  else if e =? 102 then Some 12 else if e =? 110 then Some 10
  else if e =? 114 then Some 13 else if e =? 116 then Some 9 else None.

Definition hex_val (c : N) : option N :=
  if (48 <=? c) && (c <=? 57) then Some (c - 48)
  else if (65 <=? c) && (c <=? 70) then Some (c - 55)
  else if (97 <=? c) && (c <=? 102) then Some (c - 87) else None.

Definition hex4 (a b c d : N) : option N :=
  match hex_val a, hex_val b, hex_val c, hex_val d with
  | Some x, Some y, Some z, Some w => Some (((x * 16 + y) * 16 + z) * 16 + w)
  | _, _, _, _ => None
  end.

(** The characters of a string literal after its opening quote: the
    decoded code units and the rest after the closing quote. *)
Fixpoint p_chars (s : jsstr) (acc : jsstr) : option (jsstr * jsstr) :=
  match s with
  | [] => None
  | c :: r =>
      if c =? 34 then Some (rev acc, r)
      else if c =? 92 then
        match r with
        | [] => None
        | e :: r' =>
            match escape_char e with
            | Some u => p_chars r' (u :: acc)
            | None =>
                if e =? 117 then
                  match r' with
                  | h1 :: h2 :: h3 :: h4 :: r'' =>
                      match hex4 h1 h2 h3 h4 with
                      | Some u => p_chars r'' (u :: acc)
                      | None => None
                      end
                  | _ => None
                  end
                else None
            end
        end
      else if c <? 32 then None
      else p_chars r (c :: acc)
  end.

(** A run of digits, at least one. *)
Definition p_digits1 (s : jsstr) : option (jsstr * jsstr) :=
  match takew is_digit s with
  | [] => None
  | ds => Some (ds, dropw is_digit s)
  end.

(** A numeral [-? (0 | [1-9][0-9]* ) (. [0-9]+)? ([eE] [+-]? [0-9]+)?]. *)
Definition p_number (s : jsstr) : option (jsstr * jsstr) :=
  let '(sign, s1) :=
    match s with
    | c :: r => if c =? 45 then ([c], r) else ([], s)
    | [] => ([], s)
    end in
  let int :=
    match s1 with
    | c :: r =>
        if c =? 48 then Some ([c], r)
        else if is_digit c then Some (c :: takew is_digit r, dropw is_digit r)
        else None
    | [] => None
    end in
  match int with
  | None => None
  | Some (i, s2) =>
      let frac :=
        match s2 with
        | c :: r =>
            if c =? 46 then
              match p_digits1 r with
              | Some (ds, r') => Some (c :: ds, r')
              | None => None
              end
            else Some ([], s2)
        | [] => Some ([], s2)
        end in
      match frac with
      | None => None
      | Some (f, s3) =>
          let exp :=
            match s3 with
            | c :: r =>
                if (c =? 101) || (c =? 69) then
                  let '(sg, r1) :=
                    match r with
                    | d :: r' => if (d =? 43) || (d =? 45) then ([d], r') else ([], r)
                    | [] => ([], r)
                    end in
                  match p_digits1 r1 with
                  | Some (ds, r2) => Some (c :: sg ++ ds, r2)
                  | None => None
                  end
                else Some ([], s3)
            | [] => Some ([], s3)
            end in
          match exp with
          | None => None
          | Some (e, s4) => Some (sign ++ i ++ f ++ e, s4)
          end
      end
  end.

Fixpoint p_value (fuel : nat) (s : jsstr) : presult jvalue :=
  match fuel with
  | O => PFuel
  | S f =>
      match skip_ws s with
      | [] => PErr
      | c :: r =>
          if c =? 123 then
            match skip_ws r with
            | d :: r' => if d =? 125 then POk (JObj []) r' else p_members f (d :: r') []
            | [] => PErr
            end
          else if c =? 91 then
            match skip_ws r with
            | d :: r' => if d =? 93 then POk (JArr []) r' else p_elems f (d :: r') []
            | [] => PErr
            end
          else if c =? 34 then
            match p_chars r [] with
            | Some (t, r') => POk (JStr t) r'
            | None => PErr
            end
          else
            match strip_prefix (str "true") (c :: r) with
            | Some r' => POk (JBool true) r'
            | None =>
              match strip_prefix (str "false") (c :: r) with
              | Some r' => POk (JBool false) r'
              | None =>
                match strip_prefix (str "null") (c :: r) with
                | Some r' => POk JNull r'
                | None =>
                    match p_number (c :: r) with
                    | Some (lex, r') => POk (JNum lex) r'
                    | None => PErr
                    end
                end
              end
            end
      end
  end
(** Elements of a non-empty array, from a value to the closing bracket. *)
with p_elems (fuel : nat) (s : jsstr) (acc : list jvalue) : presult jvalue :=
  match fuel with
  | O => PFuel
  | S f =>
      match p_value f s with
      | POk v r =>
          match skip_ws r with
          | d :: r' =>
              if d =? 44 then p_elems f r' (v :: acc)
              else if d =? 93 then POk (JArr (rev (v :: acc))) r'
              else PErr
          | [] => PErr
          end
      | PErr => PErr
      | PFuel => PFuel
      end
  end
(** Members of a non-empty object, from a key to the closing brace. *)
with p_members (fuel : nat) (s : jsstr) (acc : list (jsstr * jvalue)) : presult jvalue :=
  match fuel with
  | O => PFuel
  | S f =>
      match skip_ws s with
      | d :: r =>
          if d =? 34 then
            match p_chars r [] with
            | Some (k, r1) =>
                match skip_ws r1 with
                | e :: r2 =>
                    if e =? 58 then
                      match p_value f r2 with
                      | POk v r3 =>
                          match skip_ws r3 with
                          | g :: r4 =>
                              if g =? 44 then p_members f r4 ((k, v) :: acc)
                              else if g =? 125 then POk (JObj (rev ((k, v) :: acc))) r4
                              else PErr
                          | [] => PErr
                          end
                      | PErr => PErr
                      | PFuel => PFuel
                      end
                    else PErr
                | [] => PErr
                end
            | None => PErr
            end
          else PErr
      | [] => PErr
      end
  end.

#[local] Close Scope N_scope.

(** [JSON.parse(text)]: one value, white space around it, nothing else. *)
Definition JSON_parse (s : jsstr) : outcome jvalue :=
  match p_value (S (2 * length s)) s with
  | POk v r => if bool_decide (skip_ws r = []) then Ok v else Throw SyntaxError
  | _ => Throw SyntaxError
  end.

(** ** Termination *)

(** A parse that did not run out of fuel and, when it succeeded,
    consumed at least one code unit. *)
Definition progress_ok {A} (res : presult A) (s : jsstr) : Prop :=
  match res with
  | POk _ r => length r < length s
  | PErr => True
  | PFuel => False
  end.

Lemma length_skip_ws s : length (skip_ws s) <= length s.
Proof. apply length_dropw. Qed.

Lemma progress_ok_weaken {A} (res : presult A) s s' :
  progress_ok res s' -> length s' <= length s -> progress_ok res s.
Proof. destruct res; simpl; lia. Qed.

Lemma p_chars_length s acc k r : p_chars s acc = Some (k, r) -> length r < length s.
Proof.
  revert acc. induction s as [s IH] using (induction_ltof1 _ (@length N)); unfold ltof in IH.
  intros acc H. destruct s as [|c s]; [done|]. simpl in H.
  repeat case_match; simplify_eq; simpl in *;
    try (apply IH in H; simpl in *; lia); lia.
Qed.

Lemma strip_prefix_length p s r : strip_prefix p s = Some r -> length r + length p = length s.
Proof.
  revert s. induction p as [|x p IH]; intros s H.
  - simpl in H. simplify_eq. simpl. lia.
  - destruct s as [|y s]; simpl in H; [done|].
    destruct (x =? y)%N; [|done]. apply IH in H. simpl. lia.
Qed.

Lemma p_digits1_length s ds r : p_digits1 s = Some (ds, r) -> length r < length s.
Proof.
  unfold p_digits1. destruct s as [|c s]; simpl; [done|].
  destruct (is_digit c); [|done]. intros [= _ <-]. pose proof (length_dropw is_digit s). lia.
Qed.

Lemma p_number_length s lex r : p_number s = Some (lex, r) -> length r < length s.
Proof.
  unfold p_number. intros H.
  destruct (match s with c :: r => _ | [] => _ end) as [sign s1] eqn:E1.
  assert (L1 : length s1 <= length s)
    by (destruct s as [|c s]; [by simplify_eq|]; destruct (c =? 45)%N; simplify_eq; simpl; lia).
  destruct s1 as [|c1 r1]; [done|].
  assert (exists i s2, (if (c1 =? 48)%N then Some ([c1], r1) else if is_digit c1
      then Some (c1 :: takew is_digit r1, dropw is_digit r1) else None) = Some (i, s2)
      /\ length s2 <= length r1) as (i & s2 & Ei & L2).
  { destruct (c1 =? 48)%N; [by eauto|]. destruct (is_digit c1); [|done].
    eexists _, _. split; [done|]. apply length_dropw. }
  rewrite Ei in H. simpl in L1.
  destruct (match s2 with c :: r => _ | [] => _ end) as [[f s3]|] eqn:E3; [|done].
  assert (L3 : length s3 <= length s2).
  { destruct s2 as [|c s2]; simplify_eq; [done|]. destruct (c =? 46)%N; simplify_eq; [|done].
    destruct (p_digits1 s2) as [[ds r']|] eqn:E; simplify_eq. apply p_digits1_length in E. simpl. lia. }
  destruct (match s3 with c :: r => _ | [] => _ end) as [[e s4]|] eqn:E4; [|done].
  simplify_eq.
  assert (L4 : length r <= length s3); [|lia].
  destruct s3 as [|c s3]; simplify_eq; [done|].
  destruct ((c =? 101)%N || (c =? 69)%N); simplify_eq; [|done].
  destruct (match s3 with d :: r' => _ | [] => _ end) as [sg r1'] eqn:E5.
  destruct (p_digits1 r1') as [[ds r2]|] eqn:E6; simplify_eq.
  apply p_digits1_length in E6.
  destruct s3 as [|d s3]; simplify_eq; [simpl in *; lia|].
  destruct ((d =? 43)%N || (d =? 45)%N); simplify_eq; simpl in *; lia.
Qed.

(** Fuel [n] suffices for a value when [n > 2 * length s], for the rest
    of an array or object when [n > 2 * length s + 1]; each call
    consumes input. *)
(** The three parsers with fuel [n] consume input whenever they succeed
    and do not run out of fuel on inputs short enough for [n]. *)
Definition progress_at (n : nat) : Prop :=
  (forall s, 2 * length s < n -> progress_ok (p_value n s) s) /\
  (forall s acc, 2 * length s + 1 < n -> progress_ok (p_elems n s acc) s) /\
  (forall s acc, 2 * length s + 1 < n -> progress_ok (p_members n s acc) s).

(** A value that is not an object or an array: a string, a literal or a
    number. *)
Lemma p_scalar_progress c r :
  progress_ok
    match strip_prefix (str "true") (c :: r) with
    | Some r' => POk (JBool true) r'
    | None =>
      match strip_prefix (str "false") (c :: r) with
      | Some r' => POk (JBool false) r'
      | None =>
        match strip_prefix (str "null") (c :: r) with
        | Some r' => POk JNull r'
        | None =>
            match p_number (c :: r) with
            | Some (lex, r') => POk (JNum lex) r'
            | None => PErr
            end
        end
      end
    end (c :: r).
Proof.
  repeat match goal with
  | |- context [strip_prefix ?p (c :: r)] =>
      let E := fresh in
      destruct (strip_prefix p (c :: r)) eqn:E;
      [apply strip_prefix_length in E; simpl in *; lia|]; clear E
  end.
  destruct (p_number (c :: r)) as [[lex r']|] eqn:En; simpl; [|done].
  apply p_number_length in En. simpl in *. lia.
Qed.

Lemma p_value_step n : progress_at n -> forall s, 2 * length s < S n -> progress_ok (p_value (S n) s) s.
Proof.
  intros (IHv & IHe & IHm) s Hs. cbn [p_value].
  pose proof (length_skip_ws s) as Ls.
  destruct (skip_ws s) as [|c r] eqn:Ew; [done|]. simpl in Ls.
  pose proof (length_skip_ws r) as Lr.
  destruct (c =? 123)%N.
  { destruct (skip_ws r) as [|d r'] eqn:Er; [done|]. simpl in Lr.
    destruct (d =? 125)%N; simpl; [lia|].
    eapply progress_ok_weaken; [apply IHm|]; simpl; lia. }
  destruct (c =? 91)%N.
  { destruct (skip_ws r) as [|d r'] eqn:Er; [done|]. simpl in Lr.
    destruct (d =? 93)%N; simpl; [lia|].
    eapply progress_ok_weaken; [apply IHe|]; simpl; lia. }
  destruct (c =? 34)%N.
  { destruct (p_chars r []) as [[t r']|] eqn:Ec; simpl; [|done].
    apply p_chars_length in Ec. lia. }
  eapply progress_ok_weaken; [apply p_scalar_progress|]. simpl. lia.
Qed.

Lemma p_elems_step n : progress_at n -> forall s acc, 2 * length s + 1 < S n ->
  progress_ok (p_elems (S n) s acc) s.
Proof.
  intros (IHv & IHe & IHm) s acc Hs. simpl.
  pose proof (IHv s ltac:(lia)) as Hv.
  destruct (p_value n s) as [v r| |]; simpl in *; [|done|done].
  pose proof (length_skip_ws r) as Lr.
  destruct (skip_ws r) as [|d r'] eqn:Er; [done|]. simpl in Lr.
  destruct (d =? 44)%N; [eapply progress_ok_weaken; [apply IHe|]; lia|].
  destruct (d =? 93)%N; simpl; lia.
Qed.

Lemma p_members_step n : progress_at n -> forall s acc, 2 * length s + 1 < S n ->
  progress_ok (p_members (S n) s acc) s.
Proof.
  intros (IHv & IHe & IHm) s acc Hs. simpl.
  pose proof (length_skip_ws s) as Ls.
  destruct (skip_ws s) as [|d r] eqn:Ew; [done|]. simpl in Ls.
  destruct (d =? 34)%N; [|done].
  destruct (p_chars r []) as [[k r1]|] eqn:Ec; [|done]. apply p_chars_length in Ec.
  pose proof (length_skip_ws r1) as L1.
  destruct (skip_ws r1) as [|e r2] eqn:E1; [done|]. simpl in L1.
  destruct (e =? 58)%N; [|done].
  pose proof (IHv r2 ltac:(lia)) as Hv.
  destruct (p_value n r2) as [v r3| |]; simpl in *; [|done|done].
  pose proof (length_skip_ws r3) as L3.
  destruct (skip_ws r3) as [|g r4] eqn:E3; [done|]. simpl in L3.
  destruct (g =? 44)%N; [eapply progress_ok_weaken; [apply IHm|]; lia|].
  destruct (g =? 125)%N; simpl; lia.
Qed.

Lemma p_progress n : progress_at n.
Proof.
  induction n as [|n IH]; [split_and!; intros; lia|].
  split_and!; [apply p_value_step | apply p_elems_step | apply p_members_step]; exact IH.
Qed.

(** The fuel [JSON_parse] gives the parser, one more than twice the
    length of the text, is never exhausted, so the result is a value
    or a [SyntaxError] of the grammar: the bound is enough. *)
Lemma json_parse_total (s : jsstr) : p_value (S (2 * length s)) s <> PFuel.
Proof.
  pose proof (proj1 (p_progress (S (2 * length s))) s ltac:(lia)) as H.
  by destruct (p_value _ s).
Qed.

(** One code unit is never an array. *)
Lemma json_parse_single c items : JSON_parse [c] <> Ok (JArr items).
Proof.
  unfold JSON_parse. cbn [length Nat.mul Nat.add].
  cbn [p_value]. unfold skip_ws. cbn [dropw]. destruct (is_json_ws c); cbn [dropw]; [done|].
  destruct (c =? 123)%N; [done|]. destruct (c =? 91)%N; [done|].
  destruct (c =? 34)%N; [done|].
  repeat case_match; simplify_eq; done.
Qed.
