(* ===== verification/JsonWrite.v ===== *)
(** * JSON text as the child process writes it

    i3status writes each status line with a JSON generator: no white
    space, string contents escaped the way [JSON.stringify] escapes the
    quote, the backslash and the control characters ([\b], [\t], [\n],
    [\f], [\r], other code units below U+0020 as [\u00xx] in lower-case
    hex), every other code unit as it is.  [json_write] is that
    generator; numbers are written as their numeral, and [json_ok] asks
    that each numeral be an integer ([-]?([1-9][0-9]*|0)), which is all
    an i3bar block holds.  [json_roundtrip] shows that the [JSON.parse]
    of [Json] reads back every value written this way: the parser is
    complete for the protocol's lines. *)

From S2P Require Import Prelude JsValue Json.

#[local] Open Scope N_scope.

Definition hex_digit (d : N) : N := if d <? 10 then 48 + d else 87 + d.

Definition escape_unit (c : N) : jsstr :=
  if c =? 34 then [92; 34]
  else if c =? 92 then [92; 92]
  else if c =? 8 then [92; 98]
  else if c =? 12 then [92; 102]
  else if c =? 10 then [92; 110]
  else if c =? 13 then [92; 114]
  else if c =? 9 then [92; 116]
  else if c <? 32 then [92; 117; 48; 48; hex_digit (c / 16); hex_digit (c mod 16)]
  else [c].

Definition json_quote (s : jsstr) : jsstr := 34 :: concat (map escape_unit s) ++ [34].

Fixpoint json_write (v : jvalue) : jsstr :=
  match v with
  | JNull => str "null"
  | JBool true => str "true"
  | JBool false => str "false"
  | JNum l => l
  | JStr s => json_quote s
  | JArr vs => 91 :: join_sep [44] (map json_write vs) ++ [93]
  | JObj ps => 123 :: join_sep [44] (map (fun kv => json_quote kv.1 ++ 58 :: json_write kv.2) ps) ++ [125]
  end.

(** An integer numeral. *)
Definition int_digits (d : jsstr) : bool :=
  match d with
  | c :: r => if c =? 48 then bool_decide (r = []) else is_digit c && forallb is_digit r
  | [] => false
  end.

Definition int_numeral (l : jsstr) : bool :=
  match l with
  | c :: d => if c =? 45 then int_digits d else int_digits l
  | [] => false
  end.

Fixpoint json_ok (v : jvalue) : bool :=
  match v with
  | JNum l => int_numeral l
  | JArr vs => forallb json_ok vs
  | JObj ps => forallb (fun kv => json_ok kv.2) ps
  | _ => true
  end.

(** What may follow a value inside the protocol's arrays and objects. *)
Definition stops (rest : jsstr) : Prop :=
  match rest with [] => True | c :: _ => c = 44 \/ c = 93 \/ c = 125 end.

(** ** Reading back what is written *)

Lemma hex_val_digit d : d < 16 -> hex_val (hex_digit d) = Some d.
Proof.
  intros Hd. unfold hex_digit, hex_val.
  destruct (N.ltb_spec d 10).
  - replace ((48 <=? 48 + d) && (48 + d <=? 57)) with true
      by (symmetry; apply andb_true_iff; split; apply N.leb_le; lia).
    f_equal. lia.
  - replace ((48 <=? 87 + d) && (87 + d <=? 57)) with false
      by (symmetry; apply andb_false_iff; right; apply N.leb_gt; lia).
    replace ((65 <=? 87 + d) && (87 + d <=? 70)) with false
      by (symmetry; apply andb_false_iff; right; apply N.leb_gt; lia).
    replace ((97 <=? 87 + d) && (87 + d <=? 102)) with true
      by (symmetry; apply andb_true_iff; split; apply N.leb_le; lia).
    f_equal. lia.
Qed.

Lemma hex4_escape c : c < 32 -> hex4 48 48 (hex_digit (c / 16)) (hex_digit (c mod 16)) = Some c.
Proof.
  intros Hc. unfold hex4.
  rewrite !hex_val_digit; [|apply N.mod_lt; lia|apply N.Div0.div_lt_upper_bound; lia].
  simpl. f_equal. pose proof (N.div_mod c 16 ltac:(lia)). lia.
Qed.

(** One escaped code unit is read back as itself. *)
Lemma p_chars_escape c r acc : p_chars (escape_unit c ++ r) acc = p_chars r (c :: acc).
Proof.
  unfold escape_unit.
  destruct (N.eqb_spec c 34); [subst; reflexivity|].
  destruct (N.eqb_spec c 92); [subst; reflexivity|].
  destruct (N.eqb_spec c 8); [subst; reflexivity|].
  destruct (N.eqb_spec c 12); [subst; reflexivity|].
  destruct (N.eqb_spec c 10); [subst; reflexivity|].
  destruct (N.eqb_spec c 13); [subst; reflexivity|].
  destruct (N.eqb_spec c 9); [subst; reflexivity|].
  destruct (N.ltb_spec c 32).
  - simpl. rewrite hex4_escape by done. reflexivity.
  - simpl. rewrite (proj2 (N.eqb_neq c 34)), (proj2 (N.eqb_neq c 92)) by done.
    destruct (N.ltb_spec c 32); [lia|done].
Qed.

Lemma p_chars_quote s r acc : p_chars (concat (map escape_unit s) ++ 34 :: r) acc = Some (rev acc ++ s, r).
Proof.
  revert acc. induction s as [|c s IH]; intros acc; simpl.
  - by rewrite app_nil_r.
  - rewrite <- app_assoc, p_chars_escape, IH. simpl. by rewrite <- app_assoc.
Qed.

Lemma stops_not_digit rest :
  stops rest -> match rest with [] => True | c :: _ => is_digit c = false end.
Proof. destruct rest as [|c r]; [done|]. by intros [-> | [-> | ->]]. Qed.

(** The integer part of the numeral grammar on an integer. *)
Lemma p_int_part c d rest :
  int_digits (c :: d) = true -> stops rest ->
  (if c =? 48 then Some ([c], d ++ rest)
   else if is_digit c then Some (c :: takew is_digit (d ++ rest), dropw is_digit (d ++ rest))
   else None) = Some (c :: d, rest).
Proof.
  intros Hd Hr. simpl in Hd. destruct (N.eqb_spec c 48).
  - subst. by apply bool_decide_eq_true_1 in Hd as ->.
  - apply andb_true_iff in Hd as [Hc Hr']. rewrite Hc. rewrite forallb_forall in Hr'.
    destruct (takew_app_stop is_digit d rest) as [-> ->]; [|by apply stops_not_digit|done].
    apply Forall_forall. intros x Hx. apply Hr'. by apply list_elem_of_In.
Qed.

Lemma p_number_int l rest : int_numeral l = true -> stops rest -> p_number (l ++ rest) = Some (l, rest).
Proof.
  intros Hl Hr. destruct l as [|c d]; [done|]. simpl in Hl. unfold p_number.
  destruct (N.eqb_spec c 45).
  - subst. destruct d as [|c' d]; [done|]. cbn -[is_digit takew dropw p_digits1].
    rewrite (p_int_part c' d rest Hl Hr).
    destruct rest as [|x rest]; [cbn; by rewrite ?app_nil_r|].
    destruct Hr as [-> | [-> | ->]]; cbn; by rewrite ?app_nil_r.
  - cbn -[is_digit takew dropw p_digits1]. rewrite (proj2 (N.eqb_neq c 45)) by done.
    rewrite (p_int_part c d rest Hl Hr).
    destruct rest as [|x rest]; [cbn; by rewrite ?app_nil_r|].
    destruct Hr as [-> | [-> | ->]]; cbn; by rewrite ?app_nil_r.
Qed.

Lemma numeral_head c d : int_numeral (c :: d) = true -> c = 45 \/ 48 <= c <= 57.
Proof.
  simpl. destruct (N.eqb_spec c 45); [by left|]. intros H. right.
  destruct (N.eqb_spec c 48); [lia|]. apply andb_true_iff in H as [H _].
  unfold is_digit in H. apply andb_true_iff in H as [H1 H2]. apply N.leb_le in H1, H2. lia.
Qed.

(** Decide the comparisons of a code unit known by bounds. *)
Ltac unit_tests c :=
  repeat match goal with
  | |- context [(c =? ?k)] => rewrite (proj2 (N.eqb_neq c k)) by lia
  | |- context [(?k =? c)] => rewrite (proj2 (N.eqb_neq k c)) by lia
  end.

Lemma join_sep_cons2 (x y : jsstr) r : join_sep [44] (x :: y :: r) = x ++ 44 :: join_sep [44] (y :: r).
Proof. done. Qed.

#[local] Close Scope N_scope.

Ltac stops_tac :=
  unfold stops; simpl; first [ exact I | left; reflexivity | right; left; reflexivity | right; right; reflexivity ].

Lemma skip_ws_stop c r : is_json_ws c = false -> skip_ws (c :: r) = c :: r.
Proof. intros Hc. unfold skip_ws. simpl. by rewrite Hc. Qed.

(** Every written value starts with a unit that is neither white space
    nor a closing bracket or brace. *)
Lemma json_write_start v : json_ok v = true ->
  exists c t, json_write v = c :: t /\ is_json_ws c = false /\ c <> 93%N /\ c <> 125%N.
Proof.
  destruct v as [|[]|[|c d]| | |]; simpl; intros Hok; try done;
    try (eexists _, _; split; [reflexivity|]; split_and!; [reflexivity|done|done]).
  exists c, d. split; [done|]. pose proof (numeral_head c d Hok).
  unfold is_json_ws. unit_tests c. split_and!; [done|lia|lia].
Qed.

Lemma join_sep_start (x : jsstr) r c t : x = c :: t -> exists t', join_sep [44%N] (x :: r) = c :: t'.
Proof. intros ->. destruct r; simpl; eauto. Qed.

Lemma strip_prefix_stop s c r : hd 0%N (str s) <> c -> str s <> [] -> strip_prefix (str s) (c :: r) = None.
Proof. destruct (str s) as [|x p]; simpl; [done|]. intros Hx _. by rewrite (proj2 (N.eqb_neq x c) Hx). Qed.

Section Roundtrip.
Let P (v : jvalue) : Prop :=
  json_ok v = true -> forall n rest, length (json_write v) < n -> stops rest ->
  p_value n (json_write v ++ rest) = POk v rest.

Lemma roundtrip_elems vs :
  Forall P vs -> forallb json_ok vs = true -> vs <> [] ->
  forall n acc rest, length (join_sep [44%N] (map json_write vs)) + 1 < n ->
  p_elems n (join_sep [44%N] (map json_write vs) ++ 93%N :: rest) acc = POk (JArr (rev acc ++ vs)) rest.
Proof.
  induction 1 as [|v vs Hv Hvs IH]; [done|]. intros Hok _ n acc rest Hn.
  apply andb_true_iff in Hok as [Hokv Hoks]. destruct n as [|f]; [lia|].
  destruct vs as [|v' vs].
  - simpl in *. rewrite (Hv Hokv f (93%N :: rest)) by (lia || stops_tac). done.
  - cbn [map] in *. rewrite join_sep_cons2 in Hn |- *. rewrite length_app in Hn. cbn [length fst snd] in Hn.
    rewrite <- app_assoc. cbn [app].
    set (J := join_sep [44%N] (json_write v' :: map json_write vs)) in *.
    simpl. rewrite (Hv Hokv f) by (lia || stops_tac). simpl.
    rewrite (IH Hoks ltac:(done) f (v :: acc) rest) by lia. simpl. by rewrite <- app_assoc.
Qed.
Lemma member_text k w r :
  (json_quote k ++ 58%N :: w) ++ r = 34%N :: concat (map escape_unit k) ++ 34%N :: 58%N :: w ++ r.
Proof. unfold json_quote. simpl. by rewrite <- !app_assoc. Qed.

Lemma roundtrip_members (ps : list (jsstr * jvalue)) :
  Forall (fun kv => P kv.2) ps -> forallb (fun kv => json_ok kv.2) ps = true -> ps <> [] ->
  forall n acc rest,
  length (join_sep [44%N] (map (fun kv => json_quote kv.1 ++ 58%N :: json_write kv.2) ps)) + 1 < n ->
  p_members n (join_sep [44%N] (map (fun kv => json_quote kv.1 ++ 58%N :: json_write kv.2) ps) ++ 125%N :: rest) acc
    = POk (JObj (rev acc ++ ps)) rest.
Proof.
  induction 1 as [|[k v] ps Hv Hps IH]; [done|]. simpl in Hv. intros Hok _ n acc rest Hn.
  apply andb_true_iff in Hok as [Hokv Hoks]. destruct n as [|f]; [lia|].
  destruct ps as [|kv' ps].
  - cbn [map join_sep] in *. rewrite member_text. rewrite length_app in Hn. cbn [length fst snd] in Hn.
    simpl. rewrite p_chars_quote. simpl.
    rewrite (Hv Hokv f (125%N :: rest)) by (lia || stops_tac). done.
  - cbn [map] in *. rewrite join_sep_cons2 in Hn |- *. rewrite length_app in Hn. cbn [length fst snd] in Hn.
    rewrite <- app_assoc. cbn [app]. rewrite member_text. rewrite length_app in Hn. cbn [length fst snd] in Hn.
    set (J := join_sep [44%N] _) in *.
    simpl. rewrite p_chars_quote. simpl.
    rewrite (Hv Hokv f) by (lia || stops_tac). simpl.
    rewrite (IH Hoks ltac:(done) f ((k, v) :: acc) rest) by lia. simpl. by rewrite <- app_assoc.
Qed.
Lemma roundtrip_value v : P v.
Proof.
  induction v as [| b | l | s | vs IH | ps IH] using jvalue_ind';
    intros Hok n rest Hn Hr; (destruct n as [|f]; [simpl in Hn; lia|]).
  - reflexivity.
  - by destruct b.
  - destruct l as [|c d]; [done|]. pose proof (numeral_head c d Hok).
    cbn [json_write p_value app]. rewrite skip_ws_stop by (unfold is_json_ws; unit_tests c; done).
    cbv beta iota. unit_tests c. cbv beta iota.
    rewrite !strip_prefix_stop by (unfold str; simpl; (lia || done)). cbv beta iota.
    change (c :: d ++ rest) with ((c :: d) ++ rest). by rewrite p_number_int.
  - simpl. rewrite <- app_assoc. simpl. by rewrite p_chars_quote.
  - simpl in Hok. destruct vs as [|v vs]; [done|].
    pose proof (Forall_inv IH) as Hv. apply andb_true_iff in Hok as Hok'. destruct Hok' as [Hokv _].
    destruct (json_write_start v Hokv) as (c & t & Hw & Hws & H93 & _).
    destruct (join_sep_start _ (map json_write vs) c t Hw) as [t' HJ].
    cbn [json_write map] in Hn |- *. set (J := join_sep [44%N] (json_write v :: _)) in *. cbn [length] in Hn.
    rewrite length_app in Hn. cbn [length] in Hn.
    cbn [app]. rewrite <- app_assoc. simpl. rewrite HJ. cbn [app]. rewrite skip_ws_stop by done. cbv beta iota.
    rewrite (proj2 (N.eqb_neq _ _) H93). change (c :: t' ++ 93%N :: rest) with ((c :: t') ++ 93%N :: rest). rewrite <- HJ.
    subst J. pose proof (roundtrip_elems (v :: vs) IH Hok ltac:(done) f [] rest) as E.
    cbn [map] in E. by rewrite E by lia.
  - simpl in Hok. destruct ps as [|[k v] ps]; [done|].
    destruct (join_sep_start (json_quote k ++ 58%N :: json_write v)
      (map (fun kv => json_quote kv.1 ++ 58%N :: json_write kv.2) ps)
      34%N ((concat (map escape_unit k) ++ [34%N]) ++ 58%N :: json_write v) eq_refl) as [t' HJ].
    cbn [json_write map fst snd] in Hn |- *. set (J := join_sep [44%N] _) in *. cbn [length] in Hn. rewrite length_app in Hn. cbn [length] in Hn.
    cbn [app]. rewrite <- app_assoc. simpl. rewrite HJ. simpl. change (34%N :: t' ++ 125%N :: rest) with ((34%N :: t') ++ 125%N :: rest). rewrite <- HJ.
    subst J. pose proof (roundtrip_members ((k, v) :: ps) IH Hok ltac:(done) f [] rest) as E.
    cbn [map fst snd] in E. by rewrite E by lia.
Qed.
End Roundtrip.

(** C15: round trip.  For every value whose numbers are integer
    numerals, [JSON.parse] of the text the generator writes returns
    that value: strings come back with every escape undone, arrays and
    objects with their elements in order. *)
Theorem json_roundtrip v : json_ok v = true -> JSON_parse (json_write v) = Ok v.
Proof.
  intros Hok. unfold JSON_parse.
  pose proof (roundtrip_value v Hok (S (2 * length (json_write v))) []) as H.
  rewrite app_nil_r in H. rewrite H by (lia || exact I). done.
Qed.

(** A block whose text holds a quote, a backslash, a newline and a
    control character, beside a negative number and a nested array. *)
Definition demo_value : jvalue :=
  JObj [(str "full_text", JStr [34; 92; 10; 1; 65]%N); (str "min_width", JNum (str "-12"));
        (str "extra", JArr [JNull; JBool true; JStr []])].

Lemma json_roundtrip_witness :
  json_ok demo_value = true /\ JSON_parse (json_write demo_value) = Ok demo_value.
Proof. split; [reflexivity | apply json_roundtrip; reflexivity]. Defined.
