(* ===== verification/Parse.v ===== *)
(** * [_parse_i3status_i3bar] (src/extension.js, lines 68-100)

    One line of i3status output in the i3bar protocol to the list of
    [{label, value, unit}] objects of the blocks the filter selects.
    The array [status_infos] is built by pushes inside a [try] block, so
    the state of the loop is that array: an exception (a SyntaxError of
    [JSON.parse], a TypeError on a [null] block or from ToString) ends
    the loop and the fields pushed before it are returned.  The caught
    exception is returned too, because the [catch] logs it. *)

From S2P Require Import Prelude JsValue Regex Split Json.

(** The object pushed for one block (lines 89-92). *)
Record status_info := { si_label : jsstr; si_value : jvalue; si_unit : jsstr }.

(** [this._filter_status_names] as the constructor sets it (line 34). *)
Definition filter_status_names : list jsstr := [str "disk_info"; str "memory"; str "cpu_usage"].

(** Lines 74-77: a leading comma, the continuation of the stream's
    outer array, is removed. *)
Definition strip_comma (text : jsstr) : jsstr :=
  match text with
  | c :: r => if (c =? 44)%N then r else text
  | [] => text
  end.

(** Lines written with ['] for the JSON quote, to state examples. *)
Definition jq (s : String.string) : jsstr :=
  map (fun c => if (c =? 39)%N then 34%N else c) (str s).
Arguments jq s%_string_scope.

Section Parse.
Context `{JsNumbers}.
#[local] Open Scope js_scope.

(** The body of the loop (lines 87-93) for one array element. *)
Definition parse_item (names : list jsstr) (item : jvalue) : JsM (list status_info) unit :=
  ft <- lift (get_property item (str "full_text")) ;;
  match ft with
  | Some ftv =>
      if truthy (Some ftv) then
        nm <- lift (get_property item (str "name")) ;;
        if includes names nm then
          luv <- lift (_split_status_text ftv) ;;
          let '(label, value, unit) := luv in
          modify (fun infos => infos ++ [{| si_label := label; si_value := value; si_unit := unit |}])
        else ret tt
      else ret tt
  | None => ret tt
  end.

(** The whole method: the fields and the exception the [catch] logged. *)
Definition _parse_i3status_i3bar (names : list jsstr) (text : jsstr)
  : list status_info * option js_error :=
  if length text <=? 1 then ([], None)
  else
    let text := strip_comma text in
    let body : JsM (list status_info) unit :=
      status <- lift (JSON_parse text) ;;
      match status with
      | JArr items => for_each items (parse_item names)
      | _ => ret tt
      end in
    match body [] with
    | (Ok _, infos) => (infos, None)
    | (Throw e, infos) => (infos, Some e)
    end.
End Parse.

(** ** Lines made of i3bar blocks *)

(** A block as i3status writes it: other keys, then [name] and
    [full_text], both strings. *)
Record block := { b_name : jsstr; b_full_text : jsstr; b_other : list (jsstr * jvalue) }.

Definition block_json (b : block) : jvalue :=
  JObj ((b_other b ++ [(str "name", JStr (b_name b))]) ++ [(str "full_text", JStr (b_full_text b))]).

(** Whether the loop keeps a block: non-empty text and a listed name. *)
Definition selected (names : list jsstr) (b : block) : bool :=
  bool_decide (b_full_text b <> [] /\ b_name b ∈ names).

(** The field the loop pushes for a kept block. *)
Definition block_field (b : block) : status_info :=
  let '(l, v, u) := split_closed (b_full_text b) in
  {| si_label := l; si_value := v; si_unit := u |}.

Lemma assoc_last_snoc k k' v ps :
  assoc_last k (ps ++ [(k', v)]) = if bool_decide (k = k') then Some v else assoc_last k ps.
Proof.
  induction ps as [|[k0 v0] ps IH]; simpl; [by case_bool_decide|].
  rewrite IH. by case_bool_decide.
Qed.

Section ParseTheorems.
Context `{JsNumbers}.

Lemma parse_item_block names b acc :
  parse_item names (block_json b) acc
  = (Ok tt, if selected names b then acc ++ [block_field b] else acc).
Proof.
  unfold parse_item, block_json, selected, block_field, bind, lift. simpl.
  rewrite assoc_last_snoc, bool_decide_true by done. simpl.
  destruct (bool_decide (b_full_text b <> [])) eqn:Ef.
  - rewrite assoc_last_snoc, bool_decide_false by done.
    rewrite assoc_last_snoc, bool_decide_true by done. simpl.
    rewrite split_status_text_string. destruct (split_closed (b_full_text b)) as [[l v] u].
    apply bool_decide_eq_true in Ef.
    destruct (bool_decide (b_name b ∈ names)) eqn:En;
      [apply bool_decide_eq_true in En | apply bool_decide_eq_false in En];
      [rewrite bool_decide_true | rewrite bool_decide_false]; naive_solver.
  - apply bool_decide_eq_false in Ef. by rewrite bool_decide_false by naive_solver.
Qed.

Lemma for_each_blocks names bs acc :
  for_each (map block_json bs) (parse_item names) acc
  = (Ok tt, acc ++ map block_field (List.filter (selected names) bs)).
Proof.
  revert acc. induction bs as [|b bs IH]; intros acc; simpl.
  - by rewrite app_nil_r.
  - unfold bind. rewrite parse_item_block, IH.
    destruct (selected names b); simpl; [by rewrite <- app_assoc | done].
Qed.

Lemma for_each_null names bs rest acc :
  for_each (map block_json bs ++ JNull :: rest) (parse_item names) acc
  = (Throw TypeError, acc ++ map block_field (List.filter (selected names) bs)).
Proof. by rewrite for_each_app, (bind_ok _ _ _ _ _ (for_each_blocks names bs acc)). Qed.

Lemma parse_long names text :
  2 <= length text ->
  _parse_i3status_i3bar names text =
  match (status <- lift (JSON_parse (strip_comma text)) ;;
         match status with
         | JArr items => for_each items (parse_item names)
         | _ => ret tt
         end)%js [] with
  | (Ok _, infos) => (infos, None)
  | (Throw e, infos) => (infos, Some e)
  end.
Proof. intros Hl. unfold _parse_i3status_i3bar. destruct (Nat.leb_spec (length text) 1); [lia|done]. Qed.

(** a line of at most one code unit gives no field (the spec's
    [parse("")] and [parse(",")]). *)
Theorem parse_short_line names text :
  length text <= 1 -> _parse_i3status_i3bar names text = ([], None).
Proof. intros Hl. unfold _parse_i3status_i3bar. by destruct (Nat.leb_spec (length text) 1); [|lia]. Qed.

(** C31: a line that is not JSON gives no field and the caught error,
    and a JSON value that is not an array (the protocol header)
    gives no field and no error. *)
Theorem parse_not_array names text :
  2 <= length text ->
  (forall e, JSON_parse (strip_comma text) = Throw e ->
             _parse_i3status_i3bar names text = ([], Some e)) /\
  (forall v, JSON_parse (strip_comma text) = Ok v -> (forall items, v <> JArr items) ->
             _parse_i3status_i3bar names text = ([], None)).
Proof.
  intros Hl. rewrite parse_long by done. unfold bind, lift.
  split; [intros e -> | intros v -> Hv; destruct v; try done; by edestruct Hv]; done.
Qed.

(** C3: on a line whose array holds i3bar blocks, the fields are the
    blocks with non-empty text and a listed name, split, in the order
    of the array; nothing is thrown. *)
Theorem parse_blocks names text bs :
  2 <= length text ->
  JSON_parse (strip_comma text) = Ok (JArr (map block_json bs)) ->
  _parse_i3status_i3bar names text = (map block_field (List.filter (selected names) bs), None).
Proof.
  intros Hl Hj. rewrite parse_long by done. unfold bind at 1, lift. rewrite Hj.
  by rewrite for_each_blocks.
Qed.

(** C32: a [null] element of the array throws a TypeError in the loop;
    the catch keeps the fields of the blocks before it. *)
Theorem parse_null_block names text bs rest :
  2 <= length text ->
  JSON_parse (strip_comma text) = Ok (JArr (map block_json bs ++ JNull :: rest)) ->
  _parse_i3status_i3bar names text
    = (map block_field (List.filter (selected names) bs), Some TypeError).
Proof.
  intros Hl Hj. rewrite parse_long by done. unfold bind at 1, lift. rewrite Hj.
  by rewrite for_each_null.
Qed.

(** C33: a leading comma is ignored: a line and the same line after
    a comma give the same fields, unless the line itself starts with
    a comma (only one is removed). *)
Theorem parse_leading_comma names t :
  (match t with c :: _ => c <> 44%N | [] => True end) ->
  fst (_parse_i3status_i3bar names (44%N :: t)) = fst (_parse_i3status_i3bar names t).
Proof.
  intros Ht. destruct t as [|c [|d t']].
  - rewrite !parse_short_line; simpl; [done | lia | lia].
  - rewrite (parse_short_line _ [c]) by (simpl; lia). rewrite parse_long by (simpl; lia).
    simpl strip_comma. unfold bind at 1, lift.
    pose proof (json_parse_single c) as Hs.
    destruct (JSON_parse [c]) as [[]|]; try done. by edestruct Hs.
  - rewrite !parse_long by (simpl; lia).
    assert (strip_comma (c :: d :: t') = c :: d :: t') as ->
      by (simpl; by destruct (N.eqb_spec c 44)).
    done.
Qed.

End ParseTheorems.

#[local] Existing Instance integer_numbers.

(** [parse_blocks] on a continuation line of two blocks. *)
Lemma parse_blocks_witness :
  _parse_i3status_i3bar filter_status_names
    (jq ",[{'name':'memory','full_text':'memory: 512 MiB'},{'name':'volume','full_text':'volume: 50%'}]")
  = (map block_field (List.filter (selected filter_status_names)
      [{| b_name := str "memory"; b_full_text := str "memory: 512 MiB"; b_other := [] |};
       {| b_name := str "volume"; b_full_text := str "volume: 50%"; b_other := [] |}]), None).
Proof. apply parse_blocks; [vm_compute; lia | vm_compute; reflexivity]. Defined.

(** [parse_null_block] on a line whose second element is [null]. *)
Lemma parse_null_block_witness :
  _parse_i3status_i3bar filter_status_names
    (jq "[{'name':'cpu_usage','full_text':'cpu_usage: 7%'},null,{'name':'memory','full_text':'memory: 1 GiB'}]")
  = (map block_field (List.filter (selected filter_status_names)
      [{| b_name := str "cpu_usage"; b_full_text := str "cpu_usage: 7%"; b_other := [] |}]),
     Some TypeError).
Proof.
  apply (parse_null_block _ _ _
    [JObj [(str "name", JStr (str "memory")); (str "full_text", JStr (str "memory: 1 GiB"))]]);
    [vm_compute; lia | vm_compute; reflexivity].
Defined.

(** [parse_short_line] on the empty line and on a lone comma. *)
Lemma parse_short_line_witness :
  _parse_i3status_i3bar filter_status_names [] = ([], None) /\
  _parse_i3status_i3bar filter_status_names (str ",") = ([], None).
Proof. split; apply parse_short_line; vm_compute; lia. Defined.

(** [parse_not_array] on the protocol header and on a broken line. *)
Lemma parse_not_array_witness :
  _parse_i3status_i3bar filter_status_names (jq "{'version':1}") = ([], None) /\
  _parse_i3status_i3bar filter_status_names (str "[{") = ([], Some SyntaxError).
Proof.
  split.
  - apply (proj2 (parse_not_array filter_status_names (jq "{'version':1}") ltac:(vm_compute; lia))
      (JObj [(str "version", JNum (str "1"))])); [vm_compute; reflexivity | done].
  - apply (proj1 (parse_not_array filter_status_names (str "[{") ltac:(vm_compute; lia))).
    vm_compute. reflexivity.
Defined.

(** [parse_leading_comma] on a header line. *)
Lemma parse_leading_comma_witness :
  fst (_parse_i3status_i3bar filter_status_names (44%N :: jq "[{'name':'memory','full_text':'m: 1'}]"))
  = fst (_parse_i3status_i3bar filter_status_names (jq "[{'name':'memory','full_text':'m: 1'}]")).
Proof. apply parse_leading_comma. simpl. discriminate. Defined.
