(* ===== verification/Protocol.v ===== *)
(** * The i3bar protocol end to end

    i3status, configured with [output_format = "i3bar"], writes a
    header, the line [[] that opens an infinite array, and then one
    line per refresh: the array of the blocks, preceded by a comma from
    the second refresh on.  [i3bar_line] is such a line as the child's
    generator ([JsonWrite.json_write]) writes it.  [i3bar_line_fields]
    composes the generator with [_parse_i3status_i3bar]: every line the
    child writes gives, with no error, the fields of the selected
    blocks in order, whatever the strings hold (quotes, backslashes,
    control characters). *)

From S2P Require Import Prelude JsValue Json JsonWrite Parse.

(** One refresh: a comma unless it is the first, then the blocks. *)
Definition i3bar_line (cont : bool) (bs : list block) : jsstr :=
  (if cont then [44%N] else []) ++ json_write (JArr (map block_json bs)).

(** The first two lines: the protocol header and the opening bracket
    of the infinite array. *)
Definition header_line : jsstr := json_write (JObj [(str "version", JNum (str "1"))]).

Definition open_line : jsstr := [91%N].

(** The lines of one run of i3status: the header, the bracket, the
    first status line, then the continuation lines. *)
Definition i3status_output (first : list block) (rest : list (list block)) : list jsstr :=
  header_line :: open_line :: i3bar_line false first :: map (i3bar_line true) rest.

(** The numbers of a block's other keys are integers, as i3status
    writes them ([min_width], [separator_block_width], ...). *)
Definition block_ok (b : block) : bool := forallb (fun kv => json_ok kv.2) (b_other b).

Lemma block_json_ok b : json_ok (block_json b) = block_ok b.
Proof.
  unfold block_json, block_ok. cbn [json_ok]. rewrite !forallb_app. simpl.
  by rewrite !andb_true_r.
Qed.

Lemma blocks_json_ok bs :
  Forall (fun b => block_ok b = true) bs -> json_ok (JArr (map block_json bs)) = true.
Proof.
  intros Hbs. cbn [json_ok]. apply forallb_forall. intros v Hv.
  apply in_map_iff in Hv as (b & <- & Hb). rewrite block_json_ok.
  rewrite Forall_forall in Hbs. apply Hbs. by apply list_elem_of_In.
Qed.

Lemma strip_comma_line cont bs :
  strip_comma (i3bar_line cont bs) = json_write (JArr (map block_json bs)).
Proof. by destruct cont. Qed.

Lemma length_line cont bs : 2 <= length (i3bar_line cont bs).
Proof. unfold i3bar_line. rewrite length_app. cbn [json_write length]. rewrite length_app. simpl. lia. Qed.

Section Protocol.
Context `{JsNumbers}.

(** A line the child writes for a list of blocks, the first or a later
    one, gives the fields of the blocks with non-empty text and a
    listed name, split, in the order of the array, and no error. *)
Theorem i3bar_line_fields names cont bs :
  Forall (fun b => block_ok b = true) bs ->
  _parse_i3status_i3bar names (i3bar_line cont bs)
    = (map block_field (List.filter (selected names) bs), None).
Proof.
  intros Hbs. rewrite parse_long by apply length_line. rewrite strip_comma_line.
  set (w := json_write (JArr (map block_json bs))).
  assert (JSON_parse w = Ok (JArr (map block_json bs))) as Hj.
  { unfold JSON_parse. pose proof (roundtrip_value _ (blocks_json_ok bs Hbs) (S (2 * length w)) []) as Hr.
    rewrite app_nil_r in Hr. fold w in Hr. rewrite Hr by (lia || exact I). done. }
  unfold bind at 1, lift. rewrite Hj. by rewrite for_each_blocks.
Qed.
(** The header is an object, not an array: no field, no error. *)
Lemma parse_header names : _parse_i3status_i3bar names header_line = ([], None).
Proof. reflexivity. Qed.

(** The bracket alone is a line too short to parse. *)
Lemma parse_open names : _parse_i3status_i3bar names open_line = ([], None).
Proof. reflexivity. Qed.
End Protocol.

(** A continuation line of three blocks, one with an escaped quote and
    one with integer keys; the [volume] block is not listed. *)
Definition demo_blocks : list block :=
  [ {| b_name := str "cpu_usage"; b_full_text := str "cpu_usage: 7%"; b_other := [] |};
    {| b_name := str "volume"; b_full_text := str "volume: 50%";
       b_other := [(str "min_width", JNum (str "120"))] |};
    {| b_name := str "memory"; b_full_text := jq "memory: 'x' 1 GiB";
       b_other := [(str "color", JStr (str "#00FF00")); (str "separator_block_width", JNum (str "9"))] |} ].
