(* ===== verification/Host.v ===== *)
(** * The host: GNOME Shell, St, GLib and GIO as the extension sees them

    The state the methods of [Extension] act on: the fields of the
    object ([ext], set by the constructor, lines 31-37, and by
    [enable]) and the part of the world they touch ([world]): the
    actors ([St.Label], [St.BoxLayout], [PanelMenu.Button]) with their
    text, liveness and parent; the panel's status-area slot for the
    role ['i3status']; spawned children, [spawn_close_pid] calls and
    closed descriptors; the streams on which a [read_line_async] is
    outstanding, in the order the requests were made; the log.  Object
    identities (actors, streams) are drawn from one counter.

    The host calls the extension uses are written here once:
    [new_actor], [add_actor], [set_text] (GJS refuses a non-string
    for a [utf8] argument with a TypeError), [destroy] (the actor dies
    and leaves its parent; destroying the registered panel button
    frees its status-area role, as the panel's destroy handler does;
    the children of a destroyed container are not destroyed with it
    here: the extension destroys each of its actors itself),
    [add_to_status_area] (the registration, which throws
    when the role is taken), [spawn_async_with_pipes] (its result is
    chosen by the environment: the array it returns or a thrown
    [GLib.Error]), [new_stream], [close_fd], [spawn_close_pid] (recorded,
    it does not stop the child) and [read_line_async] (the request joins
    the outstanding reads). *)

From stdpp Require Import gmap.
From S2P Require Import Prelude JsValue.

Inductive y_align := AlignStart | AlignCenter.

Inductive actor_kind :=
| KLabel (style_class : jsstr) (align : y_align)   (** [new St.Label({...})] *)
| KBox                                             (** [new St.BoxLayout()] *)
| KButton.                                         (** [new PanelMenu.Button(0.0, 'i3status')] *)

Record actor := {
  a_kind : actor_kind;
  a_text : jsstr;
  a_alive : bool;
  a_parent : option nat
}.

(** [this._i3status = {pid, stdout}] (lines 165-168). *)
Record handle := { h_pid : nat; h_stdout : nat }.

(** One slot: [[label_item, text_item, unit_item]] (line 206). *)
Abbreviation slot := (nat * nat * nat)%type.

(** The fields of the [Extension] object. *)
Record ext := {
  running : bool;
  i3status : option handle;
  filter_names : list jsstr;
  status_items : list slot;
  display_box : option nat;
  status_panel : option nat
}.

Inductive log_entry :=
| LStarted (succ : bool)   (** ["i3status started: " + succ] *)
| LClosedByUser      (** ["i3status closed by user"] *)
| LRestarting        (** ["i3status closed for unknown reason, restarting"] *)
| LCaught (e : js_error)   (** ["i3status: " + e] in the parser's catch *)
| LUncaught (e : js_error). (** an exception that left a handler *)

Record world := {
  actors : gmap nat actor;
  next_id : nat;
  status_area : option nat;
  spawned : list nat;
  closed_pids : list nat;
  closed_fds : list nat;
  pending : list nat;
  logs : list log_entry
}.

Record state := { st_ext : ext; st_world : world }.

Abbreviation M := (JsM state).

(** ** Updating fields *)

Definition set_ext (f : ext -> ext) : M unit :=
  modify (fun s => {| st_ext := f (st_ext s); st_world := st_world s |}).
Definition set_world (f : world -> world) : M unit :=
  modify (fun s => {| st_ext := st_ext s; st_world := f (st_world s) |}).

Definition ext_with_items (items : list slot) (e : ext) : ext :=
  {| running := running e; i3status := i3status e; filter_names := filter_names e;
     status_items := items; display_box := display_box e; status_panel := status_panel e |}.
Definition ext_with_running (b : bool) (e : ext) : ext :=
  {| running := b; i3status := i3status e; filter_names := filter_names e;
     status_items := status_items e; display_box := display_box e; status_panel := status_panel e |}.
Definition ext_with_i3status (h : option handle) (e : ext) : ext :=
  {| running := running e; i3status := h; filter_names := filter_names e;
     status_items := status_items e; display_box := display_box e; status_panel := status_panel e |}.
Definition ext_with_box (b : option nat) (e : ext) : ext :=
  {| running := running e; i3status := i3status e; filter_names := filter_names e;
     status_items := status_items e; display_box := b; status_panel := status_panel e |}.
Definition ext_with_panel (p : option nat) (e : ext) : ext :=
  {| running := running e; i3status := i3status e; filter_names := filter_names e;
     status_items := status_items e; display_box := display_box e; status_panel := p |}.

Definition world_with_actors (a : gmap nat actor) (w : world) : world :=
  {| actors := a; next_id := next_id w; status_area := status_area w; spawned := spawned w;
     closed_pids := closed_pids w; closed_fds := closed_fds w; pending := pending w; logs := logs w |}.
Definition world_with_next (n : nat) (w : world) : world :=
  {| actors := actors w; next_id := n; status_area := status_area w; spawned := spawned w;
     closed_pids := closed_pids w; closed_fds := closed_fds w; pending := pending w; logs := logs w |}.
Definition world_with_area (r : option nat) (w : world) : world :=
  {| actors := actors w; next_id := next_id w; status_area := r; spawned := spawned w;
     closed_pids := closed_pids w; closed_fds := closed_fds w; pending := pending w; logs := logs w |}.
Definition world_with_spawned (l : list nat) (w : world) : world :=
  {| actors := actors w; next_id := next_id w; status_area := status_area w; spawned := l;
     closed_pids := closed_pids w; closed_fds := closed_fds w; pending := pending w; logs := logs w |}.
Definition world_with_closed_pids (l : list nat) (w : world) : world :=
  {| actors := actors w; next_id := next_id w; status_area := status_area w; spawned := spawned w;
     closed_pids := l; closed_fds := closed_fds w; pending := pending w; logs := logs w |}.
Definition world_with_closed_fds (l : list nat) (w : world) : world :=
  {| actors := actors w; next_id := next_id w; status_area := status_area w; spawned := spawned w;
     closed_pids := closed_pids w; closed_fds := l; pending := pending w; logs := logs w |}.
Definition world_with_pending (l : list nat) (w : world) : world :=
  {| actors := actors w; next_id := next_id w; status_area := status_area w; spawned := spawned w;
     closed_pids := closed_pids w; closed_fds := closed_fds w; pending := l; logs := logs w |}.
Definition world_with_logs (l : list log_entry) (w : world) : world :=
  {| actors := actors w; next_id := next_id w; status_area := status_area w; spawned := spawned w;
     closed_pids := closed_pids w; closed_fds := closed_fds w; pending := pending w; logs := l |}.

#[global] Arguments ext_with_items _ !_ /.
#[global] Arguments ext_with_running _ !_ /.
#[global] Arguments ext_with_i3status _ !_ /.
#[global] Arguments ext_with_box _ !_ /.
#[global] Arguments ext_with_panel _ !_ /.
#[global] Arguments world_with_actors _ !_ /.
#[global] Arguments world_with_next _ !_ /.
#[global] Arguments world_with_area _ !_ /.
#[global] Arguments world_with_spawned _ !_ /.
#[global] Arguments world_with_closed_pids _ !_ /.
#[global] Arguments world_with_closed_fds _ !_ /.
#[global] Arguments world_with_pending _ !_ /.
#[global] Arguments world_with_logs _ !_ /.

(** ** Host calls *)

#[local] Open Scope js_scope.

(** Actor updates. *)
Definition fresh_actor (k : actor_kind) : actor :=
  {| a_kind := k; a_text := []; a_alive := true; a_parent := None |}.
Definition reparent (p : option nat) (a : actor) : actor :=
  {| a_kind := a_kind a; a_text := a_text a; a_alive := a_alive a; a_parent := p |}.
Definition retext (t : jsstr) (a : actor) : actor :=
  {| a_kind := a_kind a; a_text := t; a_alive := a_alive a; a_parent := a_parent a |}.
Definition killed (a : actor) : actor :=
  {| a_kind := a_kind a; a_text := a_text a; a_alive := false; a_parent := None |}.

(** A fresh object identity. *)
Definition fresh_id : M nat :=
  s <- get ;;
  let n := next_id (st_world s) in
  set_world (world_with_next (S n)) ;;;
  ret n.

(** [new St.Label({text: '', ...})], [new St.BoxLayout()], [new PanelMenu.Button(...)]. *)
Definition new_actor (k : actor_kind) : M nat :=
  n <- fresh_id ;;
  set_world (fun w => world_with_actors (<[n := fresh_actor k]> (actors w)) w) ;;;
  ret n.

Definition update_actor (id : nat) (f : actor -> actor) : M unit :=
  set_world (fun w => world_with_actors (alter f id (actors w)) w).

(** [parent.add_actor(child)]. *)
Definition add_actor (parent child : nat) : M unit :=
  update_actor child (reparent (Some parent)).

(** [label.set_text(v)]: GJS converts the argument to a C string and
    throws a TypeError when it is not a string. *)
Definition set_text (id : nat) (v : jvalue) : M unit :=
  match v with
  | JStr t => update_actor id (retext t)
  | _ => throw TypeError
  end.

(** [actor.destroy()]. *)
Definition destroy (id : nat) : M unit :=
  update_actor id killed ;;;
  set_world (fun w => if bool_decide (status_area w = Some id)
                      then world_with_area None w else w).

Definition log (l : log_entry) : M unit :=
  set_world (fun w => world_with_logs (logs w ++ [l]) w).

(** Reading [this._display_box] where a method calls a method on it:
    [null] throws a TypeError. *)
Definition get_display_box : M nat :=
  s <- get ;;
  match display_box (st_ext s) with
  | Some b => ret b
  | None => throw TypeError
  end.

(** Reading [this._status_panel] where a method calls a method on it. *)
Definition get_status_panel : M nat :=
  s <- get ;;
  match status_panel (st_ext s) with
  | Some p => ret p
  | None => throw TypeError
  end.

(** [Main.panel.addToStatusArea('i3status', panel, 0, 'right')]: the
    panel throws when the role is already taken. *)
Definition add_to_status_area (p : nat) : M unit :=
  s <- get ;;
  match status_area (st_world s) with
  | Some _ => throw ShellError
  | None => set_world (world_with_area (Some p))
  end.

(** What [GLib.spawn_async_with_pipes] gives: the array
    [[succ, pid, stdin, stdout, stderr]], or a [GLib.Error] thrown when
    the program cannot be run.  The host chooses it. *)
Inductive spawn_result :=
| SpawnRet (succ : bool) (pid stdin stdout stderr : nat)
| SpawnThrow.

Definition spawn_async_with_pipes (sp : spawn_result) : M (bool * nat * nat * nat * nat) :=
  match sp with
  | SpawnThrow => throw GLibError
  | SpawnRet succ pid i o e =>
      (if succ then set_world (fun w => world_with_spawned (spawned w ++ [pid]) w) else ret tt) ;;;
      ret (succ, pid, i, o, e)
  end.

(** [new Gio.DataInputStream({base_stream: new Gio.UnixInputStream(...)})]:
    a fresh stream object. *)
Definition new_stream : M nat := fresh_id.

(** [new Gio.Unix*Stream({fd, close_fd: true}).close(null)]. *)
Definition close_fd (fd : nat) : M unit :=
  set_world (fun w => world_with_closed_fds (closed_fds w ++ [fd]) w).

(** [GLib.spawn_close_pid(pid)]. *)
Definition spawn_close_pid (pid : nat) : M unit :=
  set_world (fun w => world_with_closed_pids (closed_pids w ++ [pid]) w).

(** [stream.read_line_async(...)]: the request joins the outstanding
    reads; its callback runs when the host completes it. *)
Definition read_line_async (stream : nat) : M unit :=
  set_world (fun w => world_with_pending (pending w ++ [stream]) w).

(** Run the monadic plumbing of a method on a concrete state. *)
Ltac host_unfold :=
  cbv [bind lift ret throw get modify try_catch set_ext set_world fresh_id new_actor
       update_actor add_actor set_text destroy log get_display_box get_status_panel
       add_to_status_area spawn_async_with_pipes new_stream close_fd spawn_close_pid
       read_line_async]; simpl.

