(* ===== verification/Display.v ===== *)
(** * The display reconciler (src/extension.js, lines 102-118 and 189-217)

    [_update_status] grows the slot list with [_create_status_items]
    (three new labels added to the display box, pushed as one slot) or
    shrinks it with [_remove_status_items] (pop the last slot, destroy
    its three labels), then writes each field's label, value and unit
    into the slot of the same index.  Each [this._status_items[i][k]]
    and [this._display_box] is read where the source reads it.

    [slots_wf] is the invariant of the slots (distinct, allocated, live
    labels in the box, and no other live label), [view] the abstract
    panel (the texts of the slots in order) and [info_view] what a field
    should look like; [update_status_spec] is the refinement of the
    update to "the panel shows the fields".  [slots_wfb] decides the
    invariant on concrete states. *)

From stdpp Require Import gmap.
From S2P Require Import Prelude JsValue Parse Host.

#[local] Open Scope js_scope.

Definition push_item (it : slot) : M unit :=
  set_ext (fun e => ext_with_items (status_items e ++ [it]) e).

(** One iteration of the loop of [_create_status_items] (lines 191-206). *)
Definition create_one : M unit :=
  label_item <- new_actor (KLabel (str "status-label") AlignStart) ;;
  text_item <- new_actor (KLabel (str "status-value") AlignCenter) ;;
  unit_item <- new_actor (KLabel (str "status-label") AlignCenter) ;;
  b1 <- get_display_box ;; add_actor b1 label_item ;;;
  b2 <- get_display_box ;; add_actor b2 text_item ;;;
  b3 <- get_display_box ;; add_actor b3 unit_item ;;;
  push_item (label_item, text_item, unit_item).

Definition _create_status_items (count : nat) : M unit := repeat_m count create_one.

(** [this._status_items.pop()]: [undefined] on an empty array. *)
Definition pop_item : M (option slot) :=
  s <- get ;;
  match last (status_items (st_ext s)) with
  | Some it => set_ext (ext_with_items (removelast (status_items (st_ext s)))) ;;; ret (Some it)
  | None => ret None
  end.

(** One iteration of the loop of [_remove_status_items] (lines 212-215);
    [item[0]] on [undefined] throws. *)
Definition remove_one : M unit :=
  item <- pop_item ;;
  match item with
  | Some (l, t, u) => destroy l ;;; destroy t ;;; destroy u
  | None => throw TypeError
  end.

Definition _remove_status_items (count : nat) : M unit := repeat_m count remove_one.

(** [this._status_items[i]], a TypeError when it is [undefined]. *)
Definition item_at (i : nat) : M slot :=
  s <- get ;;
  match status_items (st_ext s) !! i with
  | Some it => ret it
  | None => throw TypeError
  end.

(** The body of the loop of lines 112-116 for index [i]: each field
    reads [this._status_items[i]] again. *)
Definition write_item (i : nat) (f : status_info) : M unit :=
  it0 <- item_at i ;; set_text it0.1.1 (JStr (si_label f)) ;;;
  it1 <- item_at i ;; set_text it1.1.2 (si_value f) ;;;
  it2 <- item_at i ;; set_text it2.2 (JStr (si_unit f)).

(** The loop of lines 112-116, from index [i]. *)
Fixpoint write_fields (i : nat) (infos : list status_info) : M unit :=
  match infos with
  | [] => ret tt
  | f :: rest => write_item i f ;;; write_fields (S i) rest
  end.

(** [_update_status(status_infos)].  The guard [!status_infos] of line
    103 never holds: the parser always returns an array, and arrays are
    truthy. *)
Definition _update_status (infos : list status_info) : M unit :=
  s1 <- get ;;
  (if length (status_items (st_ext s1)) <? length infos
   then _create_status_items (length infos - length (status_items (st_ext s1)))
   else ret tt) ;;;
  s2 <- get ;;
  (if length infos <? length (status_items (st_ext s2))
   then _remove_status_items (length (status_items (st_ext s2)) - length infos)
   else ret tt) ;;;
  write_fields 0 infos.

(** ** Invariant of the slots *)

Definition slot_ids (items : list slot) : list nat :=
  concat (map (fun it => [it.1.1; it.1.2; it.2]) items).

(** A label of the extension: alive, in the display box. *)
Definition is_slot_label (b : nat) (a : actor) : Prop :=
  (exists sc al, a_kind a = KLabel sc al) /\ a_alive a = true /\ a_parent a = Some b.

(** The display invariant: the box exists; the widgets of the slots are
    distinct, allocated, alive labels in the box; every live label is a
    slot widget; identities from [next_id] on are unused. *)
Record slots_wf (b : nat) (s : state) : Prop := {
  wf_box : display_box (st_ext s) = Some b;
  wf_nodup : NoDup (slot_ids (status_items (st_ext s)));
  wf_labels : forall id, id ∈ slot_ids (status_items (st_ext s)) ->
                exists a, actors (st_world s) !! id = Some a /\ is_slot_label b a;
  wf_owned : forall id a sc al, actors (st_world s) !! id = Some a ->
                a_kind a = KLabel sc al -> a_alive a = true ->
                id ∈ slot_ids (status_items (st_ext s));
  wf_fresh : forall id, next_id (st_world s) <= id -> actors (st_world s) !! id = None;
  wf_area : forall p, status_area (st_world s) = Some p ->
              p < next_id (st_world s) /\ p ∉ slot_ids (status_items (st_ext s))
}.

(** Display code leaves these alone: the supervisor's fields and the
    world outside the actor heap. *)
Definition display_frame (s s' : state) : Prop :=
  running (st_ext s') = running (st_ext s) /\ i3status (st_ext s') = i3status (st_ext s) /\
  filter_names (st_ext s') = filter_names (st_ext s) /\
  display_box (st_ext s') = display_box (st_ext s) /\
  status_panel (st_ext s') = status_panel (st_ext s) /\
  status_area (st_world s') = status_area (st_world s) /\
  spawned (st_world s') = spawned (st_world s) /\
  closed_pids (st_world s') = closed_pids (st_world s) /\
  closed_fds (st_world s') = closed_fds (st_world s) /\
  pending (st_world s') = pending (st_world s) /\ logs (st_world s') = logs (st_world s).

Lemma display_frame_refl s : display_frame s s.
Proof. by repeat split. Qed.

Lemma display_frame_trans s1 s2 s3 :
  display_frame s1 s2 -> display_frame s2 s3 -> display_frame s1 s3.
Proof. unfold display_frame. intros. destruct_and!. split_and!; congruence. Qed.

#[export] Hint Resolve display_frame_refl : js.

(** ** Creating, removing and writing slots *)

Lemma slot_ids_app l1 l2 : slot_ids (l1 ++ l2) = slot_ids l1 ++ slot_ids l2.
Proof. unfold slot_ids. by rewrite map_app, concat_app. Qed.

Lemma elem_of_slot_ids_one x l t u : x ∈ slot_ids [(l, t, u)] <-> x = l \/ x = t \/ x = u.
Proof. unfold slot_ids. simpl. rewrite !elem_of_cons, elem_of_nil. tauto. Qed.

(** Slot widgets are allocated below [next_id]. *)
Lemma wf_below b s id : slots_wf b s -> id ∈ slot_ids (status_items (st_ext s)) -> id < next_id (st_world s).
Proof.
  intros Hwf Hin. destruct (wf_labels _ _ Hwf id Hin) as (a & Ha & _).
  destruct (decide (id < next_id (st_world s))) as [|Hge]; [done|].
  rewrite (wf_fresh _ _ Hwf id) in Ha by lia. done.
Qed.

Lemma create_one_spec b s :
  slots_wf b s ->
  exists s', create_one s = (Ok tt, s') /\ slots_wf b s' /\ display_frame s s' /\
    status_items (st_ext s') = status_items (st_ext s) ++
      [(next_id (st_world s), S (next_id (st_world s)), S (S (next_id (st_world s))))] /\
    next_id (st_world s') = 3 + next_id (st_world s) /\
    (forall id, id < next_id (st_world s) -> actors (st_world s') !! id = actors (st_world s) !! id).
Proof.
  intros Hwf. pose proof (fun id => wf_below b s id Hwf) as Hlt. destruct Hwf as [Hb Hnd Hlab Hown Hfr Har].
  destruct s as [[run h fn items box panel] [acts nid area sp cp cf pend lg]]; simpl in *. subst box.
  eexists. split.
  { unfold create_one, push_item. host_unfold. reflexivity. }
  set (lab := fun sc al => reparent (Some b) (fresh_actor (KLabel sc al))).
  assert (Hlk : forall id,
     alter (reparent (Some b)) (S (S nid)) (alter (reparent (Some b)) (S nid) (alter (reparent (Some b)) nid
       (<[S (S nid) := fresh_actor (KLabel (str "status-label") AlignCenter)]>
       (<[S nid := fresh_actor (KLabel (str "status-value") AlignCenter)]>
       (<[nid := fresh_actor (KLabel (str "status-label") AlignStart)]> acts))))) !! id
     = if decide (id = nid) then Some (lab (str "status-label") AlignStart)
       else if decide (id = S nid) then Some (lab (str "status-value") AlignCenter)
       else if decide (id = S (S nid)) then Some (lab (str "status-label") AlignCenter)
       else acts !! id).
  { intros id. rewrite !lookup_alter, !lookup_insert. repeat case_decide; subst; simpl; try lia; done. }
  simpl. split_and!.
  - constructor; simpl; [done|..].
    + rewrite slot_ids_app. simpl. apply NoDup_app. split_and!; [done| |].
      * intros x Hx Hx2. apply Hlt in Hx. apply elem_of_slot_ids_one in Hx2. lia.
      * unfold slot_ids. simpl. repeat constructor; rewrite ?elem_of_cons, ?elem_of_nil; lia.
    + intros id. rewrite slot_ids_app, elem_of_app, Hlk, elem_of_slot_ids_one.
      intros [Hin|Hin].
      * pose proof (Hlt _ Hin). repeat case_decide; try lia. by apply Hlab.
      * repeat case_decide; try lia; eexists; (split; [done|]); split_and!; by eauto.
    + intros id a sc al. rewrite Hlk, slot_ids_app, elem_of_app, elem_of_slot_ids_one.
      repeat case_decide; subst; try (intros; right; tauto).
      intros Ha Hk Hal. left. by eapply Hown.
    + intros id Hid. rewrite Hlk. repeat case_decide; try lia. apply Hfr. lia.
    + intros p Hp. destruct (Har p Hp) as [Hp1 Hp2]. split; [lia|].
      rewrite slot_ids_app, elem_of_app, elem_of_slot_ids_one. intros [|]; [done|lia].
  - by repeat split.
  - done.
  - done.
  - intros id Hid. rewrite Hlk. repeat case_decide; lia || done.
Qed.

(** The slots [k] calls of [create_one] push, from identity [n] on. *)
Fixpoint fresh_slots (n k : nat) : list slot :=
  match k with
  | O => []
  | S k' => (n, S n, S (S n)) :: fresh_slots (3 + n) k'
  end.

Lemma create_status_items_spec b k s :
  slots_wf b s ->
  exists s', _create_status_items k s = (Ok tt, s') /\ slots_wf b s' /\ display_frame s s' /\
    status_items (st_ext s') = status_items (st_ext s) ++ fresh_slots (next_id (st_world s)) k /\
    next_id (st_world s') = 3 * k + next_id (st_world s) /\
    (forall id, id < next_id (st_world s) -> actors (st_world s') !! id = actors (st_world s) !! id).
Proof.
  revert s. induction k as [|k IH]; intros s Hwf.
  - exists s. simpl. rewrite app_nil_r. split_and!; auto with js.
  - destruct (create_one_spec b s Hwf) as (s1 & Hc & Hwf1 & Hf1 & Hi1 & Hn1 & Hl1).
    destruct (IH s1 Hwf1) as (s2 & Hc2 & Hwf2 & Hf2 & Hi2 & Hn2 & Hl2).
    exists s2. unfold _create_status_items. simpl. rewrite (bind_ok _ _ _ _ _ Hc).
    split_and!; [done | done | by eapply display_frame_trans | | lia |].
    + rewrite Hi2, Hi1, Hn1, <- app_assoc. done.
    + intros id Hid. rewrite Hl2 by lia. by apply Hl1.
Qed.

(** Dropping the last slot and killing its three labels keeps the
    invariant. *)
Lemma slots_wf_drop_last b s items0 l t u acts' :
  slots_wf b s -> status_items (st_ext s) = items0 ++ [(l, t, u)] ->
  (forall id, acts' !! id = if decide (id = l \/ id = t \/ id = u)
                            then killed <$> actors (st_world s) !! id else actors (st_world s) !! id) ->
  slots_wf b {| st_ext := ext_with_items items0 (st_ext s);
                st_world := world_with_actors acts' (st_world s) |}.
Proof.
  intros [Hb Hnd Hlab Hown Hfr Har] Hi Hlk. rewrite Hi, slot_ids_app in Hnd, Hlab, Hown, Har.
  apply NoDup_app in Hnd as (Hnd0 & Hdisj & _).
  destruct s as [e w]; simpl in *. constructor; simpl.
  - by destruct e.
  - by destruct e.
  - intros id Hid. destruct e; simpl in *. rewrite Hlk, decide_False
      by (rewrite <- elem_of_slot_ids_one; intros Hn; by apply (Hdisj id)).
    apply Hlab, elem_of_app. by left.
  - intros id a sc al. destruct e; simpl in *. rewrite Hlk. case_decide.
    + destruct (actors w !! id); simpl; intros [= <-]; done.
    + rewrite <- elem_of_slot_ids_one in *. intros Ha Hk Hal.
      destruct (proj1 (elem_of_app _ _ id) (Hown id a sc al Ha Hk Hal)); done.
  - intros id Hid. rewrite Hlk, (Hfr id Hid). by case_decide.
  - intros p Hp. destruct e; simpl in *. destruct (Har p Hp) as [Hp1 Hp2]. split; [done|].
    intros Hin. apply Hp2, elem_of_app. by left.
Qed.

Lemma remove_one_spec b s items0 l t u :
  slots_wf b s -> status_items (st_ext s) = items0 ++ [(l, t, u)] ->
  exists s', remove_one s = (Ok tt, s') /\ slots_wf b s' /\ display_frame s s' /\
    status_items (st_ext s') = items0 /\ next_id (st_world s') = next_id (st_world s) /\
    (forall id, id ∉ slot_ids [(l, t, u)] -> actors (st_world s') !! id = actors (st_world s) !! id) /\
    (forall id, id ∈ slot_ids [(l, t, u)] ->
       exists a, actors (st_world s') !! id = Some a /\ a_alive a = false).
Proof.
  intros Hwf Hi.
  assert (Har' : forall id, id ∈ slot_ids [(l, t, u)] -> status_area (st_world s) <> Some id).
  { intros id Hid Ha. destruct (wf_area _ _ Hwf id Ha) as [_ Hn]. apply Hn.
    rewrite Hi, slot_ids_app, elem_of_app. by right. }
  pose proof (Har' l) as Hl. pose proof (Har' t) as Ht. pose proof (Har' u) as Hu.
  rewrite !elem_of_slot_ids_one in Hl, Ht, Hu.
  set (acts' := alter killed u (alter killed t (alter killed l (actors (st_world s))))).
  assert (Hlk : forall id, acts' !! id =
            if decide (id = l \/ id = t \/ id = u) then killed <$> actors (st_world s) !! id
            else actors (st_world s) !! id).
  { intros id. subst acts'. rewrite !lookup_alter.
    repeat case_decide; subst; try done;
      try (exfalso; intuition congruence);
      destruct (actors (st_world s) !! _); simpl; try done; unfold killed; simpl; done. }
  exists {| st_ext := ext_with_items items0 (st_ext s); st_world := world_with_actors acts' (st_world s) |}.
  split_and!.
  - destruct s as [[run h fn items box panel] [acts nid area sp cp cf pend lg]]; simpl in *. subst items.
    unfold remove_one, pop_item. host_unfold. rewrite last_snoc. simpl.
    rewrite removelast_last. simpl.
    rewrite (bool_decide_false (area = Some l)) by tauto. simpl.
    rewrite (bool_decide_false (area = Some t)) by tauto. simpl.
    rewrite (bool_decide_false (area = Some u)) by tauto. reflexivity.
  - by eapply slots_wf_drop_last.
  - destruct s as [[] []]. by repeat split.
  - by destruct s as [[] []].
  - by destruct s as [[] []].
  - intros id Hid. cbn [st_world world_with_actors actors]. rewrite Hlk.
    by rewrite decide_False by (by rewrite <- elem_of_slot_ids_one).
  - intros id Hid. cbn [st_world world_with_actors actors].
    rewrite Hlk, decide_True by (by rewrite <- elem_of_slot_ids_one).
    destruct (wf_labels _ _ Hwf id) as (a & -> & _).
    { rewrite Hi, slot_ids_app, elem_of_app. by right. }
    by eexists.
Qed.

Lemma remove_status_items_spec b k s pre suf :
  slots_wf b s -> status_items (st_ext s) = pre ++ suf -> length suf = k ->
  exists s', _remove_status_items k s = (Ok tt, s') /\ slots_wf b s' /\ display_frame s s' /\
    status_items (st_ext s') = pre /\ next_id (st_world s') = next_id (st_world s) /\
    (forall id, id ∉ slot_ids suf -> actors (st_world s') !! id = actors (st_world s) !! id) /\
    (forall id, id ∈ slot_ids suf ->
       exists a, actors (st_world s') !! id = Some a /\ a_alive a = false).
Proof.
  revert s suf. induction k as [|k IH]; intros s suf Hwf Hi Hk.
  - destruct suf; [|done]. rewrite app_nil_r in Hi. exists s.
    split_and!; auto with js. intros id Hid. by apply elem_of_nil in Hid.
  - destruct suf as [|x suf' _] using rev_ind; [done|].
    rewrite length_app in Hk. simpl in Hk. destruct x as [[l t] u].
    pose proof (wf_nodup _ _ Hwf) as Hnd. rewrite Hi, !slot_ids_app in Hnd.
    apply NoDup_app in Hnd as (_ & _ & Hnd). apply NoDup_app in Hnd as (_ & Hdisj & _).
    rewrite app_assoc in Hi.
    destruct (remove_one_spec b s _ l t u Hwf Hi) as (s1 & Hr & Hwf1 & Hf1 & Hi1 & Hn1 & Hu1 & Hk1).
    destruct (IH s1 suf' Hwf1 Hi1 ltac:(lia)) as (s2 & Hr2 & Hwf2 & Hf2 & Hi2 & Hn2 & Hu2 & Hk2).
    exists s2. unfold _remove_status_items. simpl. rewrite (bind_ok _ _ _ _ _ Hr).
    split_and!; [done | done | by eapply display_frame_trans | done | congruence | |].
    + intros id Hid. rewrite slot_ids_app, elem_of_app in Hid.
      rewrite Hu2 by tauto. apply Hu1. tauto.
    + intros id Hid. rewrite slot_ids_app, elem_of_app in Hid. destruct Hid as [Hid|Hid].
      * by apply Hk2.
      * rewrite Hu2 by (intros Hin; by apply (Hdisj id)). by apply Hk1.
Qed.

(** ** What the panel shows *)

Definition text_at (s : state) (id : nat) : option jsstr := a_text <$> actors (st_world s) !! id.

Definition slot_view (s : state) (x : slot) : option jsstr * option jsstr * option jsstr :=
  (text_at s x.1.1, text_at s x.1.2, text_at s x.2).

(** The abstract display: the texts of the slots, in order. *)
Definition view (s : state) := slot_view s <$> status_items (st_ext s).

(** What a field should look like on the panel. *)
Definition info_view (f : status_info) : option jsstr * option jsstr * option jsstr :=
  (Some (si_label f), match si_value f with JStr v => Some v | _ => None end, Some (si_unit f)).

Definition value_is_string (f : status_info) : bool :=
  match si_value f with JStr _ => true | _ => false end.

(** [label.set_text(x)] on the state. *)
Definition retext_at (id : nat) (x : jsstr) (s : state) : state :=
  {| st_ext := st_ext s;
     st_world := world_with_actors (alter (retext x) id (actors (st_world s))) (st_world s) |}.

(** The invariant as a boolean test, to check it on a concrete state. *)
Definition is_labelb (a : actor) : bool :=
  match a_kind a with KLabel _ _ => true | _ => false end.

Definition slots_wfb (b : nat) (s : state) : bool :=
  let items := status_items (st_ext s) in
  let nid := next_id (st_world s) in
  bool_decide (display_box (st_ext s) = Some b) &&
  bool_decide (NoDup (slot_ids items)) &&
  forallb (fun id => match actors (st_world s) !! id with
                     | Some a => is_labelb a && a_alive a && bool_decide (a_parent a = Some b)
                     | None => false
                     end) (slot_ids items) &&
  forallb (fun '(id, a) => (id <? nid) &&
             (negb (is_labelb a && a_alive a) || bool_decide (id ∈ slot_ids items)))
          (map_to_list (actors (st_world s))) &&
  match status_area (st_world s) with
  | None => true
  | Some p => (p <? nid) && bool_decide (p ∉ slot_ids items)
  end.

Lemma slots_wfb_sound b s : slots_wfb b s = true -> slots_wf b s.
Proof.
  unfold slots_wfb. rewrite !andb_true_iff, !forallb_forall.
  intros [[[[Hb%bool_decide_eq_true_1 Hnd%bool_decide_eq_true_1] Hlab] Hown] Har].
  constructor; [done|done|..].
  - intros id Hid. specialize (Hlab id (proj1 (list_elem_of_In _ _) Hid)).
    destruct (actors (st_world s) !! id) as [a|]; [|done].
    rewrite !andb_true_iff, bool_decide_eq_true in Hlab. destruct Hlab as [[Hk Hal] Hp].
    exists a. split; [done|]. unfold is_labelb in Hk.
    split_and!; [|done|done]. destruct (a_kind a); by eauto.
  - intros id a sc al Ha Hk Hal.
    specialize (Hown (id, a) (proj1 (list_elem_of_In _ _) (proj2 (elem_of_map_to_list _ _ _) Ha))).
    unfold is_labelb in Hown. rewrite Hk, Hal in Hown.
    rewrite andb_true_iff, orb_true_iff, bool_decide_eq_true in Hown. by destruct Hown as [_ [?|?]].
  - intros id Hid. destruct (actors (st_world s) !! id) as [a|] eqn:Ha; [|done].
    specialize (Hown (id, a) (proj1 (list_elem_of_In _ _) (proj2 (elem_of_map_to_list _ _ _) Ha))).
    rewrite andb_true_iff, Nat.ltb_lt in Hown. lia.
  - intros p Hp. rewrite Hp, andb_true_iff, Nat.ltb_lt, bool_decide_eq_true in Har. done.
Qed.

Lemma lookup_slot_ids items i l t u :
  items !! i = Some (l, t, u) ->
  slot_ids items !! (3 * i) = Some l /\ slot_ids items !! (3 * i + 1) = Some t /\
  slot_ids items !! (3 * i + 2) = Some u.
Proof.
  revert i. induction items as [|x items IH]; intros [|i] Hi; try done; simpl in Hi.
  - simplify_eq. unfold slot_ids. simpl. done.
  - replace (3 * S i) with (3 + 3 * i) by lia. apply IH in Hi. done.
Qed.

Lemma slot_ids_lookup_eq items i j x y id :
  NoDup (slot_ids items) -> items !! i = Some x -> items !! j = Some y ->
  id ∈ slot_ids [x] -> id ∈ slot_ids [y] -> i = j.
Proof.
  intros Hnd Hx Hy Hix Hiy. destruct x as [[l t] u], y as [[l' t'] u'].
  apply lookup_slot_ids in Hx as (? & ? & ?). apply lookup_slot_ids in Hy as (? & ? & ?).
  rewrite elem_of_slot_ids_one in Hix, Hiy.
  destruct Hix as [-> | [-> | ->]]; destruct Hiy as [<- | [<- | <-]];
  match goal with
  | H1 : _ !! ?a = Some ?v, H2 : _ !! ?b = Some ?v |- _ =>
      pose proof (NoDup_lookup _ _ _ _ Hnd H1 H2); lia
  end.
Qed.

Lemma slot_distinct items i l t u :
  NoDup (slot_ids items) -> items !! i = Some (l, t, u) -> l <> t /\ t <> u /\ l <> u.
Proof.
  intros Hnd Hi. apply lookup_slot_ids in Hi as (H1 & H2 & H3).
  split_and!; intros ->;
  match goal with
  | H1 : _ !! ?a = Some ?v, H2 : _ !! ?b = Some ?v |- _ =>
      pose proof (NoDup_lookup _ _ _ _ Hnd H1 H2); lia
  end.
Qed.

Lemma retext_at_ne id id' x s :
  id <> id' -> actors (st_world (retext_at id x s)) !! id' = actors (st_world s) !! id'.
Proof. intros. by apply lookup_alter_ne. Qed.

Lemma text_at_retext_at_ne id id' x s :
  id <> id' -> text_at (retext_at id x s) id' = text_at s id'.
Proof. intros. unfold text_at. by rewrite retext_at_ne. Qed.

Lemma text_at_retext_at id x s a :
  actors (st_world s) !! id = Some a -> text_at (retext_at id x s) id = Some x.
Proof. intros Ha. unfold text_at. simpl. by rewrite lookup_alter_eq, Ha. Qed.

Lemma retext_at_same id x s : text_at s id = Some x -> retext_at id x s = s.
Proof.
  destruct s as [e w]. unfold retext_at, text_at. simpl. intros Ht.
  f_equal. destruct w; simpl in *. f_equal. apply alter_id.
  intros [k t' al p] Ha. rewrite Ha in Ht. simpl in Ht. by simplify_eq.
Qed.

Lemma wf_retext_at b s id x : slots_wf b s -> slots_wf b (retext_at id x s).
Proof.
  intros [Hb Hnd Hlab Hown Hfr Har]. constructor; simpl; [done|done|..].
  - intros id' Hin. rewrite lookup_alter. destruct (Hlab id' Hin) as (a & Ha & Hl).
    case_decide; subst; rewrite Ha; by eexists.
  - intros id' a sc al. rewrite lookup_alter. case_decide; [|apply Hown].
    subst. destruct (actors (st_world s) !! id') as [a0|] eqn:Ha0; simpl; intros; simplify_eq.
    by eapply (Hown _ a0).
  - intros id' Hid. rewrite lookup_alter. case_decide; subst; by rewrite Hfr.
  - done.
Qed.

Lemma write_item_ok s i f l t u v :
  status_items (st_ext s) !! i = Some (l, t, u) -> si_value f = JStr v ->
  write_item i f s = (Ok tt, retext_at u (si_unit f) (retext_at t v (retext_at l (si_label f) s))).
Proof.
  destruct s as [[run h fn items box panel] w]; simpl. intros Hi Hv.
  unfold write_item, item_at. host_unfold. cbn. rewrite Hi. cbn. rewrite Hv. cbn. rewrite Hi. cbn. rewrite Hi. reflexivity.
Qed.

Lemma write_item_throw s i f l t u :
  status_items (st_ext s) !! i = Some (l, t, u) -> value_is_string f = false ->
  write_item i f s = (Throw TypeError, retext_at l (si_label f) s).
Proof.
  destruct s as [[run h fn items box panel] w]; simpl. intros Hi Hv.
  unfold write_item, item_at. host_unfold. cbn. rewrite Hi. cbn.
  unfold value_is_string in Hv. destruct (si_value f); try done; rewrite Hi; reflexivity.
Qed.

Lemma slot_view_eq s s' x :
  (forall id, id ∈ slot_ids [x] -> actors (st_world s') !! id = actors (st_world s) !! id) ->
  slot_view s' x = slot_view s x.
Proof.
  destruct x as [[l t] u]. intros Heq. unfold slot_view, text_at. simpl.
  rewrite !Heq by (rewrite elem_of_slot_ids_one; tauto). done.
Qed.

Lemma elem_of_slot_ids_lookup items i x id :
  items !! i = Some x -> id ∈ slot_ids [x] -> id ∈ slot_ids items.
Proof.
  intros Hi Hid. rewrite <- (take_drop_middle _ _ _ Hi), slot_ids_app.
  change (x :: ?r) with ([x] ++ r). rewrite slot_ids_app, !elem_of_app. tauto.
Qed.

Lemma write_item_spec b s i f l t u v :
  slots_wf b s -> status_items (st_ext s) !! i = Some (l, t, u) -> si_value f = JStr v ->
  let s1 := retext_at u (si_unit f) (retext_at t v (retext_at l (si_label f) s)) in
  slots_wf b s1 /\ display_frame s s1 /\ status_items (st_ext s1) = status_items (st_ext s) /\
  next_id (st_world s1) = next_id (st_world s) /\
  (forall id, id ∉ slot_ids [(l, t, u)] -> actors (st_world s1) !! id = actors (st_world s) !! id) /\
  slot_view s1 (l, t, u) = info_view f.
Proof.
  intros Hwf Hi Hv s1. pose proof (slot_distinct _ _ _ _ _ (wf_nodup _ _ Hwf) Hi) as (Hlt & Htu & Hlu).
  assert (Hin : forall id, id ∈ slot_ids [(l, t, u)] -> exists a, actors (st_world s) !! id = Some a).
  { intros id Hid. destruct (wf_labels _ _ Hwf id) as (a & Ha & _); [|by eexists].
    by eapply elem_of_slot_ids_lookup. }
  split_and!.
  - by do 3 apply wf_retext_at.
  - by repeat split.
  - done.
  - done.
  - intros id Hid. rewrite elem_of_slot_ids_one in Hid. subst s1.
    rewrite !retext_at_ne by intuition congruence. done.
  - destruct (Hin l) as [al Hal]; [rewrite elem_of_slot_ids_one; tauto|].
    destruct (Hin t) as [at' Hat]; [rewrite elem_of_slot_ids_one; tauto|].
    destruct (Hin u) as [au Hau]; [rewrite elem_of_slot_ids_one; tauto|].
    unfold slot_view, info_view. cbn [fst snd]. subst s1. rewrite Hv.
    rewrite !(text_at_retext_at_ne u) by done. rewrite (text_at_retext_at_ne t) by done.
    erewrite (text_at_retext_at l), (text_at_retext_at t), (text_at_retext_at u); try done.
    + rewrite !retext_at_ne by done. eassumption.
    + rewrite retext_at_ne by done. eassumption.
Qed.

Lemma write_fields_spec b infos i s :
  slots_wf b s -> Forall (fun f => value_is_string f = true) infos ->
  i + length infos <= length (status_items (st_ext s)) ->
  exists s', write_fields i infos s = (Ok tt, s') /\ slots_wf b s' /\ display_frame s s' /\
    status_items (st_ext s') = status_items (st_ext s) /\
    next_id (st_world s') = next_id (st_world s) /\
    (forall id, (forall j x, i <= j -> j < i + length infos ->
                   status_items (st_ext s) !! j = Some x -> id ∉ slot_ids [x]) ->
       actors (st_world s') !! id = actors (st_world s) !! id) /\
    (forall j f x, infos !! j = Some f -> status_items (st_ext s) !! (i + j) = Some x ->
       slot_view s' x = info_view f).
Proof.
  revert i s. induction infos as [|f rest IH]; intros i s Hwf Hstr Hlen.
  - exists s. split_and!; auto with js. by intros j f x [=].
  - apply Forall_cons in Hstr as [Hf Hstr]. simpl in Hlen.
    unfold value_is_string in Hf. destruct (si_value f) as [| | |v| |] eqn:Hv; try done.
    destruct (lookup_lt_is_Some_2 (status_items (st_ext s)) i) as [[[l t] u] Hi]; [lia|].
    destruct (write_item_spec b s i f l t u v Hwf Hi Hv) as (Hwf1 & Hf1 & Hi1 & Hn1 & Hu1 & Hv1).
    set (s1 := retext_at u _ _) in *.
    destruct (IH (S i) s1 Hwf1 Hstr ltac:(rewrite Hi1; lia))
      as (s2 & Hw2 & Hwf2 & Hf2 & Hi2 & Hn2 & Hu2 & Hv2).
    rewrite Hi1 in Hu2, Hv2.
    exists s2. cbn [write_fields]. rewrite (bind_ok _ _ _ _ _ (write_item_ok s i f l t u v Hi Hv)).
    split_and!; [done | done | by eapply display_frame_trans | congruence | congruence | |].
    + intros id Hid. rewrite Hu2, Hu1; [done| |].
      * apply (Hid i); simpl; [lia|lia|done].
      * intros j x ? ? ?. apply (Hid j); simpl; [lia|lia|done].
    + intros [|j] g x Hg Hx.
      * simplify_eq/=. rewrite Nat.add_0_r, Hi in Hx. simplify_eq.
        rewrite <- Hv1. apply slot_view_eq. intros id Hid. apply Hu2.
        intros j y ? ? Hy Hid'.
        pose proof (slot_ids_lookup_eq _ _ _ _ _ _ (wf_nodup _ _ Hwf) Hi Hy Hid Hid'). lia.
      * apply (Hv2 j); [done|]. by replace (S i + j) with (i + S j) by lia.
Qed.

Lemma write_fields_app i l1 l2 s :
  write_fields i (l1 ++ l2) s =
  match write_fields i l1 s with
  | (Ok _, s1) => write_fields (i + length l1) l2 s1
  | (Throw e, s1) => (Throw e, s1)
  end.
Proof.
  revert i s. induction l1 as [|f l1 IH]; intros i s; simpl.
  - by rewrite Nat.add_0_r.
  - unfold bind. destruct (write_item i f s) as [[]  s1]; [|done].
    rewrite IH. by rewrite Nat.add_succ_r.
Qed.

(** Writing what the slots already show changes nothing. *)
Lemma write_fields_noop infos i s :
  Forall (fun f => value_is_string f = true) infos ->
  (forall j f, infos !! j = Some f -> exists x,
     status_items (st_ext s) !! (i + j) = Some x /\ slot_view s x = info_view f) ->
  write_fields i infos s = (Ok tt, s).
Proof.
  revert i. induction infos as [|f rest IH]; intros i Hstr Hv; [done|].
  apply Forall_cons in Hstr as [Hf Hstr]. cbn [write_fields].
  destruct (Hv 0 f eq_refl) as ([[l t] u] & Hi & Hx). rewrite Nat.add_0_r in Hi.
  unfold value_is_string in Hf. destruct (si_value f) as [| | |v| |] eqn:Hsv; try done.
  rewrite (bind_ok _ _ _ _ _ (write_item_ok s i f l t u v Hi Hsv)).
  unfold slot_view, info_view in Hx. cbn [fst snd] in Hx. rewrite Hsv in Hx. simplify_eq.
  rewrite (retext_at_same l), (retext_at_same t), (retext_at_same u) by done.
  apply IH; [done|]. intros j g Hg. replace (S i + j) with (i + S j) by lia. by apply (Hv (S j)).
Qed.

Lemma length_fresh_slots n k : length (fresh_slots n k) = k.
Proof. revert n. induction k; intros n; simpl; auto. Qed.

Lemma length_resized (items : list slot) n k : length (take k items ++ fresh_slots n (k - length items)) = k.
Proof. rewrite length_app, length_take, length_fresh_slots. lia. Qed.

Lemma view_eq s infos :
  length (status_items (st_ext s)) = length infos ->
  (forall j f x, infos !! j = Some f -> status_items (st_ext s) !! j = Some x ->
     slot_view s x = info_view f) ->
  view s = info_view <$> infos.
Proof.
  intros Hlen Hv. apply list_eq. intros j. unfold view. rewrite !list_lookup_fmap.
  destruct (infos !! j) as [f|] eqn:Hf.
  - destruct (lookup_lt_is_Some_2 (status_items (st_ext s)) j) as [x Hx].
    { rewrite Hlen. by eapply lookup_lt_Some. }
    rewrite Hx. simpl. f_equal. by eapply Hv.
  - apply lookup_ge_None in Hf. rewrite lookup_ge_None_2 by lia. done.
Qed.

(** The last phase of [_update_status] once the slot count is right. *)
Lemma write_all_spec b s infos :
  slots_wf b s -> Forall (fun f => value_is_string f = true) infos ->
  length (status_items (st_ext s)) = length infos ->
  exists s', write_fields 0 infos s = (Ok tt, s') /\ slots_wf b s' /\ display_frame s s' /\
    status_items (st_ext s') = status_items (st_ext s) /\ view s' = info_view <$> infos /\
    (forall id, id ∉ slot_ids (status_items (st_ext s)) ->
       actors (st_world s') !! id = actors (st_world s) !! id).
Proof.
  intros Hwf Hstr Hlen.
  destruct (write_fields_spec b infos 0 s Hwf Hstr ltac:(lia))
    as (s' & Hw & Hwf' & Hf & Hi & _ & Hu & Hv).
  exists s'. split_and!; try done.
  - apply view_eq; [by rewrite Hi|]. intros j f x Hj Hx. apply (Hv j); [done|]. by rewrite <- Hi.
  - intros id Hid. apply Hu. intros j x _ _ Hx Hin. apply Hid. by eapply elem_of_slot_ids_lookup.
Qed.

(** The first two phases of [_update_status]: after them the slot count
    is the field count, new slots are fresh labels and the slots
    beyond it are destroyed. *)
Lemma update_status_resize b s infos :
  slots_wf b s ->
  let items := status_items (st_ext s) in
  exists s2, _update_status infos s = write_fields 0 infos s2 /\ slots_wf b s2 /\
    display_frame s s2 /\
    status_items (st_ext s2) = take (length infos) items ++
      fresh_slots (next_id (st_world s)) (length infos - length items) /\
    (forall id, id ∈ slot_ids (drop (length infos) items) ->
       (id ∉ slot_ids (status_items (st_ext s2))) /\
       (exists a, actors (st_world s2) !! id = Some a /\ a_alive a = false)) /\
    (length items = length infos -> s2 = s).
Proof.
  intros Hwf items. unfold _update_status. cbv [bind get]. fold items.
  destruct (Nat.ltb_spec (length items) (length infos)) as [Hlt|Hge].
  - destruct (create_status_items_spec b (length infos - length items) s Hwf)
      as (s1 & Hc & Hwf1 & Hf1 & Hi1 & _ & _).
    rewrite Hc. simpl. fold items in Hi1.
    assert (Hl1 : length (status_items (st_ext s1)) = length infos)
      by (rewrite Hi1, length_app, length_fresh_slots; lia).
    rewrite Hl1, Nat.ltb_irrefl. exists s1. split_and!; try done; [..|lia].
    + by rewrite Hi1, take_ge by lia.
    + rewrite drop_ge by lia. by intros id ?%elem_of_nil.
  - simpl. fold items.
    destruct (Nat.ltb_spec (length infos) (length items)) as [Hlt2|Hge2].
    + destruct (remove_status_items_spec b (length items - length infos) s
                  (take (length infos) items) (drop (length infos) items) Hwf
                  (eq_sym (take_drop _ _)) ltac:(rewrite length_drop; lia))
        as (s2 & Hr & Hwf2 & Hf2 & Hi2 & _ & _ & Hk2).
      rewrite Hr. exists s2. split_and!; try done; [..|lia].
      * replace (length infos - length items) with 0 by lia. by rewrite Hi2, app_nil_r.
      * intros id Hid. split; [|by apply Hk2]. rewrite Hi2. intros Hin.
        pose proof (wf_nodup _ _ Hwf) as Hnd. fold items in Hnd.
        rewrite <- (take_drop (length infos) items), slot_ids_app in Hnd.
        apply NoDup_app in Hnd as (_ & Hdisj & _). by apply (Hdisj id).
    + exists s. split_and!; auto with js.
      * replace (length infos - length items) with 0 by lia.
        by rewrite app_nil_r, take_ge by lia.
      * rewrite drop_ge by lia. by intros id ?%elem_of_nil.
Qed.

(** C1: [_update_status] reconciles the slots with the fields.  From a
    state satisfying the display invariant, with every value a string,
    it returns normally in a state satisfying the invariant; the slots
    are the first [length infos] old slots followed by fresh ones (only
    the tail changes); the panel shows, slot by slot, each field's
    label, value and unit; the labels of the dropped slots are
    destroyed; the supervisor's fields, the status area, the processes
    and the log are untouched. *)
Theorem update_status_spec b s infos :
  slots_wf b s -> Forall (fun f => value_is_string f = true) infos ->
  exists s', _update_status infos s = (Ok tt, s') /\ slots_wf b s' /\ display_frame s s' /\
    status_items (st_ext s') = take (length infos) (status_items (st_ext s)) ++
      fresh_slots (next_id (st_world s)) (length infos - length (status_items (st_ext s))) /\
    view s' = info_view <$> infos /\
    (forall id, id ∈ slot_ids (drop (length infos) (status_items (st_ext s))) ->
       exists a, actors (st_world s') !! id = Some a /\ a_alive a = false).
Proof.
  intros Hwf Hstr. destruct (update_status_resize b s infos Hwf) as (s2 & -> & Hwf2 & Hf2 & Hi2 & Hk2 & _).
  assert (Hl2 : length (status_items (st_ext s2)) = length infos).
  { by rewrite Hi2, length_resized. }
  destruct (write_all_spec b s2 infos Hwf2 Hstr Hl2) as (s' & Hw & Hwf' & Hf' & Hi' & Hv & Hu).
  exists s'. split_and!; try done.
  - by eapply display_frame_trans.
  - congruence.
  - intros id Hid. destruct (Hk2 id Hid) as [Hn Hd]. by rewrite Hu.
Qed.

(** The outcome of a successful update: the invariant and the view. *)
Lemma update_status_view b s s' infos :
  slots_wf b s -> Forall (fun f => value_is_string f = true) infos ->
  _update_status infos s = (Ok tt, s') -> slots_wf b s' /\ view s' = info_view <$> infos.
Proof.
  intros Hwf Hstr Hrun. destruct (update_status_resize b s infos Hwf) as (s2 & Hu & Hwf2 & _ & Hi2 & _).
  assert (Hl2 : length (status_items (st_ext s2)) = length infos).
  { by rewrite Hi2, length_resized. }
  destruct (write_all_spec b s2 infos Hwf2 Hstr Hl2) as (s'' & Hw & Hwf' & _ & _ & Hv & _).
  rewrite Hu, Hw in Hrun. by simplify_eq.
Qed.

(** From a consistent display and string values, [_update_status]
    returns and the panel shows the fields. *)
Lemma update_status_run b s infos :
  slots_wf b s -> Forall (fun f => value_is_string f = true) infos ->
  exists s', _update_status infos s = (Ok tt, s') /\ slots_wf b s' /\ display_frame s s' /\
    view s' = info_view <$> infos.
Proof.
  intros Hwf Hstr. destruct (update_status_resize b s infos Hwf) as (s2 & -> & Hwf2 & Hf2 & Hi2 & _).
  assert (Hl2 : length (status_items (st_ext s2)) = length infos) by by rewrite Hi2, length_resized.
  destruct (write_all_spec b s2 infos Hwf2 Hstr Hl2) as (s' & Hw & Hwf' & Hf' & _ & Hv & _).
  exists s'. split_and!; [done | done | by eapply display_frame_trans | done].
Qed.

(** C17: reconciling the same fields twice: the second call creates and
    destroys nothing and leaves the state as the first call left it. *)
Theorem update_status_idempotent b s s' infos :
  slots_wf b s -> Forall (fun f => value_is_string f = true) infos ->
  _update_status infos s = (Ok tt, s') -> _update_status infos s' = (Ok tt, s').
Proof.
  intros Hwf Hstr Hrun. destruct (update_status_view b s s' infos Hwf Hstr Hrun) as [Hwf' Hv].
  assert (Hl : length (status_items (st_ext s')) = length infos).
  { by rewrite <- (length_fmap (slot_view s')), <- (length_fmap info_view), <- Hv. }
  destruct (update_status_resize b s' infos Hwf') as (s2 & -> & _ & _ & _ & _ & Hs2).
  rewrite (Hs2 Hl). apply write_fields_noop; [done|]. intros j f Hf.
  assert (Hj : (slot_view s' <$> status_items (st_ext s')) !! j = Some (info_view f))
    by (fold (view s'); by rewrite Hv, list_lookup_fmap, Hf).
  rewrite list_lookup_fmap in Hj. destruct (status_items (st_ext s') !! j) as [x|] eqn:Hx; [|done].
  exists x. simplify_eq/=. done.
Qed.

(** C20: a value that is not a string ([_split_status_text] returns the
    [full_text] itself when it is, say, [true]) makes [set_text] throw a
    TypeError out of [_update_status], after the slots were resized, the
    fields before it written and its label written. *)
Theorem update_status_non_string b s pre f post :
  slots_wf b s -> Forall (fun g => value_is_string g = true) pre -> value_is_string f = false ->
  exists s', _update_status (pre ++ f :: post) s = (Throw TypeError, s') /\ slots_wf b s' /\
    length (status_items (st_ext s')) = length (pre ++ f :: post) /\
    take (length pre) (view s') = info_view <$> pre /\
    exists x, status_items (st_ext s') !! length pre = Some x /\ text_at s' x.1.1 = Some (si_label f).
Proof.
  intros Hwf Hstr Hf. destruct (update_status_resize b s (pre ++ f :: post) Hwf)
    as (s2 & -> & Hwf2 & _ & Hi2 & _ & _).
  assert (Hl2 : length (status_items (st_ext s2)) = length (pre ++ f :: post)).
  { by rewrite Hi2, length_resized. }
  destruct (write_fields_spec b pre 0 s2 Hwf2 Hstr ltac:(rewrite Hl2, length_app; simpl; lia))
    as (s3 & Hw3 & Hwf3 & _ & Hi3 & _ & _ & Hv3).
  rewrite write_fields_app, Hw3. simpl.
  destruct (lookup_lt_is_Some_2 (status_items (st_ext s3)) (length pre)) as [[[l t] u] Hx].
  { rewrite Hi3, Hl2, length_app. simpl. lia. }
  rewrite (bind_throw _ _ _ _ _ (write_item_throw s3 _ f l t u Hx Hf)).
  eexists. split_and!; [done | by apply wf_retext_at | simpl; congruence | |].
  - apply list_eq. intros j. unfold view. simpl. rewrite lookup_take, list_lookup_fmap.
    case_decide as Hj.
    + rewrite list_lookup_fmap. destruct (pre !! j) as [g|] eqn:Hg; simpl.
      2:{ apply lookup_ge_None in Hg. lia. }
      destruct (status_items (st_ext s3) !! j) as [y|] eqn:Hy; simpl.
      2:{ apply lookup_ge_None in Hy. rewrite Hi3, Hl2, length_app in Hy. lia. }
      f_equal. rewrite <- (Hv3 j g y Hg). 2:{ simpl. by rewrite <- Hi3. } apply slot_view_eq.
      intros id Hid. apply retext_at_ne. intros ->.
      enough (j = length pre) by lia.
      eapply (slot_ids_lookup_eq _ _ _ _ _ _ (wf_nodup _ _ Hwf3) Hy Hx); [done|].
      rewrite elem_of_slot_ids_one. tauto.
    + rewrite list_lookup_fmap, lookup_ge_None_2 by lia. done.
  - exists (l, t, u). split; [done|]. simpl.
    destruct (wf_labels _ _ Hwf3 l) as (a & Ha & _).
    { eapply elem_of_slot_ids_lookup; [exact Hx|]. rewrite elem_of_slot_ids_one. tauto. }
    by eapply text_at_retext_at.
Qed.

(** Whatever the fields, exceptions included, an update keeps the
    display invariant and the display frame. *)
Lemma write_fields_wf b infos i s :
  slots_wf b s -> i + length infos <= length (status_items (st_ext s)) ->
  slots_wf b (write_fields i infos s).2 /\ display_frame s (write_fields i infos s).2 /\
  status_items (st_ext (write_fields i infos s).2) = status_items (st_ext s).
Proof.
  revert i s. induction infos as [|f rest IH]; intros i s Hwf Hlen; simpl in *.
  { split_and!; auto with js. }
  destruct (lookup_lt_is_Some_2 (status_items (st_ext s)) i) as [[[l t] u] Hi]; [lia|].
  unfold bind. destruct (si_value f) as [| | |v| |] eqn:Hv;
    try (rewrite (write_item_throw s i f l t u Hi) by (unfold value_is_string; by rewrite Hv);
         simpl; split_and!; [by apply wf_retext_at | by repeat split | done]).
  destruct (write_item_spec b s i f l t u v Hwf Hi Hv) as (Hwf1 & Hf1 & Hi1 & _).
  rewrite (write_item_ok s i f l t u v Hi Hv).
  destruct (IH (S i) _ Hwf1 ltac:(rewrite Hi1; lia)) as (Hwf2 & Hf2 & Hi2).
  split_and!; [done | by eapply display_frame_trans | congruence].
Qed.

Lemma update_status_wf b infos s :
  slots_wf b s ->
  slots_wf b (_update_status infos s).2 /\ display_frame s (_update_status infos s).2.
Proof.
  intros Hwf. destruct (update_status_resize b s infos Hwf) as (s2 & -> & Hwf2 & Hf2 & Hi2 & _).
  destruct (write_fields_wf b infos 0 s2 Hwf2) as (? & ? & _).
  { by rewrite Hi2, length_resized. }
  split; [done|]. by eapply display_frame_trans.
Qed.

(** ** Examples *)

(** The state after [enable]: button 0 holding box 1, registered in the
    status area, no slots. *)
Definition enabled_state : state :=
  {| st_ext := {| running := true; i3status := Some {| h_pid := 2; h_stdout := 3 |};
                  filter_names := []; status_items := []; display_box := Some 1;
                  status_panel := Some 0 |};
     st_world := {| actors := <[1 := {| a_kind := KBox; a_text := []; a_alive := true;
                                        a_parent := Some 0 |}]>
                              {[0 := {| a_kind := KButton; a_text := []; a_alive := true;
                                        a_parent := None |}]};
                    next_id := 4; status_area := Some 0; spawned := [2]; closed_pids := [];
                    closed_fds := []; pending := [3]; logs := [LStarted true] |} |}.

Definition example_infos : list status_info :=
  [{| si_label := str "memory"; si_value := JStr (str "512"); si_unit := str "MiB" |};
   {| si_label := []; si_value := JStr (str "42.5"); si_unit := str "%" |}].

Lemma update_status_spec_witness :
  slots_wf 1 enabled_state /\ Forall (fun f => value_is_string f = true) example_infos /\
  view (_update_status example_infos enabled_state).2 = info_view <$> example_infos.
Proof.
  assert (Hwf : slots_wf 1 enabled_state) by (apply slots_wfb_sound; vm_compute; reflexivity).
  assert (Hstr : Forall (fun f => value_is_string f = true) example_infos) by repeat constructor.
  split_and!; [exact Hwf | exact Hstr |].
  destruct (update_status_spec 1 enabled_state example_infos Hwf Hstr) as (s' & -> & _ & _ & _ & Hv & _).
  exact Hv.
Defined.

Lemma update_status_idempotent_witness :
  let s1 := (_update_status example_infos enabled_state).2 in
  _update_status example_infos s1 = (Ok tt, s1).
Proof.
  intros s1. apply (update_status_idempotent 1 enabled_state s1 example_infos).
  - apply slots_wfb_sound. vm_compute. reflexivity.
  - repeat constructor.
  - vm_compute. reflexivity.
Defined.

Lemma update_status_non_string_witness :
  (_update_status
     ([{| si_label := str "memory"; si_value := JStr (str "512"); si_unit := str "MiB" |}] ++
      {| si_label := str "load"; si_value := JNum (str "1"); si_unit := [] |} :: [])
     enabled_state).1 = Throw TypeError.
Proof.
  destruct (update_status_non_string 1 enabled_state
              [{| si_label := str "memory"; si_value := JStr (str "512"); si_unit := str "MiB" |}]
              {| si_label := str "load"; si_value := JNum (str "1"); si_unit := [] |} [])
    as (s' & -> & _).
  - apply slots_wfb_sound. vm_compute. reflexivity.
  - repeat constructor.
  - reflexivity.
  - reflexivity.
Defined.

