(* ===== verification/Supervisor.v ===== *)
(** * The process supervisor (src/extension.js, lines 120-187)

    [_start_i3status] spawns [/usr/bin/i3status], wraps its stdout in a
    [Gio.DataInputStream], closes stdin and stderr, sets [_running] and
    issues the first read.  [_read_i3status_async] issues one
    [read_line_async] on the current handle's stream; its callback
    ([read_callback]) drops the result when the supervisor was stopped,
    hands a non-empty line to the line consumer, restarts the child on a
    zero-length read, and then issues the next read.  [_stop_i3status]
    clears [_running], calls [spawn_close_pid] and forgets the handle.

    The supervisor does not know what a line is for: lines 138-139 are
    reached through the interface [LineConsumer], and its theorems
    assume only the promise [LineConsumerOk]: a consumer leaves the
    supervisor's fields and the outstanding reads alone.  The
    extension's consumer, the parser and the display, discharges it in
    [Extension]. *)

From stdpp Require Import gmap.
From S2P Require Import Prelude JsValue Host.

#[local] Open Scope js_scope.

(** What [stream.read_line_finish_utf8(result)] gives for a completed
    read: a line (without its newline) and its length, [[null, 0]] at
    the end of the stream, or a thrown [GLib.Error].  The length is the
    UTF-8 byte count; only [length > 0] is used, which holds exactly
    when the line is not empty, so the model counts code units. *)
Inductive read_result :=
| RLine (line : jsstr)
| REof
| RError.

Definition read_line_finish_utf8 (r : read_result) : M (option jsstr * nat) :=
  match r with
  | RLine l => ret (Some l, length l)
  | REof => ret (None, 0)
  | RError => throw GLibError
  end.

(** Lines 138-139: what is done with a non-empty line. *)
Class LineConsumer := consume_line : jsstr -> M unit.

(** The supervisor's part of the state: its fields, the processes, the
    descriptors and the outstanding reads. *)
Definition sup_frame (s s' : state) : Prop :=
  running (st_ext s') = running (st_ext s) /\ i3status (st_ext s') = i3status (st_ext s) /\
  spawned (st_world s') = spawned (st_world s) /\
  closed_pids (st_world s') = closed_pids (st_world s) /\
  closed_fds (st_world s') = closed_fds (st_world s) /\
  pending (st_world s') = pending (st_world s).

#[export] Instance sup_frame_preorder : PreOrder sup_frame.
Proof.
  split; [by repeat split|]. intros s1 s2 s3. unfold sup_frame. intros. destruct_and!.
  split_and!; congruence.
Qed.

(** What the supervisor asks of a consumer. *)
Class LineConsumerOk `{LineConsumer} :=
  consume_line_frame : forall l, preserves sup_frame (consume_line l).

Section Supervisor.
Context `{LineConsumer}.

(** Lines 120-124: [this._i3status.stdout.read_line_async(...)];
    [this._i3status] is [null] after a stop. *)
Definition _read_i3status_async : M unit :=
  s <- get ;;
  match i3status (st_ext s) with
  | Some h => read_line_async (h_stdout h)
  | None => throw TypeError
  end.

(** Lines 150-178. *)
Definition _start_i3status (sp : spawn_result) : M unit :=
  r <- spawn_async_with_pipes sp ;;
  let '(succ, pid, stdin, stdout, stderr) := r in
  log (LStarted succ) ;;;
  if succ then
    st <- new_stream ;;
    set_ext (ext_with_i3status (Some {| h_pid := pid; h_stdout := st |})) ;;;
    close_fd stdin ;;;
    close_fd stderr ;;;
    set_ext (ext_with_running true) ;;;
    _read_i3status_async
  else ret tt.

(** Lines 124-147: the callback of a read on [stream], completed with
    [r]; [sp] is what a restart's spawn gives.  The callback does not
    look at which stream completed. *)
Definition read_callback (stream : nat) (r : read_result) (sp : spawn_result) : M unit :=
  s <- get ;;
  if negb (running (st_ext s)) || match i3status (st_ext s) with None => true | Some _ => false end
  then log LClosedByUser
  else
    res <- read_line_finish_utf8 r ;;
    let '(line, len) := res in
    (if 0 <? len then
       match line with Some l => consume_line l | None => ret tt end
     else
       log LRestarting ;;;
       _start_i3status sp) ;;;
    _read_i3status_async.

(** Lines 180-187. *)
Definition _stop_i3status : M unit :=
  set_ext (ext_with_running false) ;;;
  s <- get ;;
  match i3status (st_ext s) with
  | Some h => spawn_close_pid (h_pid h) ;;; set_ext (ext_with_i3status None)
  | None => throw TypeError
  end.
End Supervisor.

(** ** The read loop *)

Section ReadLoop.
Context `{LineConsumer}.

(** C14: a read completing after [_stop_i3status] (the flag is down or
    the handle gone) only logs ["i3status closed by user"]: the line is
    not read, the display is not touched and no next read is issued. *)
Theorem read_callback_stopped stream r sp s :
  running (st_ext s) = false \/ i3status (st_ext s) = None ->
  read_callback stream r sp s =
    (Ok tt, {| st_ext := st_ext s;
               st_world := world_with_logs (logs (st_world s) ++ [LClosedByUser]) (st_world s) |}).
Proof.
  intros Hs. unfold read_callback. cbv [bind get].
  replace (negb (running (st_ext s)) || match i3status (st_ext s) with None => true | Some _ => false end)
    with true by (destruct Hs as [-> | ->]; [done | by rewrite orb_true_r]).
  reflexivity.
Qed.

(** C29: an empty line is taken for the end of the stream: the callback
    of a read that returned [""] restarts i3status exactly as at the
    end of the stream, although the child is still running. *)
Theorem read_callback_blank_line stream sp s :
  read_callback stream (RLine []) sp s = read_callback stream REof sp s.
Proof. reflexivity. Qed.

(** C18: at the end of the stream, while running, the callback logs,
    spawns a new child and issues two reads on the new stream: one in
    [_start_i3status] and one after it (line 146).  The old child's pid
    is not passed to [spawn_close_pid]. *)
Theorem read_callback_eof_restart stream s h pid i o e :
  running (st_ext s) = true -> i3status (st_ext s) = Some h ->
  exists s', read_callback stream REof (SpawnRet true pid i o e) s = (Ok tt, s') /\
    i3status (st_ext s') = Some {| h_pid := pid; h_stdout := next_id (st_world s) |} /\
    running (st_ext s') = true /\
    pending (st_world s') = pending (st_world s) ++ [next_id (st_world s); next_id (st_world s)] /\
    spawned (st_world s') = spawned (st_world s) ++ [pid] /\
    closed_pids (st_world s') = closed_pids (st_world s) /\
    closed_fds (st_world s') = closed_fds (st_world s) ++ [i; e] /\
    logs (st_world s') = logs (st_world s) ++ [LRestarting; LStarted true] /\
    actors (st_world s') = actors (st_world s) /\ status_items (st_ext s') = status_items (st_ext s).
Proof.
  destruct s as [[run h0 fn items box panel] [acts nid area sp0 cp cf pend lg]]; simpl.
  intros -> ->. eexists. split.
  { unfold read_callback, _start_i3status, _read_i3status_async, read_line_finish_utf8.
    host_unfold. reflexivity. }
  simpl. by rewrite <- !app_assoc.
Qed.
End ReadLoop.

Section ReadLoopOk.
Context `{LineConsumerOk}.

(** A line the consumer accepts is followed by one read on the
    current handle's stream. *)
Lemma read_callback_consumed stream l sp s h u s1 :
  running (st_ext s) = true -> i3status (st_ext s) = Some h -> l <> [] ->
  consume_line l s = (Ok u, s1) ->
  read_callback stream (RLine l) sp s =
    (Ok tt, {| st_ext := st_ext s1;
               st_world := world_with_pending (pending (st_world s) ++ [h_stdout h]) (st_world s1) |}).
Proof.
  intros Hr Hh Hl Hc. pose proof (consume_line_frame l s) as (_ & Hh1 & _ & _ & _ & Hp1).
  rewrite Hc in Hh1, Hp1. simpl in Hh1, Hp1.
  unfold read_callback. cbv [bind get]. rewrite Hr, Hh. simpl.
  destruct (Nat.ltb_spec 0 (length l)) as [_|Hlen]; [|destruct l; simpl in *; [done|lia]].
  rewrite Hc. unfold _read_i3status_async, read_line_async. cbv [bind get set_world modify].
  rewrite Hh1, Hh. simpl. rewrite Hp1. reflexivity.
Qed.

(** A line the consumer throws on: the exception leaves the callback. *)
Lemma read_callback_consume_throw stream l sp s h e s1 :
  running (st_ext s) = true -> i3status (st_ext s) = Some h -> l <> [] ->
  consume_line l s = (Throw e, s1) -> read_callback stream (RLine l) sp s = (Throw e, s1).
Proof.
  intros Hr Hh Hl Hc. unfold read_callback. cbv [bind get]. rewrite Hr, Hh. simpl.
  destruct (Nat.ltb_spec 0 (length l)) as [_|Hlen]; [|destruct l; simpl in *; [done|lia]].
  by rewrite Hc.
Qed.

(** C10: a non-empty line read while running goes to the consumer; when
    it returns, exactly one next read is issued, on the current
    handle's stream, whichever stream the line came from.  When it
    throws, the exception leaves the callback and no next read is
    issued: the read loop ends. *)
Theorem read_callback_line stream l sp s h :
  running (st_ext s) = true -> i3status (st_ext s) = Some h -> l <> [] ->
  match consume_line l s with
  | (Ok _, s1) =>
      read_callback stream (RLine l) sp s =
        (Ok tt, {| st_ext := st_ext s1;
                   st_world := world_with_pending (pending (st_world s) ++ [h_stdout h]) (st_world s1) |})
  | (Throw e, s1) =>
      read_callback stream (RLine l) sp s = (Throw e, s1) /\ pending (st_world s1) = pending (st_world s)
  end.
Proof.
  intros Hr Hh Hl. destruct (consume_line l s) as [[u|e] s1] eqn:Hc.
  - by eapply read_callback_consumed.
  - pose proof (consume_line_frame l s) as (_ & _ & _ & _ & _ & Hp1). rewrite Hc in Hp1.
    split; [by eapply read_callback_consume_throw | done].
Qed.
End ReadLoopOk.

(** ** Starting and stopping *)

Section StartStop.
Context `{LineConsumer}.

(** C27: a successful start records the handle [{pid, stdout}] with a
    fresh stream, closes stdin and stderr, raises the flag, logs
    ["i3status started: true"] and issues one read on the new stream. *)
Theorem start_i3status_ok s pid i o e :
  exists s', _start_i3status (SpawnRet true pid i o e) s = (Ok tt, s') /\
    i3status (st_ext s') = Some {| h_pid := pid; h_stdout := next_id (st_world s) |} /\
    running (st_ext s') = true /\
    pending (st_world s') = pending (st_world s) ++ [next_id (st_world s)] /\
    spawned (st_world s') = spawned (st_world s) ++ [pid] /\
    closed_fds (st_world s') = closed_fds (st_world s) ++ [i; e] /\
    closed_pids (st_world s') = closed_pids (st_world s) /\
    logs (st_world s') = logs (st_world s) ++ [LStarted true] /\
    actors (st_world s') = actors (st_world s) /\ status_items (st_ext s') = status_items (st_ext s).
Proof.
  destruct s as [[run h0 fn items box panel] [acts nid area sp0 cp cf pend lg]]; simpl.
  eexists. split.
  { unfold _start_i3status, _read_i3status_async. host_unfold. reflexivity. }
  simpl. by rewrite <- !app_assoc.
Qed.

(** C30: when the spawn throws, the exception leaves [_start_i3status]
    before anything is logged or changed; the spec says a spawn failure
    is logged and leaves the supervisor stopped. *)
Theorem start_i3status_spawn_error s :
  _start_i3status SpawnThrow s = (Throw GLibError, s).
Proof. reflexivity. Qed.

(** C28: [_stop_i3status] lowers the flag, passes the pid to
    [spawn_close_pid] and forgets the handle; the outstanding reads are
    not cancelled.  Without a handle it throws a TypeError after
    lowering the flag. *)
Theorem stop_i3status_spec s :
  match i3status (st_ext s) with
  | Some h =>
      exists s', _stop_i3status s = (Ok tt, s') /\ running (st_ext s') = false /\
        i3status (st_ext s') = None /\
        closed_pids (st_world s') = closed_pids (st_world s) ++ [h_pid h] /\
        pending (st_world s') = pending (st_world s) /\ spawned (st_world s') = spawned (st_world s) /\
        actors (st_world s') = actors (st_world s) /\ logs (st_world s') = logs (st_world s)
  | None => _stop_i3status s = (Throw TypeError, {| st_ext := ext_with_running false (st_ext s);
                                                    st_world := st_world s |})
  end.
Proof.
  destruct s as [[run [h|] fn items box panel] w]; simpl.
  - eexists. split; [unfold _stop_i3status; host_unfold; reflexivity|]. by repeat split.
  - reflexivity.
Qed.
End StartStop.
