(* ===== verification/Extension.v ===== *)
(** * The extension object and its life in the shell (src/extension.js,
    lines 30-37, 138-139, 219-254)

    [enable] builds the panel button and the box, registers the button
    in the status area and starts i3status; [disable] stops it, destroys
    the slots, the box and the button.  The line consumer of the
    supervisor is lines 138-139: parse the line with the object's
    filter, log the caught error, reconcile the display.

    The shell drives the object: it calls [enable] and [disable]
    alternately, and it runs the callback of an outstanding read when
    the read completes, in any order among the outstanding reads.  An
    exception that leaves a handler is logged and the handler's effects
    up to the throw stay.  [system] pairs the object's state with the
    shell's view (enabled or not); [sys_step] is one event, [reachable]
    the states a run from the constructor reaches. *)

From stdpp Require Import gmap.
From S2P Require Import Prelude JsValue Split Parse Host Display Supervisor.

#[local] Open Scope js_scope.

(** The object as the constructor leaves it (lines 31-37), in a world
    where nothing has been created yet. *)
Definition constructor_ext : ext :=
  {| running := false; i3status := None; filter_names := filter_status_names;
     status_items := []; display_box := None; status_panel := None |}.

Definition init_world : world :=
  {| actors := ∅; next_id := 0; status_area := None; spawned := []; closed_pids := [];
     closed_fds := []; pending := []; logs := [] |}.

Definition init_state : state := {| st_ext := constructor_ext; st_world := init_world |}.

Section Extension.
Context `{JsNumbers}.

(** Lines 138-139, with the log of the parser's catch (line 97). *)
#[export] Instance i3bar_consumer : LineConsumer := fun line =>
  s <- get ;;
  let '(infos, err) := _parse_i3status_i3bar (filter_names (st_ext s)) line in
  (match err with Some e => log (LCaught e) | None => ret tt end) ;;;
  _update_status infos.

(** Lines 219-234. *)
Definition enable (sp : spawn_result) : M unit :=
  p <- new_actor KButton ;;
  set_ext (ext_with_panel (Some p)) ;;;
  b <- new_actor KBox ;;
  set_ext (ext_with_box (Some b)) ;;;
  p1 <- get_status_panel ;; b1 <- get_display_box ;; add_actor p1 b1 ;;;
  p2 <- get_status_panel ;; add_to_status_area p2 ;;;
  _start_i3status sp.

(** The body of the loop of lines 239-243. *)
Definition destroy_item (it : slot) : M unit :=
  destroy it.1.1 ;;; destroy it.1.2 ;;; destroy it.2.

(** Lines 236-249. *)
Definition disable : M unit :=
  _stop_i3status ;;;
  s <- get ;; for_each (status_items (st_ext s)) destroy_item ;;;
  set_ext (ext_with_items []) ;;;
  b <- get_display_box ;; destroy b ;;;
  set_ext (ext_with_box None) ;;;
  p <- get_status_panel ;; destroy p ;;;
  set_ext (ext_with_panel None).

(** ** The shell's events *)

Inductive event :=
| EvEnable (sp : spawn_result)
| EvDisable
| EvReadDone (k : nat) (r : read_result) (sp : spawn_result).
  (** the [k]-th outstanding read completes with [r]; a restart in its
      callback spawns with [sp] *)

(** An exception that leaves a handler is logged; its effects stay. *)
Definition run_handler (m : M unit) (s : state) : state :=
  match m s with
  | (Ok _, s') => s'
  | (Throw e, s') => {| st_ext := st_ext s';
                        st_world := world_with_logs (logs (st_world s') ++ [LUncaught e]) (st_world s') |}
  end.

Record system := { sys_state : state; sys_enabled : bool }.

Definition sys_init : system := {| sys_state := init_state; sys_enabled := false |}.

(** The [k]-th outstanding read leaves the list when its callback runs. *)
Definition take_pending (k : nat) (s : state) : option (nat * state) :=
  match pending (st_world s) !! k with
  | Some st => Some (st, {| st_ext := st_ext s;
                            st_world := world_with_pending (delete k (pending (st_world s))) (st_world s) |})
  | None => None
  end.

(** One event; [None] when the shell would not deliver it. *)
Definition sys_step (ev : event) (sy : system) : option system :=
  match ev with
  | EvEnable sp =>
      if sys_enabled sy then None
      else Some {| sys_state := run_handler (enable sp) (sys_state sy); sys_enabled := true |}
  | EvDisable =>
      if sys_enabled sy
      then Some {| sys_state := run_handler disable (sys_state sy); sys_enabled := false |}
      else None
  | EvReadDone k r sp =>
      match take_pending k (sys_state sy) with
      | Some (st, s) => Some {| sys_state := run_handler (read_callback st r sp) s;
                                sys_enabled := sys_enabled sy |}
      | None => None
      end
  end.

Fixpoint run_events (evs : list event) (sy : system) : option system :=
  match evs with
  | [] => Some sy
  | ev :: evs' => sy' ← sys_step ev sy; run_events evs' sy'
  end.

Inductive reachable : system -> Prop :=
| reachable_init : reachable sys_init
| reachable_step sy ev sy' : reachable sy -> sys_step ev sy = Some sy' -> reachable sy'.
End Extension.

(** ** The consumer keeps its promise *)

#[local] Hint Extern 1 (preserves sup_frame (modify _)) =>
  apply preserves_modify; intros [[] []]; simpl; repeat case_match; by repeat split : preserves.

Ltac unfold_display :=
  unfold _create_status_items, _remove_status_items, create_one, remove_one, write_item,
    item_at, push_item, pop_item, get_display_box, set_text, destroy, add_actor, new_actor,
    fresh_id, update_actor, log, set_ext, set_world.

Lemma write_fields_sup i infos : preserves sup_frame (write_fields i infos).
Proof.
  revert i. induction infos as [|f rest IH]; intros i; simpl; unfold_display; solve_preserves.
Qed.
#[local] Hint Resolve write_fields_sup : preserves.

Lemma update_status_sup infos : preserves sup_frame (_update_status infos).
Proof. unfold _update_status. unfold_display. solve_preserves. Qed.
#[local] Hint Resolve update_status_sup : preserves.

#[export] Instance i3bar_consumer_ok `{JsNumbers} : LineConsumerOk.
Proof. intros l. unfold consume_line, i3bar_consumer, log, set_world. solve_preserves. Qed.

(** ** The invariant of reachable states *)

Definition labels_dead (acts : gmap nat actor) : Prop :=
  forall id a sc al, acts !! id = Some a -> a_kind a = KLabel sc al -> a_alive a = true -> False.

Definition world_ok (s : state) : Prop :=
  (forall id, next_id (st_world s) <= id -> actors (st_world s) !! id = None) /\
  (forall p, status_area (st_world s) = Some p -> p < next_id (st_world s)).

(** No slots, no live label: the display after [disable]. *)
Definition display_off (s : state) : Prop :=
  status_items (st_ext s) = [] /\ labels_dead (actors (st_world s)) /\ world_ok s.

Definition display_inv (s : state) : Prop :=
  match display_box (st_ext s) with
  | Some b => slots_wf b s
  | None => display_off s
  end.

Record state_inv (enabled : bool) (s : state) : Prop := {
  inv_display : display_inv s;
  inv_handle : i3status (st_ext s) = None -> status_items (st_ext s) = [];
  inv_running : running (st_ext s) = true -> i3status (st_ext s) <> None /\ display_box (st_ext s) <> None;
  inv_disabled : enabled = false -> status_items (st_ext s) = [] /\ running (st_ext s) = false
}.

Definition sys_inv `{JsNumbers} (sy : system) : Prop := state_inv (sys_enabled sy) (sys_state sy).

Lemma display_inv_off s : display_inv s -> status_items (st_ext s) = [] -> display_off s.
Proof.
  unfold display_inv, display_off, world_ok. destruct (display_box (st_ext s)) as [b|]; [|done].
  intros [Hb Hnd Hlab Hown Hfr Har] Hi. rewrite Hi in Hown, Har. split_and!; [done| | done |].
  - intros id a sc al Ha Hk Hal. by apply (Hown id a sc al) in Ha; [apply elem_of_nil in Ha | |].
  - intros p Hp. by apply Har.
Qed.

Lemma display_inv_of_off s : display_off s -> display_inv s.
Proof.
  unfold display_inv. intros Hoff. destruct (display_box (st_ext s)) as [b|] eqn:Hb; [|done].
  destruct Hoff as (Hi & Hd & Hfr & Har). constructor; rewrite ?Hi; [done|constructor|..].
  - by intros id ?%elem_of_nil.
  - intros id a sc al Ha Hk Hal. by destruct (Hd id a sc al).
  - done.
  - intros p Hp. split; [by apply Har|]. by intros ?%elem_of_nil.
Qed.

(** The display invariant does not look at the supervisor's fields,
    the processes, the reads or the log; fresh identities may be used. *)
Lemma display_inv_frame s s' :
  status_items (st_ext s') = status_items (st_ext s) ->
  display_box (st_ext s') = display_box (st_ext s) ->
  actors (st_world s') = actors (st_world s) ->
  status_area (st_world s') = status_area (st_world s) ->
  next_id (st_world s) <= next_id (st_world s') ->
  display_inv s -> display_inv s'.
Proof.
  intros Hi Hb Ha Har Hn. unfold display_inv, display_off, world_ok. rewrite Hb, Hi, Ha, Har.
  destruct (display_box (st_ext s)) as [b|].
  - intros [Hb' Hnd Hlab Hown Hfr Har']. constructor; rewrite ?Hi, ?Ha, ?Har; try done.
    + intros id Hid. apply Hfr. lia.
    + intros p Hp. destruct (Har' p Hp). split; [lia|done].
  - intros (? & ? & Hfr & Har'). split_and!; try done.
    + intros id Hid. apply Hfr. lia.
    + intros p Hp. specialize (Har' p Hp). lia.
Qed.

Lemma state_inv_frame en s s' :
  st_ext s' = st_ext s -> actors (st_world s') = actors (st_world s) ->
  status_area (st_world s') = status_area (st_world s) ->
  next_id (st_world s) <= next_id (st_world s') ->
  state_inv en s -> state_inv en s'.
Proof.
  intros He Ha Har Hn [Hd Hh Hr Hdis]. constructor; rewrite ?He; try done.
  eapply display_inv_frame; [..|exact Hd]; by rewrite ?He.
Qed.

Lemma state_inv_run_handler en (m : M unit) s :
  state_inv en (m s).2 -> state_inv en (run_handler m s).
Proof.
  unfold run_handler. destruct (m s) as [[[]|e] s']; simpl; [done|].
  apply state_inv_frame; done.
Qed.

Lemma init_inv : state_inv false init_state.
Proof.
  constructor; [|done|intros Hr; inversion Hr|done].
  unfold display_inv, display_off, world_ok. simpl. split_and!; [done| | |done].
  - intros id a sc al Ha. by rewrite lookup_empty in Ha.
  - intros id _. apply lookup_empty.
Qed.

(** What a start may change: the flag and the handle, raised together,
    and the world outside the actors and the status area. *)
Lemma start_shape `{LineConsumer} sp s :
  let s' := (_start_i3status sp s).2 in
  status_items (st_ext s') = status_items (st_ext s) /\
  display_box (st_ext s') = display_box (st_ext s) /\
  status_panel (st_ext s') = status_panel (st_ext s) /\
  filter_names (st_ext s') = filter_names (st_ext s) /\
  actors (st_world s') = actors (st_world s) /\
  status_area (st_world s') = status_area (st_world s) /\
  next_id (st_world s) <= next_id (st_world s') /\
  ((running (st_ext s') = running (st_ext s) /\ i3status (st_ext s') = i3status (st_ext s)) \/
   (running (st_ext s') = true /\ i3status (st_ext s') <> None)).
Proof.
  destruct sp as [[] pid i o e|]; destruct s as [[run h fn items box panel] [acts nid area sp cp cf pend lg]];
    unfold _start_i3status, _read_i3status_async; host_unfold; simpl; split_and!; auto.
Qed.

Lemma slots_wf_frame b s s' :
  st_ext s' = st_ext s -> actors (st_world s') = actors (st_world s) ->
  status_area (st_world s') = status_area (st_world s) ->
  next_id (st_world s') = next_id (st_world s) -> slots_wf b s -> slots_wf b s'.
Proof.
  intros He Ha Har Hn Hwf. pose proof (display_inv_frame s s') as Hfr.
  unfold display_inv in Hfr. rewrite He, (wf_box _ _ Hwf) in Hfr. apply Hfr; auto with lia.
Qed.

(** While the supervisor runs, the rest of the invariant follows from
    the display part. *)
Lemma state_inv_running en s s' :
  state_inv en s -> running (st_ext s) = true ->
  display_inv s' -> display_box (st_ext s') = display_box (st_ext s) ->
  i3status (st_ext s') <> None -> state_inv en s'.
Proof.
  intros [Hd Hh Hr Hdis] Hrun Hd' Hb Hi. constructor; [done|done| |].
  - intros _. split; [done|]. rewrite Hb. apply Hr, Hrun.
  - intros ->. destruct (Hdis eq_refl) as [_ Hf]. congruence.
Qed.

Lemma read_async_frame `{LineConsumer} s :
  let s' := (_read_i3status_async s).2 in
  st_ext s' = st_ext s /\ actors (st_world s') = actors (st_world s) /\
  status_area (st_world s') = status_area (st_world s) /\ next_id (st_world s') = next_id (st_world s).
Proof. unfold _read_i3status_async. host_unfold. by destruct (i3status (st_ext s)). Qed.

Lemma consume_inv `{JsNumbers} en s b l :
  state_inv en s -> running (st_ext s) = true -> display_box (st_ext s) = Some b ->
  let s1 := (consume_line l s).2 in
  state_inv en s1 /\ i3status (st_ext s1) = i3status (st_ext s) /\
  display_box (st_ext s1) = Some b.
Proof.
  intros Hinv Hrun Hb. pose proof (inv_display _ _ Hinv) as Hd. unfold display_inv in Hd. rewrite Hb in Hd.
  unfold consume_line, i3bar_consumer. cbv [bind get].
  destruct (_parse_i3status_i3bar (filter_names (st_ext s)) l) as [infos err].
  set (sL := match err with Some e => log (LCaught e) | None => ret tt end s).
  assert (HL : slots_wf b sL.2 /\ st_ext sL.2 = st_ext s /\ exists u, sL.1 = Ok u).
  { subst sL. destruct err; simpl; [|eauto].
    cbv [log set_world modify]. simpl. split_and!; [|done|eauto].
    eapply slots_wf_frame; [..|exact Hd]; reflexivity. }
  destruct HL as (HwfL & HeL & [u Hu]).
  destruct sL as [o sL'] eqn:EL; simpl in *. subst o.
  destruct (update_status_wf b infos sL' HwfL) as [Hwf1 Hf1].
  destruct Hf1 as (_ & Hi & _ & Hbx & _).
  rewrite HeL in Hi, Hbx.
  assert (Hb1 : display_box (st_ext (_update_status infos sL').2) = Some b) by congruence.
  split_and!; [|done|done].
  eapply state_inv_running; [exact Hinv|done| | |].
  - unfold display_inv. by rewrite Hb1.
  - congruence.
  - rewrite Hi. by apply (inv_running _ _ Hinv).
Qed.

Lemma log_state_inv en e s :
  state_inv en s -> state_inv en (log e s).2.
Proof. apply state_inv_frame; reflexivity. Qed.

Lemma read_callback_inv `{JsNumbers} en st r sp s :
  state_inv en s -> state_inv en (read_callback st r sp s).2.
Proof.
  intros Hinv. unfold read_callback. cbv [bind get].
  destruct (running (st_ext s)) eqn:Hrun; [destruct (i3status (st_ext s)) as [h|] eqn:Hh|];
    simpl; try by apply log_state_inv.
  destruct (display_box (st_ext s)) as [b|] eqn:Hb.
  2:{ exfalso. by apply (inv_running _ _ Hinv Hrun). }
  (* after the line's work, the next read *)
  assert (Hnext : forall s1, state_inv en s1 -> state_inv en (_read_i3status_async s1).2).
  { intros s1 Hinv1. pose proof (read_async_frame s1) as (He & Ha & Har & Hn).
    eapply state_inv_frame; [..|exact Hinv1]; [done|done|done|lia]. }
  assert (Hrestart : state_inv en
    (let (o, s') := _start_i3status sp {| st_ext := st_ext s;
         st_world := world_with_logs (logs (st_world s) ++ [LRestarting]) (st_world s) |} in
     match o with Ok _ => _read_i3status_async s' | Throw e => (Throw e, s') end).2).
  { set (sA := {| st_ext := st_ext s; st_world := _ |}).
    pose proof (start_shape sp sA) as (Hi & Hbx & _ & _ & Ha & Har & Hn & Hri).
    assert (HB : state_inv en (_start_i3status sp sA).2).
    { eapply state_inv_running; [exact Hinv|done| | |].
      - eapply display_inv_frame; [..|exact (inv_display _ _ Hinv)]; done.
      - done.
      - destruct Hri as [[_ ->]|[_ ?]]; [simpl; congruence|done]. }
    destruct (_start_i3status sp sA) as [[[]|e] sB]; simpl in *; [by apply Hnext|done]. }
  destruct r as [l| |]; simpl.
  - destruct (Nat.ltb_spec 0 (length l)) as [Hl|Hl].
    + destruct (consume_inv en s b l Hinv Hrun Hb) as (Hinv1 & Hi1 & Hb1).
      destruct (consume_line l s) as [[[]|e] s1]; simpl in *; [|done].
      by apply Hnext.
    + by apply Hrestart.
  - by apply Hrestart.
  - done.
Qed.

Lemma state_inv_off en s :
  display_off s ->
  (running (st_ext s) = true -> i3status (st_ext s) <> None /\ display_box (st_ext s) <> None) ->
  (en = false -> running (st_ext s) = false) -> state_inv en s.
Proof.
  intros Hoff Hr Hen. constructor; [by apply display_inv_of_off|by destruct Hoff|done|].
  intros ->. split; [by destruct Hoff|auto].
Qed.

Lemma start_inv `{LineConsumer} sp s :
  state_inv true s -> display_box (st_ext s) <> None -> state_inv true (_start_i3status sp s).2.
Proof.
  intros Hinv Hb. pose proof (start_shape sp s) as (Hi & Hbx & _ & _ & Ha & Har & Hn & Hri).
  constructor; [|..|done].
  - eapply display_inv_frame; [..|exact (inv_display _ _ Hinv)]; done.
  - rewrite Hi. destruct Hri as [[_ ->]|[_ ?]]; [apply (inv_handle _ _ Hinv)|done].
  - destruct Hri as [[-> ->]|[_ ?]]; [intros Hr; rewrite Hbx; by apply (inv_running _ _ Hinv)|].
    intros _. by rewrite Hbx.
Qed.

Lemma labels_dead_insert acts i a :
  labels_dead acts -> (forall sc al, a_kind a <> KLabel sc al) -> labels_dead (<[i := a]> acts).
Proof.
  intros Hd Hk id a' sc al. rewrite lookup_insert. case_decide; [intros [= <-]; by intros ?%Hk|].
  apply Hd.
Qed.

Lemma labels_dead_alter acts i f :
  labels_dead acts -> (forall a, a_kind (f a) = a_kind a /\ (a_alive (f a) = true -> a_alive a = true)) ->
  labels_dead (alter f i acts).
Proof.
  intros Hd Hf id a sc al. rewrite lookup_alter. case_decide; [|apply Hd].
  subst. destruct (acts !! id) as [a0|] eqn:Ha0; [|done]. intros [= <-] Hk Hal.
  destruct (Hf a0) as [Hk' Hal']. rewrite Hk' in Hk. eapply Hd; eauto.
Qed.

Lemma enable_inv `{JsNumbers} sp s :
  state_inv false s -> state_inv true (run_handler (enable sp) s).
Proof.
  intros Hinv. apply state_inv_run_handler.
  destruct (inv_disabled _ _ Hinv eq_refl) as [Hi Hr].
  destruct (display_inv_off s (inv_display _ _ Hinv) Hi) as (_ & Hd & Hfr & Har).
  destruct s as [[run h fn items box panel] [acts nid area sp0 cp cf pend lg]]; simpl in *. subst.
  assert (Hd' : labels_dead (alter (reparent (Some nid)) (S nid)
                  (<[S nid:=fresh_actor KBox]> (<[nid:=fresh_actor KButton]> acts)))).
  { apply labels_dead_alter; [|done]. apply labels_dead_insert; [|done].
    by apply labels_dead_insert. }
  assert (Hfr' : forall id, S (S nid) <= id -> alter (reparent (Some nid)) (S nid)
                  (<[S nid:=fresh_actor KBox]> (<[nid:=fresh_actor KButton]> acts)) !! id = None).
  { intros id Hid. rewrite lookup_alter, !lookup_insert.
    repeat case_decide; try lia. rewrite Hfr; [done|lia]. }
  unfold enable. host_unfold. destruct area as [q|]; simpl.
  - apply state_inv_off; [|done|done]. unfold display_off, world_ok. simpl. split_and!; [done|done| |].
    + intros id Hid. apply Hfr'. simpl in Hid. lia.
    + intros p Hp. simpl in Hp. specialize (Har p Hp). simpl. lia.
  - apply start_inv; [|done]. apply state_inv_off; [|done|done].
    unfold display_off, world_ok. simpl. split_and!; [done|done| |].
    + intros id Hid. apply Hfr'. simpl in Hid. lia.
    + intros p [= <-]. simpl. lia.
Qed.

Lemma killed_idem a : killed (killed a) = killed a.
Proof. done. Qed.

Lemma elem_of_slot_ids_cons id l t u rest :
  id ∈ slot_ids ((l, t, u) :: rest) <-> (id = l \/ id = t \/ id = u) \/ id ∈ slot_ids rest.
Proof.
  change ((l, t, u) :: rest) with ([(l, t, u)] ++ rest).
  by rewrite slot_ids_app, elem_of_app, elem_of_slot_ids_one.
Qed.

(** The loop of lines 239-243 on slots that do not hold the status-area
    role: it kills their labels and changes nothing else. *)
Lemma destroy_items_run l s :
  (forall id, id ∈ slot_ids l -> status_area (st_world s) <> Some id) ->
  exists acts', for_each l destroy_item s =
      (Ok tt, {| st_ext := st_ext s; st_world := world_with_actors acts' (st_world s) |}) /\
    forall id, acts' !! id = if decide (id ∈ slot_ids l) then killed <$> actors (st_world s) !! id
                             else actors (st_world s) !! id.
Proof.
  revert s. induction l as [|[[l t] u] rest IH]; intros s Har.
  - exists (actors (st_world s)). split; [by destruct s as [e []]|]. intros id. case_decide as Hin; [by apply elem_of_nil in Hin|done].
  - assert (Hl : status_area (st_world s) <> Some l) by (intros Heq; eapply Har; [|exact Heq]; apply elem_of_slot_ids_cons; tauto).
    assert (Ht : status_area (st_world s) <> Some t) by (intros Heq; eapply Har; [|exact Heq]; apply elem_of_slot_ids_cons; tauto).
    assert (Hu : status_area (st_world s) <> Some u) by (intros Heq; eapply Har; [|exact Heq]; apply elem_of_slot_ids_cons; tauto).
    set (s1 := {| st_ext := st_ext s; st_world := world_with_actors
                   (alter killed u (alter killed t (alter killed l (actors (st_world s))))) (st_world s) |}).
    assert (Hd : destroy_item (l, t, u) s = (Ok tt, s1)).
    { destruct s as [e [acts nid area sp cp cf pend lg]]; simpl in *.
      unfold destroy_item. host_unfold.
      rewrite (bool_decide_false (area = Some l)) by done. simpl.
      rewrite (bool_decide_false (area = Some t)) by done. simpl.
      rewrite (bool_decide_false (area = Some u)) by done. reflexivity. }
    destruct (IH s1) as (acts' & Hrun & Hlk).
    { intros id Hid. apply Har, elem_of_slot_ids_cons. tauto. }
    exists acts'. split.
    + simpl. rewrite (bind_ok _ _ _ _ _ Hd), Hrun. by destruct s.
    + intros id. rewrite Hlk. simpl. rewrite !lookup_alter.
      destruct (decide (id ∈ slot_ids ((l, t, u) :: rest))) as [Hin|Hin].
      * apply elem_of_slot_ids_cons in Hin.
        repeat case_decide; subst;
          first [ done | exfalso; intuition congruence | by destruct (actors (st_world s) !! _) ].
      * assert (Hin' : ~ ((id = l \/ id = t \/ id = u) \/ id ∈ slot_ids rest))
          by (by rewrite <- elem_of_slot_ids_cons).
        repeat case_decide; subst; first [ done | exfalso; intuition congruence ].
Qed.

Lemma labels_dead_killed acts i : labels_dead acts -> labels_dead (alter killed i acts).
Proof. intros Hd. apply labels_dead_alter; [done|]. intros a. by split. Qed.

Lemma lookup_alter_None {A} (f : A -> A) (m : gmap nat A) i j : m !! j = None -> alter f i m !! j = None.
Proof. intros Hj. rewrite lookup_alter. case_decide; subst; by rewrite Hj. Qed.

(** What the display invariant gives whether or not there is a box. *)
Lemma display_inv_facts s :
  display_inv s ->
  (forall id a sc al, actors (st_world s) !! id = Some a -> a_kind a = KLabel sc al ->
     a_alive a = true -> id ∈ slot_ids (status_items (st_ext s))) /\
  (forall id, next_id (st_world s) <= id -> actors (st_world s) !! id = None) /\
  (forall p, status_area (st_world s) = Some p ->
     p < next_id (st_world s) /\ p ∉ slot_ids (status_items (st_ext s))).
Proof.
  unfold display_inv. destruct (display_box (st_ext s)) as [b|].
  - intros Hwf. split_and!; [apply (wf_owned _ _ Hwf) | apply (wf_fresh _ _ Hwf) | apply (wf_area _ _ Hwf)].
  - intros (Hi & Hdead & Hfr & Har). rewrite Hi. split_and!; [|done|].
    + intros id a sc al ? ? ?. by destruct (Hdead id a sc al).
    + intros p Hp. split; [by apply Har|]. by intros ?%elem_of_nil.
Qed.

Lemma disable_inv `{JsNumbers} s :
  state_inv true s -> state_inv false (run_handler disable s).
Proof.
  intros Hinv. apply state_inv_run_handler.
  pose proof (inv_display _ _ Hinv) as Hd. pose proof (inv_handle _ _ Hinv) as Hh.
  destruct s as [[run h fn items box panel] [acts nid area sp cp cf pend lg]]; simpl in *.
  destruct (display_inv_facts _ Hd) as (Hown & Hfr & Har); simpl in Hown, Hfr, Har.
  destruct h as [h|].
  2:{ unfold disable, _stop_i3status. host_unfold. rewrite Hh by done.
      apply state_inv_off; [|done|done]. unfold display_off, world_ok. simpl. split_and!; [done| |done|].
      - intros id a sc al Ha Hk Hal. specialize (Hown id a sc al Ha Hk Hal). rewrite Hh in Hown by done.
        by apply elem_of_nil in Hown.
      - intros p Hp. by apply Har. }
  unfold disable, _stop_i3status. host_unfold.
  match goal with |- context [for_each ?l destroy_item ?s1] =>
    edestruct (destroy_items_run l s1) as (acts' & -> & Hlk) end.
  { simpl. intros id Hid ->. by apply (Har id). }
  simpl in Hlk.
  assert (Hdead : labels_dead acts').
  { intros id a sc al. rewrite Hlk. case_decide as Hin.
    - destruct (acts !! id); simpl; [|done]. by intros [= <-].
    - intros Ha Hk Hal. apply Hin. by apply (Hown id a sc al). }
  assert (Hfr' : forall id, nid <= id -> acts' !! id = None).
  { intros id Hid. rewrite Hlk, Hfr by done. by case_decide. }
  destruct box as [b|]; [destruct panel as [p|]|]; simpl;
    repeat case_bool_decide; simplify_eq; simpl;
    (apply state_inv_off; [|done|done]); unfold display_off, world_ok; simpl;
    split_and!; try done; repeat apply labels_dead_killed; try done;
    try (intros id Hid; repeat apply lookup_alter_None; by apply Hfr');
    intros q Hq; simplify_eq; by eapply proj1, Har.
Qed.

Lemma take_pending_inv en k s st s0 :
  take_pending k s = Some (st, s0) -> state_inv en s -> state_inv en s0.
Proof.
  unfold take_pending. destruct (pending (st_world s) !! k); intros [= <- <-].
  apply state_inv_frame; reflexivity || done.
Qed.

Lemma sys_step_inv `{JsNumbers} ev sy sy' :
  sys_inv sy -> sys_step ev sy = Some sy' -> sys_inv sy'.
Proof.
  unfold sys_inv. destruct sy as [s en]. destruct ev as [sp| |k r sp]; simpl.
  - destruct en; intros Hinv [= <-]. by apply enable_inv.
  - destruct en; intros Hinv [= <-]. by apply disable_inv.
  - intros Hinv. destruct (take_pending k s) as [[st s0]|] eqn:Ht; intros [= <-]; simpl.
    apply state_inv_run_handler, read_callback_inv. by eapply take_pending_inv.
Qed.

Lemma reachable_state_inv `{JsNumbers} sy : reachable sy -> sys_inv sy.
Proof.
  induction 1 as [|sy ev sy' _ IH Hstep]; [apply init_inv|]. by eapply sys_step_inv.
Qed.

Lemma run_events_reachable `{JsNumbers} evs sy sy' :
  reachable sy -> run_events evs sy = Some sy' -> reachable sy'.
Proof.
  revert sy. induction evs as [|ev evs IH]; intros sy Hr; simpl; [by intros [= <-]|].
  destruct (sys_step ev sy) as [sy1|] eqn:Hs; simpl; [|done].
  apply IH. by eapply reachable_step.
Qed.

(** ** [enable] on its own *)

(** With the status area free, [enable] with a successful spawn builds
    the button and the box with the next two identities, registers the
    button and starts the child, whose stream is the third. *)
Lemma enable_spawn_ok `{JsNumbers} pid i o e s :
  status_area (st_world s) = None ->
  exists s', enable (SpawnRet true pid i o e) s = (Ok tt, s') /\
    i3status (st_ext s') = Some {| h_pid := pid; h_stdout := S (S (next_id (st_world s))) |} /\
    running (st_ext s') = true /\ display_box (st_ext s') = Some (S (next_id (st_world s))) /\
    filter_names (st_ext s') = filter_names (st_ext s) /\
    pending (st_world s') = pending (st_world s) ++ [S (S (next_id (st_world s)))].
Proof.
  destruct s as [[run h fn items box panel] [acts nid area sp0 cp cf pend lg]]; simpl. intros ->.
  eexists. split; [unfold enable, _start_i3status, _read_i3status_async; host_unfold; reflexivity|].
  by split_and!.
Qed.

(** ** What every reachable state satisfies *)

(** C8: in every state a run of the shell reaches, the display is
    consistent: when there is a box, the slots' labels are distinct,
    allocated, alive and in the box, every live label belongs to a slot
    and the status-area role is not a slot's; when there is none, there
    is no slot and no live label. *)
Theorem reachable_display_wf `{JsNumbers} sy :
  reachable sy ->
  match display_box (st_ext (sys_state sy)) with
  | Some b => slots_wf b (sys_state sy)
  | None => status_items (st_ext (sys_state sy)) = [] /\ labels_dead (actors (st_world (sys_state sy)))
  end.
Proof.
  intros Hr. pose proof (inv_display _ _ (reachable_state_inv sy Hr)) as Hd.
  unfold display_inv, display_off in Hd. destruct (display_box _); [done|tauto].
Qed.

(** C11: in every reachable state the supervisor runs only with a handle
    and a display box, a missing handle means no slots, and while the
    extension is disabled there are no slots and the flag is down. *)
Theorem reachable_supervisor `{JsNumbers} sy :
  reachable sy ->
  (running (st_ext (sys_state sy)) = true ->
     i3status (st_ext (sys_state sy)) <> None /\ display_box (st_ext (sys_state sy)) <> None) /\
  (i3status (st_ext (sys_state sy)) = None -> status_items (st_ext (sys_state sy)) = []) /\
  (sys_enabled sy = false -> status_items (st_ext (sys_state sy)) = [] /\ running (st_ext (sys_state sy)) = false).
Proof.
  intros Hr. destruct (reachable_state_inv sy Hr) as [_ Hh Hrun Hdis]. done.
Qed.

(** C19: while the extension is disabled, a read that completes changes
    neither the slots nor any actor: its callback only logs ["i3status
    closed by user"] (the spec's stale-callback case). *)
Theorem disabled_read_inert `{JsNumbers} sy k r sp sy' :
  reachable sy -> sys_enabled sy = false -> sys_step (EvReadDone k r sp) sy = Some sy' ->
  sys_enabled sy' = false /\
  status_items (st_ext (sys_state sy')) = status_items (st_ext (sys_state sy)) /\
  actors (st_world (sys_state sy')) = actors (st_world (sys_state sy)) /\
  logs (st_world (sys_state sy')) = logs (st_world (sys_state sy)) ++ [LClosedByUser].
Proof.
  intros Hr Hen. destruct (inv_disabled _ _ (reachable_state_inv sy Hr) Hen) as [_ Hrun].
  destruct sy as [s en]; simpl in *. subst en. unfold take_pending.
  destruct (pending (st_world s) !! k) as [st|]; simpl; [|done]. intros [= <-]. simpl.
  unfold run_handler, read_callback. cbv [bind get]. simpl. rewrite Hrun. simpl.
  by repeat split.
Qed.

(** C24: when [/usr/bin/i3status] cannot be spawned, [enable] throws
    the [GLib.Error] past its boundary after it has built the button
    and the box and registered the button in the status area: the
    button, with the box in it, stays in the panel while the flag stays
    down, no handle is recorded and nothing is logged.  The shell marks
    such an extension as errored and does not call [disable], so the
    button is never destroyed.  The spec says [enable] does not throw
    and a spawn failure is logged and leaves the supervisor stopped. *)
Theorem enable_spawn_error `{JsNumbers} s :
  status_area (st_world s) = None ->
  exists s', enable SpawnThrow s = (Throw GLibError, s') /\
    status_panel (st_ext s') = Some (next_id (st_world s)) /\
    display_box (st_ext s') = Some (S (next_id (st_world s))) /\
    status_area (st_world s') = Some (next_id (st_world s)) /\
    actors (st_world s') !! next_id (st_world s) = Some (fresh_actor KButton) /\
    actors (st_world s') !! S (next_id (st_world s)) = Some (reparent (Some (next_id (st_world s))) (fresh_actor KBox)) /\
    running (st_ext s') = running (st_ext s) /\ i3status (st_ext s') = i3status (st_ext s) /\
    spawned (st_world s') = spawned (st_world s) /\ pending (st_world s') = pending (st_world s) /\
    logs (st_world s') = logs (st_world s).
Proof.
  destruct s as [[run h fn items box panel] [acts nid area sp0 cp cf pend lg]]; simpl. intros ->.
  eexists. split; [unfold enable, _start_i3status; host_unfold; reflexivity|]. simpl.
  split_and!; try reflexivity.
  - rewrite lookup_alter_ne, lookup_insert_ne, lookup_insert by lia. case_decide; [done|lia].
  - rewrite lookup_alter, lookup_insert. case_decide; [done|lia].
Qed.

(** ** Runs of the extension *)

#[local] Existing Instance integer_numbers.

(** The state after [enable] and one status line, and after a
    [disable] that follows. *)
Definition demo_enabled : system :=
  default sys_init (run_events
    [EvEnable (SpawnRet true 100 101 102 103);
     EvReadDone 0 (RLine (jq "[{'name':'memory','full_text':'memory: 512 MiB'}]")) SpawnThrow] sys_init).

Definition demo_disabled : system := default sys_init (run_events [EvDisable] demo_enabled).

Lemma demo_enabled_reachable : reachable demo_enabled.
Proof.
  apply (run_events_reachable
    [EvEnable (SpawnRet true 100 101 102 103);
     EvReadDone 0 (RLine (jq "[{'name':'memory','full_text':'memory: 512 MiB'}]")) SpawnThrow] sys_init);
    [apply reachable_init | vm_compute; reflexivity].
Qed.

Lemma demo_disabled_reachable : reachable demo_disabled.
Proof.
  apply (run_events_reachable [EvDisable] demo_enabled);
    [exact demo_enabled_reachable | vm_compute; reflexivity].
Qed.

Lemma reachable_display_wf_witness :
  match display_box (st_ext (sys_state demo_enabled)) with
  | Some b => slots_wf b (sys_state demo_enabled)
  | None => status_items (st_ext (sys_state demo_enabled)) = [] /\
            labels_dead (actors (st_world (sys_state demo_enabled)))
  end.
Proof. apply reachable_display_wf. exact demo_enabled_reachable. Defined.

Lemma reachable_supervisor_witness :
  running (st_ext (sys_state demo_enabled)) = true /\
  (running (st_ext (sys_state demo_enabled)) = true ->
     i3status (st_ext (sys_state demo_enabled)) <> None /\
     display_box (st_ext (sys_state demo_enabled)) <> None).
Proof.
  split; [vm_compute; reflexivity|].
  apply (reachable_supervisor demo_enabled demo_enabled_reachable).
Defined.

Lemma disabled_read_inert_witness :
  let sy' := default sys_init (sys_step (EvReadDone 0 (RLine (str "[]")) SpawnThrow) demo_disabled) in
  status_items (st_ext (sys_state sy')) = status_items (st_ext (sys_state demo_disabled)).
Proof.
  intros sy'. apply (disabled_read_inert demo_disabled 0 (RLine (str "[]")) SpawnThrow sy').
  - exact demo_disabled_reachable.
  - vm_compute. reflexivity.
  - vm_compute. reflexivity.
Defined.

(** The supervisor's theorems on the extension's consumer. *)
Lemma read_callback_stopped_witness :
  read_callback 2 (RLine (str "[]")) SpawnThrow (sys_state demo_disabled) =
    (Ok tt, {| st_ext := st_ext (sys_state demo_disabled);
               st_world := world_with_logs (logs (st_world (sys_state demo_disabled)) ++ [LClosedByUser])
                             (st_world (sys_state demo_disabled)) |}).
Proof. apply read_callback_stopped. left. vm_compute. reflexivity. Defined.

Lemma read_callback_eof_restart_witness :
  exists s', read_callback 2 REof (SpawnRet true 200 201 202 203) (sys_state demo_enabled) = (Ok tt, s') /\
    pending (st_world s') = pending (st_world (sys_state demo_enabled)) ++ [6; 6].
Proof.
  destruct (read_callback_eof_restart 2 (sys_state demo_enabled) {| h_pid := 100; h_stdout := 2 |}
              200 201 202 203) as (s' & Hrun & _ & _ & Hp & _); [vm_compute; reflexivity..|].
  exists s'. split; [exact Hrun|]. rewrite Hp. reflexivity.
Defined.

Lemma read_callback_line_witness :
  let l := jq "[{'name':'cpu_usage','full_text':'cpu_usage: 7%'}]" in
  match consume_line l (sys_state demo_enabled) with
  | (Ok _, s1) =>
      read_callback 2 (RLine l) SpawnThrow (sys_state demo_enabled) =
        (Ok tt, {| st_ext := st_ext s1;
                   st_world := world_with_pending (pending (st_world (sys_state demo_enabled)) ++ [2])
                                 (st_world s1) |})
  | (Throw e, s1) =>
      read_callback 2 (RLine l) SpawnThrow (sys_state demo_enabled) = (Throw e, s1) /\
      pending (st_world s1) = pending (st_world (sys_state demo_enabled))
  end.
Proof.
  intros l. apply (read_callback_line 2 l SpawnThrow (sys_state demo_enabled) {| h_pid := 100; h_stdout := 2 |});
    vm_compute; [reflexivity | reflexivity | discriminate].
Defined.

(** The constructor's object, enabled on a host without i3status. *)
Lemma enable_spawn_error_witness :
  exists s', enable SpawnThrow init_state = (Throw GLibError, s') /\ status_area (st_world s') = Some 0.
Proof.
  destruct (enable_spawn_error init_state) as (s' & He & _ & _ & Har & _); [vm_compute; reflexivity|].
  exists s'. by split.
Defined.
