(* ===== verification/Pipeline.v ===== *)
(** * From the child's output to the panel

    The whole path of one status line: i3status writes it
    ([Protocol.i3bar_line]), a read completes with it while the
    supervisor runs ([Supervisor.read_callback]), the extension's
    consumer parses it ([Parse._parse_i3status_i3bar]) and reconciles
    the slots with the fields ([Display._update_status]), and the next
    read is issued.  The theorem composes the components' lemmas: the
    round trip of the JSON text, the parser's loop on blocks, the
    reconciler's refinement of the view and the supervisor's read loop
    under the consumer's promise [LineConsumerOk]. *)

From stdpp Require Import gmap.
From S2P Require Import Prelude JsValue Split Json Parse Protocol Host Display Supervisor Extension.

(** The splitter gives a string value for every string text. *)
Lemma block_field_string bk : value_is_string (block_field bk) = true.
Proof. unfold block_field, split_closed. by repeat case_match; simplify_eq. Qed.

Lemma fields_string names bs :
  Forall (fun f => value_is_string f = true) (map block_field (List.filter (selected names) bs)).
Proof. apply Forall_forall. intros f Hf. apply list_elem_of_In, in_map_iff in Hf as (bk & <- & _). apply block_field_string. Qed.

Lemma i3bar_line_nonempty cont bs : i3bar_line cont bs <> [].
Proof. intros Hl. pose proof (length_line cont bs) as Hlen. rewrite Hl in Hlen. simpl in Hlen. lia. Qed.

(** [view] and [slots_wf] read only the extension's fields and the
    actors, not the outstanding reads. *)
Lemma view_pending s p : view {| st_ext := st_ext s; st_world := world_with_pending p (st_world s) |} = view s.
Proof. by destruct s as [e []]. Qed.

(** The fields the parser gives for a line of blocks. *)
Definition fields (names : list jsstr) (bs : list block) : list status_info :=
  map block_field (List.filter (selected names) bs).

(** What the extension does with one line while it runs: the supervisor
    keeps its handle and flag, the filter is the constructor's, the
    display is consistent and exactly one read is outstanding, on the
    current stream. *)
Definition loop_ok (names : list jsstr) (h : handle) (b : nat) (s : state) : Prop :=
  running (st_ext s) = true /\ i3status (st_ext s) = Some h /\ filter_names (st_ext s) = names /\
  slots_wf b s /\ pending (st_world s) = [h_stdout h].

Lemma last_map_list {A B} (f : A -> B) l : last (map f l) = f <$> last l.
Proof. induction l as [|x [|y l] IH]; simpl in *; auto. Qed.

(** The events of a session: each line completes the one outstanding
    read. *)
Definition session_events (ls : list jsstr) (sp : spawn_result) : list event :=
  map (fun l => EvReadDone 0 (RLine l) sp) ls.

Section Pipeline.
Context `{JsNumbers}.

(** What the consumer logs for the error the parser caught. *)
Definition caught_log (err : option js_error) : list log_entry :=
  match err with Some e => [LCaught e] | None => [] end.

(** A line that the consumer turns into [infos] on every consistent
    display, logging [caught_log err], without an exception. *)
Definition line_shows (names : list jsstr) (l : jsstr) (infos : list status_info)
    (err : option js_error) : Prop :=
  l <> [] /\ forall b s, filter_names (st_ext s) = names -> slots_wf b s ->
  exists s1, consume_line l s = (Ok tt, s1) /\ slots_wf b s1 /\ display_frame s
    {| st_ext := st_ext s1; st_world := world_with_logs (logs (st_world s)) (st_world s1) |} /\
    logs (st_world s1) = logs (st_world s) ++ caught_log err /\ view s1 = info_view <$> infos.

Lemma shows_parsed names l infos err :
  l <> [] -> (forall n, n = names -> _parse_i3status_i3bar n l = (infos, err)) ->
  Forall (fun f => value_is_string f = true) infos -> line_shows names l infos err.
Proof.
  intros Hl Hp Hstr. split; [done|]. intros b s Hn Hwf.
  unfold consume_line, i3bar_consumer. cbv [bind get]. rewrite (Hp _ Hn).
  set (sL := match err with Some e => log (LCaught e) | None => ret tt end s).
  assert (HL : sL.1 = Ok tt /\ st_ext sL.2 = st_ext s /\
               st_world sL.2 = world_with_logs (logs (st_world s) ++ caught_log err) (st_world s)).
  { subst sL. destruct err; [done|]. simpl. rewrite app_nil_r. by destruct s as [? []]. }
  destruct sL as [o sL'] eqn:EL. simpl in HL. destruct HL as (-> & He & Hw).
  assert (HwfL : slots_wf b sL') by (eapply slots_wf_frame; [..|exact Hwf]; by rewrite ?He, ?Hw).
  destruct (update_status_run b sL' infos HwfL Hstr) as (s1 & Hu & Hwf1 & Hf1 & Hv1).
  exists s1. rewrite Hu. split_and!; [done | done | | | done].
  - destruct s1 as [e1 []], Hf1 as (? & ? & ? & ? & ? & ? & ? & ? & ? & ? & ?).
    simpl in *. rewrite He, Hw in *. simpl in *. by split_and!.
  - destruct Hf1 as (_ & _ & _ & _ & _ & _ & _ & _ & _ & _ & ->). by rewrite Hw.
Qed.

Lemma shows_i3bar_line names cont bs :
  Forall (fun bk => block_ok bk = true) bs -> line_shows names (i3bar_line cont bs) (fields names bs) None.
Proof.
  intros Hbs. apply shows_parsed; [apply i3bar_line_nonempty | | apply fields_string].
  intros n ->. by apply i3bar_line_fields.
Qed.

Lemma shows_header names : line_shows names header_line [] None.
Proof. apply shows_parsed; [done | intros n _; apply parse_header | constructor]. Qed.

Lemma shows_open names : line_shows names open_line [] None.
Proof. apply shows_parsed; [done | intros n _; apply parse_open | constructor]. Qed.

(** A line that is not JSON clears the display and logs the error. *)
Lemma shows_corrupt names l e :
  2 <= length l -> JSON_parse (strip_comma l) = Throw e -> line_shows names l [] (Some e).
Proof.
  intros Hl Hj. apply shows_parsed; [by destruct l; simpl in Hl; [lia|] | | constructor].
  intros n _. rewrite parse_long by done. unfold bind at 1, lift. by rewrite Hj.
Qed.

(** One completed read of a line that shows [infos]. *)
Lemma read_shows names l infos err stream sp s h b :
  line_shows names l infos err ->
  running (st_ext s) = true -> i3status (st_ext s) = Some h -> filter_names (st_ext s) = names ->
  slots_wf b s ->
  exists s', read_callback stream (RLine l) sp s = (Ok tt, s') /\
    view s' = info_view <$> infos /\ slots_wf b s' /\
    pending (st_world s') = pending (st_world s) ++ [h_stdout h] /\
    logs (st_world s') = logs (st_world s) ++ caught_log err /\
    running (st_ext s') = true /\ i3status (st_ext s') = Some h /\ filter_names (st_ext s') = names.
Proof.
  intros [Hl Hshow] Hr Hh Hn Hwf.
  destruct (Hshow b s Hn Hwf) as (s1 & Hc & Hwf1 & Hf1 & Hlog1 & Hv1).
  rewrite (read_callback_consumed stream _ sp s h tt s1 Hr Hh Hl Hc).
  eexists. split; [reflexivity|]. rewrite view_pending.
  destruct s1 as [e1 []]. destruct Hf1 as (Hr1 & Hh1 & Hn1 & _). simpl in *. split_and!; try congruence.
  eapply slots_wf_frame; [..|exact Hwf1]; done.
Qed.

(** C4: end to end.  While the supervisor runs on a consistent
    display, a read that completes with a line i3status writes (the
    first or a continuation line, whatever its strings hold) returns
    normally; afterwards the panel shows, slot by slot, the label,
    value and unit of the blocks with non-empty text and a listed name,
    in the order of the line, the display is still consistent, nothing
    is logged and exactly one next read is outstanding on the current
    stream. *)
Theorem i3bar_line_displayed stream cont bs sp s h b :
  running (st_ext s) = true -> i3status (st_ext s) = Some h -> slots_wf b s ->
  Forall (fun bk => block_ok bk = true) bs ->
  exists s', read_callback stream (RLine (i3bar_line cont bs)) sp s = (Ok tt, s') /\
    view s' = info_view <$> fields (filter_names (st_ext s)) bs /\
    slots_wf b s' /\
    pending (st_world s') = pending (st_world s) ++ [h_stdout h] /\
    logs (st_world s') = logs (st_world s) /\
    running (st_ext s') = true /\ i3status (st_ext s') = Some h.
Proof.
  intros Hr Hh Hwf Hbs.
  destruct (read_shows _ _ _ _ stream sp s h b (shows_i3bar_line _ cont bs Hbs) Hr Hh eq_refl Hwf)
    as (s' & ? & ? & ? & ? & Hlog & ? & ? & _).
  exists s'. split_and!; try done. by rewrite Hlog, app_nil_r.
Qed.
(** C22: a line that is not JSON, read while running, is logged and
    then clears the panel: [_parse_i3status_i3bar] returns the empty
    list, which is truthy, so [_update_status] destroys every slot
    (with none left, the display invariant says no label is alive);
    the supervisor goes on with the next read.  The spec says a decode
    failure leaves the displayed fields as they were until the next
    successful parse. *)
Theorem corrupt_line_clears_display stream l sp s h b e :
  running (st_ext s) = true -> i3status (st_ext s) = Some h -> slots_wf b s ->
  2 <= length l -> JSON_parse (strip_comma l) = Throw e ->
  exists s', read_callback stream (RLine l) sp s = (Ok tt, s') /\
    status_items (st_ext s') = [] /\ slots_wf b s' /\
    logs (st_world s') = logs (st_world s) ++ [LCaught e] /\
    pending (st_world s') = pending (st_world s) ++ [h_stdout h] /\
    running (st_ext s') = true /\ i3status (st_ext s') = Some h.
Proof.
  intros Hr Hh Hwf Hl Hj.
  destruct (read_shows _ _ _ _ stream sp s h b (shows_corrupt _ l e Hl Hj) Hr Hh eq_refl Hwf)
    as (s' & Hrun & Hv & Hwf' & Hp & Hlog & Hr' & Hh' & _).
  exists s'. split_and!; try done. unfold view in Hv. by apply fmap_nil_inv in Hv.
Qed.

(** ** A session of i3status *)

(** One shell event: the outstanding read completes with a line. *)
Lemma step_shows names l infos sp sy h b :
  line_shows names l infos None -> loop_ok names h b (sys_state sy) ->
  exists sy', sys_step (EvReadDone 0 (RLine l) sp) sy = Some sy' /\ sys_enabled sy' = sys_enabled sy /\
    loop_ok names h b (sys_state sy') /\ view (sys_state sy') = info_view <$> infos /\
    logs (st_world (sys_state sy')) = logs (st_world (sys_state sy)).
Proof.
  intros Hs (Hr & Hh & Hn & Hwf & Hp). destruct sy as [s en]; simpl in *.
  set (s0 := {| st_ext := st_ext s; st_world := world_with_pending [] (st_world s) |}).
  assert (Ht : take_pending 0 s = Some (h_stdout h, s0)) by (unfold take_pending; by rewrite Hp).
  assert (Hwf0 : slots_wf b s0) by (eapply slots_wf_frame; [..|exact Hwf]; by destruct s as [? []]).
  destruct (read_shows names l infos None (h_stdout h) sp s0 h b Hs Hr Hh Hn Hwf0)
    as (s' & Hrun & Hv & Hwf' & Hp' & Hl' & Hr' & Hh' & Hn').
  exists {| sys_state := s'; sys_enabled := en |}. unfold sys_step. rewrite Ht.
  unfold run_handler. rewrite Hrun. simpl. subst s0. destruct s as [? []]; simpl in *.
  rewrite app_nil_r in Hl'. split_and!; done.
Qed.

Lemma run_shows names ls infoss sp sy h b :
  Forall2 (fun l i => line_shows names l i None) ls infoss -> loop_ok names h b (sys_state sy) ->
  exists sy', run_events (session_events ls sp) sy = Some sy' /\ sys_enabled sy' = sys_enabled sy /\
    loop_ok names h b (sys_state sy') /\
    logs (st_world (sys_state sy')) = logs (st_world (sys_state sy)) /\
    (forall infos, last infoss = Some infos -> view (sys_state sy') = info_view <$> infos).
Proof.
  intros Hall. revert sy. induction Hall as [|l i ls iss Hs Hall IH]; intros sy Hok.
  - exists sy. split_and!; done.
  - destruct (step_shows _ _ _ sp sy h b Hs Hok) as (sy1 & Hst & He1 & Hok1 & Hv1 & Hl1).
    destruct (IH sy1 Hok1) as (sy' & Hrun & He' & Hok' & Hl' & Hv').
    exists sy'. unfold session_events in *. cbn [map run_events]. rewrite Hst. simpl. split_and!; try congruence.
    intros i' Hlast. destruct iss as [|i2 iss].
    + inversion Hall; subst. simpl in Hrun, Hlast. by simplify_eq.
    + by apply Hv'.
Qed.

Lemma session_shows names first rest :
  Forall (fun bs => Forall (fun bk => block_ok bk = true) bs) (first :: rest) ->
  Forall2 (fun l i => line_shows names l i None) (i3status_output first rest) ([] :: [] :: map (fields names) (first :: rest)).
Proof.
  intros Hall. apply Forall_cons in Hall as [Hf Hrest].
  constructor; [apply shows_header|]. constructor; [apply shows_open|].
  constructor; [by apply shows_i3bar_line|].
  induction Hrest; constructor; [by apply shows_i3bar_line | done].
Qed.

(** C5: a whole run of i3status.  From a running extension with a
    consistent display and one outstanding read, the shell delivering
    the lines i3status writes (the header, the opening bracket, the
    first status line and the continuation lines), each as the
    completion of the outstanding read, runs without an exception:
    after every line the supervisor still runs the same child, exactly
    one read is outstanding on its stream, nothing is logged, and at
    the end the panel shows the fields of the last status line. *)
Theorem i3status_session_displayed names h b sp sy first rest :
  loop_ok names h b (sys_state sy) ->
  Forall (fun bs => Forall (fun bk => block_ok bk = true) bs) (first :: rest) ->
  exists sy', run_events (session_events (i3status_output first rest) sp) sy = Some sy' /\
    sys_enabled sy' = sys_enabled sy /\ loop_ok names h b (sys_state sy') /\
    logs (st_world (sys_state sy')) = logs (st_world (sys_state sy)) /\
    (forall bs, last (first :: rest) = Some bs -> view (sys_state sy') = info_view <$> fields names bs).
Proof.
  intros Hok Hall.
  destruct (run_shows _ _ _ sp sy h b (session_shows names first rest Hall) Hok)
    as (sy' & Hrun & He & Hok' & Hl & Hv).
  exists sy'. split_and!; try done. intros bs Hbs. apply Hv.
  change (last (map (fields names) (first :: rest)) = Some (fields names bs)).
  by rewrite last_map_list, Hbs.
Qed.
End Pipeline.

#[local] Existing Instance integer_numbers.

(** The running extension after one line, fed the continuation line of
    [demo_blocks]: the [cpu_usage] and [memory] blocks are shown, the
    [volume] block is not. *)
Lemma i3bar_line_displayed_witness :
  exists s', read_callback 2 (RLine (i3bar_line true demo_blocks)) SpawnThrow (sys_state demo_enabled)
    = (Ok tt, s') /\
    view s' = [(Some (str "cpu_usage"), Some (str "7"), Some (str "%"));
               (Some (str "memory"), Some (str "1"), Some (str "GiB"))].
Proof.
  destruct (i3bar_line_displayed 2 true demo_blocks SpawnThrow (sys_state demo_enabled)
              {| h_pid := 100; h_stdout := 2 |} 1) as (s' & Hrun & Hv & _);
    [vm_compute; reflexivity | vm_compute; reflexivity
    | apply slots_wfb_sound; vm_compute; reflexivity | repeat constructor |].
  exists s'. split; [exact Hrun|]. rewrite Hv. vm_compute. reflexivity.
Defined.

(** A run of i3status with [demo_blocks] as its first status line and
    one continuation line, delivered to the running extension. *)
Definition demo_rest : list (list block) :=
  [[ {| b_name := str "cpu_usage"; b_full_text := str "cpu_usage: 9%"; b_other := [] |} ]].

Lemma i3status_session_displayed_witness :
  exists sy', run_events (session_events (i3status_output demo_blocks demo_rest) SpawnThrow) demo_enabled
    = Some sy' /\
    pending (st_world (sys_state sy')) = [2] /\
    view (sys_state sy') = [(Some (str "cpu_usage"), Some (str "9"), Some (str "%"))].
Proof.
  destruct (i3status_session_displayed filter_status_names {| h_pid := 100; h_stdout := 2 |} 1 SpawnThrow
              demo_enabled demo_blocks demo_rest) as (sy' & Hrun & _ & Hok & _ & Hv).
  - unfold loop_ok. split_and!; [vm_compute; reflexivity.. | | vm_compute; reflexivity].
    apply slots_wfb_sound. vm_compute. reflexivity.
  - repeat constructor.
  - exists sy'. destruct Hok as (_ & _ & _ & _ & Hp).
    split_and!; [exact Hrun | exact Hp | rewrite (Hv _ eq_refl); vm_compute; reflexivity].
Defined.

(** The running extension shows one slot; the line [[oops] clears it. *)
Lemma corrupt_line_clears_display_witness :
  status_items (st_ext (sys_state demo_enabled)) <> [] /\
  exists s', read_callback 2 (RLine (str "[oops")) SpawnThrow (sys_state demo_enabled) = (Ok tt, s') /\
    status_items (st_ext s') = [].
Proof.
  split; [vm_compute; discriminate|].
  destruct (corrupt_line_clears_display 2 (str "[oops") SpawnThrow (sys_state demo_enabled)
              {| h_pid := 100; h_stdout := 2 |} 1 SyntaxError) as (s' & Hrun & Hi & _);
    [vm_compute; reflexivity | vm_compute; reflexivity
    | apply slots_wfb_sound; vm_compute; reflexivity | vm_compute; lia | vm_compute; reflexivity |].
  by exists s'.
Defined.
