(* ===== verification/Liveness.v ===== *)
(** * The read loop does not stall

    The read loop of [Supervisor] is a chain of callbacks: each
    completed read issues the next one.  [Liveness] shows that the chain
    is never broken while the extension runs, unless an exception left
    a handler (the shell then logs it, [LUncaught]): in every reachable
    state, a running extension has a read outstanding on its current
    stream.  From such a state, every sequence of lines i3status writes
    is delivered, one completion after the other, and each is shown.
    The chain also outlives a session: a read that [disable] left
    outstanding is delivered after the next [enable], into the new
    session. *)

From stdpp Require Import gmap.
From S2P Require Import Prelude JsValue Json Parse Protocol Host Display Supervisor Extension Pipeline.

#[local] Open Scope js_scope.

(** ** The current read *)

(** An exception left a handler and the shell logged it. *)
Definition crashed (s : state) : Prop := exists e, LUncaught e ∈ logs (st_world s).

(** A read is outstanding on the current handle's stream. *)
Definition read_current (s : state) : Prop :=
  exists h, i3status (st_ext s) = Some h /\ h_stdout h ∈ pending (st_world s).

(** The loop is alive, or a handler threw. *)
Definition loop_live (s : state) : Prop := running (st_ext s) = true -> read_current s \/ crashed s.

Lemma snoc_in {A} (l : list A) x : x ∈ l ++ [x].
Proof. apply elem_of_app. right. constructor. Qed.

#[local] Hint Resolve snoc_in : core.

(** A computation that ends with [_read_i3status_async] and returns
    leaves a read on the current stream. *)
Lemma read_async_current {A} (m : M A) s u s' :
  (m ;;; _read_i3status_async) s = (Ok u, s') -> read_current s'.
Proof.
  intros (a & s1 & _ & Hr)%bind_ok_inv. unfold _read_i3status_async, read_line_async in Hr.
  cbv [bind get set_world modify throw] in Hr. destruct (i3status (st_ext s1)) as [h|] eqn:E; [|done].
  injection Hr as _ <-. exists h. destruct s1 as [? []]. simpl in *. auto.
Qed.

(** [_start_i3status]: when it returns, the supervisor is as before
    (the spawn failed) or runs with a read on the new stream. *)
Lemma start_live sp s u s' :
  _start_i3status sp s = (Ok u, s') ->
  (running (st_ext s') = running (st_ext s) /\ i3status (st_ext s') = i3status (st_ext s)) \/
  (running (st_ext s') = true /\ read_current s').
Proof.
  destruct s as [[] []]. destruct sp as [[] pid i o e|];
    unfold _start_i3status, _read_i3status_async; host_unfold; intros [= <- <-];
    [right; split; [done|]; eexists; split; [reflexivity|]; simpl; auto | by left].
Qed.

(** [enable] from a stopped supervisor: when it returns, the supervisor
    is still stopped or runs with a read on the new stream. *)
Lemma enable_live sp s u s' :
  running (st_ext s) = false -> enable sp s = (Ok u, s') ->
  running (st_ext s') = false \/ read_current s'.
Proof.
  destruct s as [[] []]; simpl. intros ->. unfold enable. host_unfold.
  repeat case_match; intros He; simplify_eq;
    destruct (start_live _ _ _ _ He) as [[-> _] | [_ ?]]; auto.
Qed.

Section Live.
Context `{JsNumbers}.

(** A callback that returns leaves the stopped supervisor stopped, or
    a read on the current stream. *)
Lemma callback_live st r sp s u s' :
  (running (st_ext s) = true -> i3status (st_ext s) <> None) ->
  read_callback st r sp s = (Ok u, s') -> running (st_ext s') = true -> read_current s'.
Proof.
  intros Hinv. unfold read_callback. intros (s0 & s1 & [= <- <-] & Hc)%bind_ok_inv.
  destruct (negb (running (st_ext s)) || _) eqn:G.
  - cbv [log set_world modify] in Hc. injection Hc as _ <-. simpl. intros Hr.
    destruct (i3status (st_ext s)) eqn:Hi; [|by destruct Hinv].
    by rewrite Hr in G.
  - apply bind_ok_inv in Hc as ([line len] & s2 & _ & Hc). intros _. by eapply read_async_current.
Qed.

(** Every event ends with the loop alive, the supervisor stopped, or an
    exception logged. *)
Lemma step_live ev sy sy' : sys_inv sy -> sys_step ev sy = Some sy' -> loop_live (sys_state sy').
Proof.
  intros Hinv Hst. pose proof (sys_step_inv _ _ _ Hinv Hst) as Hinv'.
  revert Hinv Hinv' Hst. unfold sys_inv. destruct sy as [s en]. destruct ev as [sp| |k r sp]; simpl.
  - destruct en; [done|]. intros Hinv _ [= <-]. simpl. unfold run_handler.
    destruct (enable sp s) as [[u|e] s1] eqn:E; simpl; intros Hr.
    + left. destruct (enable_live sp s u s1 (proj2 (inv_disabled _ _ Hinv eq_refl)) E); [congruence|done].
    + right. exists e. destruct s1 as [? []]; simpl; auto.
  - destruct en; [|done]. intros _ Hinv' [= <-]. intros Hr. exfalso.
    destruct (inv_disabled _ _ Hinv' eq_refl) as [_ Hf]. simpl in *. congruence.
  - intros Hinv _. destruct (take_pending k s) as [[st s0]|] eqn:Ht; [|done]. intros [= <-]. simpl.
    unfold run_handler. destruct (read_callback st r sp s0) as [[u|e] s1] eqn:E; simpl; intros Hr.
    + left. eapply callback_live; [|exact E|exact Hr].
      unfold take_pending in Ht. destruct (_ !! k); simplify_eq. simpl.
      intros Hr0. apply (inv_running _ _ Hinv Hr0).
    + right. exists e. destruct s1 as [? []]; simpl; auto.
Qed.

Lemma reachable_live sy : reachable sy -> loop_live (sys_state sy).
Proof.
  destruct 1 as [|sy0 ev sy' Hreach Hst]; [done|].
  eapply step_live; [|exact Hst]. by apply reachable_state_inv.
Qed.

(** C13: the read loop does not stall.  In every state the shell can
    reach, if the extension runs the child [h] and no exception has
    left a handler, a read is outstanding on [h]'s stream: the next
    line the child writes will be delivered.  The loop is broken only
    by an exception that escapes a callback (a non-string value, a
    read error, a failing spawn at a restart). *)
Theorem reachable_read_outstanding sy h :
  reachable sy -> running (st_ext (sys_state sy)) = true -> i3status (st_ext (sys_state sy)) = Some h ->
  (forall e, LUncaught e ∉ logs (st_world (sys_state sy))) ->
  h_stdout h ∈ pending (st_world (sys_state sy)).
Proof.
  intros Hreach Hr Hh Hnc.
  destruct (reachable_live sy Hreach Hr) as [(h' & Hh' & Hp) | (e & He)]; [|by destruct (Hnc e)].
  rewrite Hh in Hh'. by simplify_eq.
Qed.
End Live.

(** ** Every line is delivered *)

(** The outstanding read on the current handle's stream, if any. *)
Definition current_read (s : state) : option nat :=
  match i3status (st_ext s) with
  | Some h => fst <$> list_find (fun st => st = h_stdout h) (pending (st_world s))
  | None => None
  end.

Section Forever.
Context `{JsNumbers}.

(** The shell completes the current stream's read with [l]. *)
Definition deliver (sp : spawn_result) (l : jsstr) (sy : system) : option system :=
  k ← current_read (sys_state sy); sys_step (EvReadDone k (RLine l) sp) sy.

(** The first [n] lines, each delivered when the previous one is done. *)
Fixpoint feed (sp : spawn_result) (lines : nat -> jsstr) (n : nat) (sy : system) : option system :=
  match n with
  | 0 => Some sy
  | S n' => sy1 ← feed sp lines n' sy; deliver sp (lines n') sy1
  end.

(** The loop runs the child [h] with a read outstanding on its stream. *)
Definition alive (names : list jsstr) (h : handle) (sy : system) : Prop :=
  reachable sy /\ running (st_ext (sys_state sy)) = true /\ i3status (st_ext (sys_state sy)) = Some h /\
  filter_names (st_ext (sys_state sy)) = names /\ h_stdout h ∈ pending (st_world (sys_state sy)).

Lemma current_read_some s h :
  i3status (st_ext s) = Some h -> h_stdout h ∈ pending (st_world s) ->
  exists k, current_read s = Some k /\ pending (st_world s) !! k = Some (h_stdout h).
Proof.
  intros Hh Hp. unfold current_read. rewrite Hh.
  destruct (list_find_elem_of (fun st => st = h_stdout h) _ _ Hp eq_refl) as [[k y] Hf].
  rewrite Hf. apply list_find_Some in Hf as (Hk & -> & _). by exists k.
Qed.

Lemma deliver_shows names h sp l infos sy :
  alive names h sy -> line_shows names l infos None ->
  exists sy', deliver sp l sy = Some sy' /\ alive names h sy' /\
    view (sys_state sy') = info_view <$> infos.
Proof.
  intros (Hreach & Hr & Hh & Hn & Hp) Hs. destruct (reachable_state_inv sy Hreach) as [Hd _ Hrun _].
  destruct sy as [s en]; simpl in *.
  destruct (display_box (st_ext s)) as [b|] eqn:Hb; [|by destruct (Hrun Hr)].
  unfold display_inv in Hd. rewrite Hb in Hd.
  destruct (current_read_some s h Hh Hp) as (k & Hk & Hpk).
  set (s0 := {| st_ext := st_ext s; st_world := world_with_pending (delete k (pending (st_world s))) (st_world s) |}).
  assert (Ht : take_pending k s = Some (h_stdout h, s0)) by (unfold take_pending; by rewrite Hpk).
  assert (Hwf0 : slots_wf b s0) by (eapply slots_wf_frame; [..|exact Hd]; by destruct s as [? []]).
  destruct (read_shows names l infos None (h_stdout h) sp s0 h b Hs Hr Hh Hn Hwf0)
    as (s' & Hcb & Hv & _ & Hp' & _ & Hr' & Hh' & Hn').
  set (sy' := {| sys_state := s'; sys_enabled := en |}).
  assert (Hst : sys_step (EvReadDone k (RLine l) sp) {| sys_state := s; sys_enabled := en |} = Some sy').
  { simpl. rewrite Ht. unfold run_handler. by rewrite Hcb. }
  exists sy'. unfold deliver. simpl. rewrite Hk. simpl. split; [exact Hst|]. split; [|done].
  split_and!; try done; [econstructor; [exact Hreach | exact Hst] | subst sy'; simpl; rewrite Hp'; auto].
Qed.

Lemma feed_shows names h sp lines infos sy :
  alive names h sy -> (forall i, line_shows names (lines i) (infos i) None) ->
  forall n, exists sy', feed sp lines n sy = Some sy' /\ alive names h sy' /\
    (forall m, n = S m -> view (sys_state sy') = info_view <$> infos m).
Proof.
  intros Ha Hs. induction n as [|n IH]; [by exists sy|].
  destruct IH as (sy1 & Hf & Ha1 & _).
  destruct (deliver_shows names h sp (lines n) (infos n) sy1 Ha1 (Hs n)) as (sy' & Hd & Ha' & Hv).
  exists sy'. simpl. rewrite Hf. simpl. split_and!; [done | done |]. by intros m [= <-].
Qed.

(** C6: liveness of the display.  From any reachable state in which the
    extension runs the child [h] with a read outstanding on its stream,
    whatever i3status writes after that (any infinite sequence of
    status lines, the first without and the others with the leading
    comma) is delivered line after line through the outstanding read:
    for every [n] the first [n] lines are all delivered, the loop is
    still alive on the same child afterwards, and the panel shows the
    selected blocks of the [n]-th line. *)
Theorem lines_displayed_forever sy h sp (blocks : nat -> list block) :
  reachable sy -> running (st_ext (sys_state sy)) = true ->
  i3status (st_ext (sys_state sy)) = Some h -> h_stdout h ∈ pending (st_world (sys_state sy)) ->
  (forall i, Forall (fun bk => block_ok bk = true) (blocks i)) ->
  forall n, exists sy', feed sp (fun i => i3bar_line (bool_decide (i <> 0)) (blocks i)) n sy = Some sy' /\
    reachable sy' /\ running (st_ext (sys_state sy')) = true /\
    i3status (st_ext (sys_state sy')) = Some h /\ h_stdout h ∈ pending (st_world (sys_state sy')) /\
    (forall m, n = S m -> view (sys_state sy') = info_view <$> fields (filter_names (st_ext (sys_state sy))) (blocks m)).
Proof.
  intros Hreach Hr Hh Hp Hbs n.
  destruct (feed_shows (filter_names (st_ext (sys_state sy))) h sp
              (fun i => i3bar_line (bool_decide (i <> 0)) (blocks i)) (fun i => fields _ (blocks i)) sy
              ltac:(done) (fun i => shows_i3bar_line _ _ _ (Hbs i)) n) as (sy' & Hf & (? & ? & ? & _ & ?) & Hv).
  by exists sy'.
Qed.
End Forever.

(** ** Reads that outlive [disable] *)

Section Stale.
Context `{JsNumbers}.

(** C23: a read that [disable] left outstanding is delivered into the
    next session.  From any reachable disabled state whose status area
    is free, with a read [k] outstanding, a successful [enable] starts
    a child [h] and adds one read on its new stream behind [k].  When
    [k] then completes with a status line, the callback finds the flag
    up and the new handle, so the line is not discarded: the panel of
    the new session shows its blocks, and the callback issues its next
    read on the new stream, which already has one.  The callback never
    compares the stream that completed with [this._i3status.stdout];
    the spec requires that a read completing after a stop be
    discarded, and that no stale read be delivered once the handle is
    replaced.  (GIO answers the second read on the same stream with a
    pending-operation error; the outstanding reads here are requests.) *)
Theorem stale_read_after_reenable sy k st pid i o e cont bs sp :
  reachable sy -> sys_enabled sy = false -> status_area (st_world (sys_state sy)) = None ->
  pending (st_world (sys_state sy)) !! k = Some st -> Forall (fun bk => block_ok bk = true) bs ->
  exists sy1 sy2 h,
    sys_step (EvEnable (SpawnRet true pid i o e)) sy = Some sy1 /\
    i3status (st_ext (sys_state sy1)) = Some h /\ h_pid h = pid /\
    pending (st_world (sys_state sy1)) = pending (st_world (sys_state sy)) ++ [h_stdout h] /\
    sys_step (EvReadDone k (RLine (i3bar_line cont bs)) sp) sy1 = Some sy2 /\
    running (st_ext (sys_state sy2)) = true /\ i3status (st_ext (sys_state sy2)) = Some h /\
    view (sys_state sy2) = info_view <$> fields (filter_names (st_ext (sys_state sy))) bs /\
    pending (st_world (sys_state sy2)) = delete k (pending (st_world (sys_state sy))) ++ [h_stdout h; h_stdout h].
Proof.
  intros Hreach Hen Harea Hk Hbs. pose proof (reachable_state_inv sy Hreach) as Hinv.
  destruct sy as [s en]; simpl in *; subst en.
  destruct (enable_spawn_ok pid i o e s Harea) as (s1 & He & Hh1 & Hr1 & Hb1 & Hn1 & Hp1).
  pose proof (enable_inv (SpawnRet true pid i o e) s Hinv) as Hinv1.
  unfold run_handler in Hinv1. rewrite He in Hinv1.
  pose proof (inv_display _ _ Hinv1) as Hd1. unfold display_inv in Hd1. rewrite Hb1 in Hd1.
  assert (Hlen : k < length (pending (st_world s))) by (by eapply lookup_lt_Some).
  set (s0 := {| st_ext := st_ext s1; st_world := world_with_pending (delete k (pending (st_world s1))) (st_world s1) |}).
  assert (Hk1 : pending (st_world s1) !! k = Some st) by (rewrite Hp1; by apply lookup_app_l_Some).
  assert (Ht : take_pending k s1 = Some (st, s0))
    by (unfold take_pending; by rewrite Hk1).
  assert (Hwf0 : slots_wf (S (next_id (st_world s))) s0)
    by (eapply slots_wf_frame; [..|exact Hd1]; by destruct s1 as [? []]).
  destruct (read_shows _ _ _ _ st sp s0 _ _ (shows_i3bar_line (filter_names (st_ext s)) cont bs Hbs)
              Hr1 Hh1 Hn1 Hwf0) as (s2 & Hcb & Hv & _ & Hp2 & _ & Hr2 & Hh2 & _).
  exists {| sys_state := s1; sys_enabled := true |}, {| sys_state := s2; sys_enabled := true |}.
  eexists. simpl. unfold run_handler. rewrite He, Ht, Hcb. split_and!; try done.
  rewrite Hp2. simpl. rewrite Hp1, delete_app_lt by done. by rewrite <- app_assoc.
Qed.
End Stale.

#[local] Existing Instance integer_numbers.

(** After enable and one line, the read on stream 2 is outstanding. *)
Lemma reachable_read_outstanding_witness : 2 ∈ pending (st_world (sys_state demo_enabled)).
Proof.
  apply (reachable_read_outstanding demo_enabled {| h_pid := 100; h_stdout := 2 |});
    [exact demo_enabled_reachable | vm_compute; reflexivity | vm_compute; reflexivity |].
  intros e He. vm_compute in He.
  repeat (apply elem_of_cons in He as [He|He]; [discriminate|]). by apply elem_of_nil in He.
Defined.

(** Three lines of [demo_blocks] delivered to the running extension. *)
Lemma lines_displayed_forever_witness :
  exists sy', feed SpawnThrow (fun i => i3bar_line (bool_decide (i <> 0)) demo_blocks) 3 demo_enabled = Some sy' /\
    view (sys_state sy') = [(Some (str "cpu_usage"), Some (str "7"), Some (str "%"));
                            (Some (str "memory"), Some (str "1"), Some (str "GiB"))].
Proof.
  destruct (lines_displayed_forever demo_enabled {| h_pid := 100; h_stdout := 2 |} SpawnThrow
              (fun _ => demo_blocks)) with (n := 3) as (sy' & Hf & _ & _ & _ & _ & Hv);
    [exact demo_enabled_reachable | vm_compute; reflexivity | vm_compute; reflexivity
    | vm_compute; left | intros; repeat constructor |].
  exists sy'. split; [exact Hf|]. rewrite (Hv 2 eq_refl). vm_compute. reflexivity.
Defined.

(** The read left outstanding by [demo_disabled] is delivered after
    the next enable. *)
Lemma stale_read_after_reenable_witness :
  exists sy1 sy2, sys_step (EvEnable (SpawnRet true 200 201 202 203)) demo_disabled = Some sy1 /\
    sys_step (EvReadDone 0 (RLine (i3bar_line true demo_blocks)) SpawnThrow) sy1 = Some sy2 /\
    pending (st_world (sys_state sy2)) = [8; 8].
Proof.
  destruct (stale_read_after_reenable demo_disabled 0 2 200 201 202 203 true demo_blocks SpawnThrow)
    as (sy1 & sy2 & h & H1 & Hh & _ & _ & H2 & _ & _ & _ & Hp);
    [exact demo_disabled_reachable | vm_compute; reflexivity | vm_compute; reflexivity
    | vm_compute; reflexivity | repeat constructor |].
  exists sy1, sy2. split; [done|]. split; [done|]. rewrite Hp.
  vm_compute in H1. injection H1 as <-. vm_compute in Hh. injection Hh as <-. vm_compute. reflexivity.
Defined.
