(* ===== verification/Resources.v ===== *)
(** * The widgets the extension holds

    Each slot owns three St.Label widgets, created together by
    [_create_status_items] and destroyed together by
    [_remove_status_items] and [disable].  [live_labels] counts the
    labels of the actor heap that are not destroyed; the theorem bounds
    it by the slots: there are exactly three per slot in every state the
    shell can reach, and none while the extension is disabled, so no
    label leaks across updates, restarts and re-enables.  [disable_spec]
    is the contract of [disable] on an enabled extension. *)

From stdpp Require Import gmap.
From S2P Require Import Prelude JsValue Host Display Supervisor Extension.

(** The labels of the heap that are alive. *)
Definition live_labels (s : state) : nat :=
  size (dom (filter (fun kv : nat * actor => is_labelb kv.2 && a_alive kv.2 = true) (actors (st_world s)))).

Lemma length_slot_ids items : length (slot_ids items) = 3 * length items.
Proof.
  induction items as [|[[l t] u] items IH]; [done|].
  change ((l, t, u) :: items) with ([(l, t, u)] ++ items). rewrite slot_ids_app, length_app, IH.
  simpl. lia.
Qed.

Lemma elem_of_live_labels s id :
  id ∈ dom (filter (fun kv : nat * actor => is_labelb kv.2 && a_alive kv.2 = true) (actors (st_world s))) <->
  exists a, actors (st_world s) !! id = Some a /\ is_labelb a = true /\ a_alive a = true.
Proof.
  rewrite elem_of_dom. split.
  - intros [a (Ha & Hp)%map_lookup_filter_Some]. apply andb_true_iff in Hp. eauto.
  - intros (a & Ha & Hl & Hal). exists a. apply map_lookup_filter_Some. split; [done|]. simpl.
    by rewrite Hl, Hal.
Qed.

Lemma is_labelb_kind a : is_labelb a = true <-> exists sc al, a_kind a = KLabel sc al.
Proof. unfold is_labelb. destruct (a_kind a); split; intros; try done; naive_solver. Qed.

(** With a consistent display the live labels are the slots' labels. *)
Lemma live_labels_wf b s : slots_wf b s -> live_labels s = 3 * length (status_items (st_ext s)).
Proof.
  intros Hwf. rewrite <- length_slot_ids. unfold live_labels.
  rewrite <- (size_list_to_set (C:=gset nat)) by apply (wf_nodup _ _ Hwf). f_equal.
  apply set_eq. intros id. rewrite elem_of_live_labels, elem_of_list_to_set. split.
  - intros (a & Ha & (sc & al & Hk)%is_labelb_kind & Hal). by eapply wf_owned.
  - intros Hid. destruct (wf_labels _ _ Hwf id Hid) as (a & Ha & (Hk & Hal & _)).
    exists a. split_and!; [done | by apply is_labelb_kind | done].
Qed.

(** With the display torn down no label is alive. *)
Lemma live_labels_off s : display_off s -> live_labels s = 0.
Proof.
  intros (_ & Hdead & _). unfold live_labels. apply size_empty_iff, elem_of_equiv_empty.
  intros id (a & Ha & (sc & al & Hk)%is_labelb_kind & Hal)%elem_of_live_labels.
  exact (Hdead id a sc al Ha Hk Hal).
Qed.

Section Resources.
Context `{JsNumbers}.

(** C9: no label leaks.  In every state the shell can reach, the number
    of St.Label widgets not destroyed is exactly three times the number
    of slots, and zero while the extension is disabled. *)
Theorem reachable_live_labels sy :
  reachable sy ->
  live_labels (sys_state sy) = 3 * length (status_items (st_ext (sys_state sy))) /\
  (sys_enabled sy = false -> live_labels (sys_state sy) = 0).
Proof.
  intros Hreach. destruct (reachable_state_inv sy Hreach) as [Hd _ _ Hdis].
  assert (Hl : live_labels (sys_state sy) = 3 * length (status_items (st_ext (sys_state sy)))).
  { unfold display_inv in Hd. destruct (display_box _) as [b|].
    - by apply live_labels_wf with b.
    - rewrite live_labels_off by done. by destruct Hd as [-> _]. }
  split; [done|]. intros Hen. rewrite Hl. by destruct (Hdis Hen) as [-> _].
Qed.
(** C26: [disable] (lines 236-249) from an enabled extension with a
    child, a box and a button: it returns; the child is stopped first
    ([_running] down, its pid passed to [spawn_close_pid], the handle
    forgotten), every label of the slots is destroyed, the slots, the
    box and the button are forgotten, and the button gives up the
    status-area role, so that [enable] can run again.  The outstanding
    reads are left as they were. *)
Theorem disable_spec s h b p :
  state_inv true s -> i3status (st_ext s) = Some h ->
  display_box (st_ext s) = Some b -> status_panel (st_ext s) = Some p ->
  exists s', disable s = (Ok tt, s') /\
    running (st_ext s') = false /\ i3status (st_ext s') = None /\
    closed_pids (st_world s') = closed_pids (st_world s) ++ [h_pid h] /\
    status_items (st_ext s') = [] /\ live_labels s' = 0 /\
    display_box (st_ext s') = None /\ status_panel (st_ext s') = None /\
    (status_area (st_world s) = Some p -> status_area (st_world s') = None) /\
    pending (st_world s') = pending (st_world s).
Proof.
  intros Hinv Hh Hb Hp. pose proof (disable_inv s Hinv) as Hinv'.
  assert (Hrun : exists s', disable s = (Ok tt, s') /\
    running (st_ext s') = false /\ i3status (st_ext s') = None /\
    closed_pids (st_world s') = closed_pids (st_world s) ++ [h_pid h] /\
    status_items (st_ext s') = [] /\ display_box (st_ext s') = None /\ status_panel (st_ext s') = None /\
    (status_area (st_world s) = Some p -> status_area (st_world s') = None) /\
    pending (st_world s') = pending (st_world s)).
  { destruct (display_inv_facts _ (inv_display _ _ Hinv)) as (_ & _ & Har).
    destruct s as [[run h0 fn items box panel] [acts nid area sp cp cf pend lg]]; simpl in *; subst.
    unfold disable, _stop_i3status. host_unfold.
    match goal with |- context [for_each ?l destroy_item ?s1] =>
      edestruct (destroy_items_run l s1) as (acts' & -> & _) end.
    { simpl. intros id Hid ->. by apply (Har id). }
    simpl. repeat case_bool_decide; simplify_eq; simpl; eexists; (split; [reflexivity|]);
      simpl; split_and!; done. }
  destruct Hrun as (s' & Hdis & Hr & Hi & Hcp & Hitems & Hbox & Hpan & Harea & Hpend). exists s'.
  split_and!; try done. unfold run_handler in Hinv'. rewrite Hdis in Hinv'.
  apply live_labels_off, display_inv_off; [|done]. apply (inv_display _ _ Hinv').
Qed.
End Resources.

#[local] Existing Instance integer_numbers.

(** After enable and one line with one block: one slot, three labels;
    after disable: none. *)
Lemma reachable_live_labels_witness :
  live_labels (sys_state demo_enabled) = 3 /\ live_labels (sys_state demo_disabled) = 0.
Proof.
  split.
  - rewrite (proj1 (reachable_live_labels demo_enabled demo_enabled_reachable)). vm_compute. reflexivity.
  - apply (proj2 (reachable_live_labels demo_disabled demo_disabled_reachable)). vm_compute. reflexivity.
Defined.

(** Disabling the running extension of [demo_enabled]. *)
Lemma disable_spec_witness :
  exists s', disable (sys_state demo_enabled) = (Ok tt, s') /\ live_labels s' = 0 /\
    status_area (st_world s') = None.
Proof.
  destruct (disable_spec (sys_state demo_enabled) {| h_pid := 100; h_stdout := 2 |} 1 0)
    as (s' & Hd & _ & _ & _ & _ & Hl & _ & _ & Har & _);
    [apply (reachable_state_inv _ demo_enabled_reachable) | vm_compute; reflexivity..|].
  exists s'. split_and!; [done | done | apply Har; vm_compute; reflexivity].
Defined.
