(* ===== verification/Refinement.v ===== *)
(** * The supervisor against the spec's state machine

    The spec (section 4) describes the supervisor as a machine over
    the states Stopped and Running: [start] spawns the child and goes
    Running, or stays Stopped when the spawn fails; a zero-length read
    while Running restarts the child; [stop] goes Stopped; lines keep
    the state; a read completing after a stop is discarded.  [phase]
    and [spec_step] are that machine, with Running carrying the child's
    pid and each transition labelled by the shell event that causes it.
    [phase_of] reads the phase off the extension's fields [_running] and
    [_i3status].

    [phase_run_refines] shows that every run of shell events in which
    the spawns succeed and no handler throws is mirrored, event by
    event, by a run of the spec's machine. *)

From stdpp Require Import gmap.
From S2P Require Import Prelude JsValue Parse Host Display Supervisor Extension.

(** ** The spec's machine *)

Inductive phase := Stopped | Running (pid : nat).

(** A read that delivers nothing: the end of the stream, or an empty
    line, whose length is 0 as well. *)
Definition zero_length (r : read_result) : bool :=
  match r with REof | RLine [] => true | _ => false end.

Inductive spec_step : event -> phase -> phase -> Prop :=
| spec_start pid i o e : spec_step (EvEnable (SpawnRet true pid i o e)) Stopped (Running pid)
| spec_stop p : spec_step EvDisable p Stopped
| spec_line k l sp p : l <> [] -> spec_step (EvReadDone k (RLine l) sp) p p
| spec_restart k r pid i o e p :
    zero_length r = true -> spec_step (EvReadDone k r (SpawnRet true pid i o e)) (Running p) (Running pid)
| spec_discard k r sp : spec_step (EvReadDone k r sp) Stopped Stopped.

(** Runs of the machine, labelled by the events. *)
Inductive spec_run : list event -> phase -> phase -> Prop :=
| spec_run_nil p : spec_run [] p p
| spec_run_cons ev evs p p' p'' : spec_step ev p p' -> spec_run evs p' p'' -> spec_run (ev :: evs) p p''.

(** ** The abstraction *)

Definition phase_of (s : state) : phase :=
  match running (st_ext s), i3status (st_ext s) with
  | true, Some h => Running (h_pid h)
  | _, _ => Stopped
  end.

Definition spawn_ok (sp : spawn_result) : bool :=
  match sp with SpawnRet true _ _ _ _ => true | _ => false end.

(** The handler returned, no exception left it. *)
Definition returned {A} (o : outcome A) : bool := match o with Ok _ => true | Throw _ => false end.

Section Refinement.
Context `{JsNumbers}.

(** The event's spawn, if it needs one, succeeds and its handler
    returns. *)
Definition step_clean (ev : event) (s : state) : bool :=
  match ev with
  | EvEnable sp => spawn_ok sp && returned (enable sp s).1
  | EvDisable => true
  | EvReadDone k r sp =>
      match take_pending k s with
      | Some (st, s0) => (negb (zero_length r) || spawn_ok sp) && returned (read_callback st r sp s0).1
      | None => true
      end
  end.

Fixpoint clean_run (evs : list event) (sy : system) : bool :=
  match evs with
  | [] => true
  | ev :: evs' =>
      step_clean ev (sys_state sy) &&
      match sys_step ev sy with Some sy1 => clean_run evs' sy1 | None => true end
  end.

(** A restart whose spawn succeeds runs the new child. *)
Lemma restart_phase st r pid i o e s h :
  zero_length r = true -> running (st_ext s) = true -> i3status (st_ext s) = Some h ->
  phase_of (read_callback st r (SpawnRet true pid i o e) s).2 = Running pid.
Proof.
  destruct s as [[run h0 fn items box panel] []]; simpl. intros Hz -> ->.
  destruct r as [[|c l]| |]; try done;
    unfold read_callback, _start_i3status, _read_i3status_async, read_line_finish_utf8; host_unfold;
    reflexivity.
Qed.

(** A line the callback returns from keeps the child. *)
Lemma line_phase st l sp s h s' :
  l <> [] -> running (st_ext s) = true -> i3status (st_ext s) = Some h ->
  read_callback st (RLine l) sp s = (Ok tt, s') -> phase_of s' = Running (h_pid h).
Proof.
  intros Hl Hr Hh. pose proof (consume_line_frame l s) as (Hr1 & Hh1 & _).
  destruct (consume_line l s) as [[u|e] s1] eqn:Hc; simpl in Hr1, Hh1.
  - rewrite (read_callback_consumed st l sp s h u s1 Hr Hh Hl Hc). intros [= <-].
    unfold phase_of. simpl. by rewrite Hr1, Hh1, Hr, Hh.
  - by rewrite (read_callback_consume_throw st l sp s h e s1 Hr Hh Hl Hc).
Qed.

(** A read completing while stopped is discarded. *)
Lemma stopped_phase st r sp s :
  phase_of s = Stopped -> (running (st_ext s) = true -> i3status (st_ext s) <> None) ->
  phase_of (read_callback st r sp s).2 = Stopped.
Proof.
  unfold phase_of, read_callback. cbv [bind get]. intros Hp Hinv.
  destruct (running (st_ext s)) eqn:Hr; simpl.
  - destruct (i3status (st_ext s)) eqn:Hh; [done|]. by destruct Hinv.
  - by rewrite Hr.
Qed.

(** An enable whose spawn succeeds runs the child. *)
Lemma enable_phase pid i o e s s' :
  enable (SpawnRet true pid i o e) s = (Ok tt, s') -> phase_of s' = Running pid.
Proof.
  destruct s as [[] []]. unfold enable, _start_i3status, _read_i3status_async. host_unfold.
  repeat case_match; intros He; simplify_eq; reflexivity.
Qed.

Lemma take_pending_ext k s st s0 : take_pending k s = Some (st, s0) -> st_ext s0 = st_ext s.
Proof. unfold take_pending. case_match; by intros [= <- <-]. Qed.

(** One event of a clean run is a transition of the spec's machine. *)
Lemma phase_step_sim ev sy sy' :
  sys_inv sy -> sys_step ev sy = Some sy' -> step_clean ev (sys_state sy) = true ->
  spec_step ev (phase_of (sys_state sy)) (phase_of (sys_state sy')).
Proof.
  intros Hinv Hst. pose proof (sys_step_inv _ _ _ Hinv Hst) as Hinv'.
  revert Hinv Hinv' Hst. unfold sys_inv. destruct sy as [s en]. destruct ev as [sp| |k r sp]; simpl.
  - destruct en; [done|]. intros Hinv _ [= <-] Hc. simpl.
    destruct sp as [[] pid i o e|]; try done. simpl in Hc.
    assert (Hs : phase_of s = Stopped)
      by (unfold phase_of; by rewrite (proj2 (inv_disabled _ _ Hinv eq_refl))).
    rewrite Hs. unfold run_handler. destruct (enable _ s) as [[[]|e'] s1] eqn:E; [|done].
    rewrite (enable_phase _ _ _ _ _ _ E). constructor.
  - destruct en; [|done]. intros _ Hinv' [= <-] _. simpl in Hinv'.
    assert (Hs : phase_of (run_handler disable s) = Stopped)
      by (unfold phase_of; by rewrite (proj2 (inv_disabled _ _ Hinv' eq_refl))).
    simpl in Hs |- *. rewrite Hs. constructor.
  - intros Hinv _. destruct (take_pending k s) as [[st s0]|] eqn:Ht; [|done]. intros [= <-] Hc. simpl.
    pose proof (take_pending_ext _ _ _ _ Ht) as He.
    assert (Hps : phase_of s0 = phase_of s) by (unfold phase_of; by rewrite He).
    assert (Hinv0 : running (st_ext s0) = true -> i3status (st_ext s0) <> None)
      by (rewrite He; intros Hr; apply (inv_running _ _ Hinv Hr)).
    apply andb_true_iff in Hc as [Hz Hret]. rewrite <- Hps. unfold run_handler.
    destruct (read_callback st r sp s0) as [[[]|e'] s1] eqn:E; [|done].
    destruct (phase_of s0) as [|p] eqn:Hp0.
    + pose proof (stopped_phase st r sp s0 Hp0 Hinv0) as Hs1. rewrite E in Hs1. simpl in Hs1.
      rewrite Hs1. constructor.
    + unfold phase_of in Hp0.
      destruct (running (st_ext s0)) eqn:Hr, (i3status (st_ext s0)) as [h|] eqn:Hh; try done.
      injection Hp0 as <-.
      destruct r as [[|c l]| |].
      * destruct sp as [[] pid i o e|]; try done.
        pose proof (restart_phase st (RLine []) pid i o e s0 h eq_refl Hr Hh) as Hs1.
        rewrite E in Hs1. simpl in Hs1. rewrite Hs1. by constructor.
      * rewrite (line_phase st (c :: l) sp s0 h s1 ltac:(done) Hr Hh E). by constructor.
      * destruct sp as [[] pid i o e|]; try done.
        pose proof (restart_phase st REof pid i o e s0 h eq_refl Hr Hh) as Hs1.
        rewrite E in Hs1. simpl in Hs1. rewrite Hs1. by constructor.
      * unfold read_callback in E. cbv [bind get] in E. rewrite Hr, Hh in E. simpl in E. discriminate.
Qed.

(** C12: refinement of the spec's supervisor machine.  Every run of
    shell events from a reachable state in which each spawn the run
    needs succeeds and no handler throws is mirrored, event by event, by
    a run of the spec's machine: enable starts the child, disable stops
    it, a line keeps it, a zero-length read while running restarts it
    with the new child, and a read completing while stopped is
    discarded. *)
Theorem phase_run_refines evs sy sy' :
  reachable sy -> run_events evs sy = Some sy' -> clean_run evs sy = true ->
  spec_run evs (phase_of (sys_state sy)) (phase_of (sys_state sy')).
Proof.
  revert sy. induction evs as [|ev evs IH]; intros sy Hreach Hrun Hc; simpl in *.
  - injection Hrun as <-. constructor.
  - destruct (sys_step ev sy) as [sy1|] eqn:Hst; [|done]. simpl in Hrun.
    apply andb_true_iff in Hc as [Hc1 Hc2].
    econstructor; [apply phase_step_sim; [by apply reachable_state_inv | done | done] |].
    apply IH; [econstructor; eauto | done | done].
Qed.

End Refinement.

#[local] Existing Instance integer_numbers.

(** Enable, a line, the child closing its output and a restart, then
    disable. *)
Definition demo_events : list event :=
  [EvEnable (SpawnRet true 100 101 102 103);
   EvReadDone 0 (RLine (jq "[{'name':'memory','full_text':'memory: 512 MiB'}]")) SpawnThrow;
   EvReadDone 0 REof (SpawnRet true 200 201 202 203);
   EvDisable].

Lemma phase_run_refines_witness :
  spec_run demo_events (phase_of (sys_state sys_init))
    (phase_of (sys_state (default sys_init (run_events demo_events sys_init)))).
Proof.
  apply phase_run_refines; [constructor | vm_compute; reflexivity | vm_compute; reflexivity].
Defined.

